(** * Heads-up Texas Hold'Em engine: hand evaluator and betting state machine

    A shallow embedding of
    [client/src/components/game/poker/poker-game-engine.ts] (class
    [PokerGame]) and the properties of its hand evaluator, its betting
    state machine and its preflop strength heuristic.

    Conventions of the embedding.
    - A JavaScript number that holds an integer (chips, bets, ranks, the
      category ordinal) is a [Z], which is exact for the integers below 2^53
      that a double holds; array indices and counts are [nat].
    - The numbers built with [/ 100], [/ 10000], ... in [getHandValue] and
      the strength heuristic are exact rationals ([Q]).  The values of
      [getHandValue] that differ as rationals differ by at least 1e-6 and lie
      below 200, far above the rounding error of the four double-precision
      operations that build them, and equal rationals come from equal
      operands, so comparisons between them agree with the source's.  The
      preflop strength is a sum of at most nine terms below 1, so that its
      double is within 1e-15 of the rational.
    - A thrown exception is an [Err]; in the engine the state reached when
      the exception is thrown is kept, as a caller that catches it sees it.
    - Objects shared by reference (the players listed in [winners], the
      active players of a showdown) are indices into [players]. *)

From Stdlib Require Import List ZArith QArith Bool String Lia Lqa Arith.
From Stdlib Require Import DecimalString Permutation ZifyBool.
Import ListNotations.

Open Scope string_scope.
Open Scope list_scope.
Open Scope Z_scope.

(* ================================================================== *)
(** * Errors and the exception monad of the evaluator *)

Inductive Error : Type :=
| NoCardsLeft       (* Error('No cards left in deck') *)
| CannotCheck       (* Error('Cannot check when there is a bet to call') *)
| NeedFiveCards     (* Error('At least 5 cards needed to evaluate a hand') *)
| TypeError         (* a property read on undefined *)
| NotFinite         (* NaN or -Infinity where a number is expected *)
| OutOfFuel.        (* a loop of the model ran out of its iteration bound *)

Inductive result (A : Type) : Type :=
| Ok (a : A)
| Err (e : Error).
Arguments Ok {A} a.
Arguments Err {A} e.

Definition rbind {A B} (r : result A) (f : A -> result B) : result B :=
  match r with
  | Ok a => f a
  | Err e => Err e
  end.

Declare Scope result_scope.
Delimit Scope result_scope with res.
Notation "x <- r ;; k" := (rbind r (fun x => k))
  (at level 100, r at next level, right associativity) : result_scope.

(* ================================================================== *)
(** * Cards *)

Inductive Suit : Type := hearts | diamonds | clubs | spades.

(** [rank: 2 | 3 | ... | 14], with 11 = J, 12 = Q, 13 = K, 14 = A. *)
Inductive Rank : Type :=
| R2 | R3 | R4 | R5 | R6 | R7 | R8 | R9 | R10 | RJ | RQ | RK | RA.

Definition rankNum (r : Rank) : Z :=
  match r with
  | R2 => 2 | R3 => 3 | R4 => 4 | R5 => 5 | R6 => 6 | R7 => 7 | R8 => 8
  | R9 => 9 | R10 => 10 | RJ => 11 | RQ => 12 | RK => 13 | RA => 14
  end.

Record Card : Type := mkCard {
  suit : Suit;
  rank : Rank;
  hidden : option bool   (* hidden?: boolean *)
}.

(** The number read by [card.rank]. *)
Definition rk (c : Card) : Z := rankNum (rank c).

Definition card (s : Suit) (r : Rank) : Card := mkCard s r None.

Definition Suit_eq_dec : forall a b : Suit, {a = b} + {a <> b}.
Proof. decide equality. Defined.

Definition suit_eqb (a b : Suit) : bool :=
  if Suit_eq_dec a b then true else false.

Definition SUITS : list Suit := [hearts; diamonds; clubs; spades].
Definition RANKS : list Rank :=
  [R2; R3; R4; R5; R6; R7; R8; R9; R10; RJ; RQ; RK; RA].
Definition STARTING_CHIPS : Z := 1000.
Definition SMALL_BLIND : Z := 5.
Definition BIG_BLIND : Z := 10.
Definition MIN_BET : Z := BIG_BLIND.

Inductive GameStage : Type := preflop | flop | turn | river | showdownStage.

Inductive PlayerAction : Type := fold | check | call | raise | allin.

(** Lowest to highest. *)
Inductive HandRank : Type :=
| high_card | pair | two_pair | three_kind | straight
| flush | full_house | four_kind | straight_flush | royal_flush.

Record HandEvaluation : Type := mkEval {
  he_rank : HandRank;
  he_cards : list Card;
  description : string;
  value : Z
}.

(* ================================================================== *)
(** * Array helpers *)

(** [Array.prototype.sort(cmp)]: the sort is stable, so with a comparator
    that is a difference of keys the result is the stable insertion sort. *)
Section Sort.
Context {A : Type} (cmp : A -> A -> Z).

Fixpoint insertSorted (x : A) (l : list A) : list A :=
    match l with
    | [] => [x]
    | y :: ys => if cmp x y <=? 0 then x :: l else y :: insertSorted x ys
    end.

Definition jsSort (l : list A) : list A := fold_right insertSorted [] l.
End Sort.

(** [[...cards].sort((a, b) => b.rank - a.rank)] *)
Definition sortByRankDesc (cards : list Card) : list Card :=
  jsSort (fun a b => rk b - rk a) cards.

(** [nums.sort((a, b) => b - a)] *)
Definition sortNumsDesc (nums : list Z) : list Z :=
  jsSort (fun a b => b - a) nums.

(** [cards[i].rank]: a TypeError when [cards[i]] is undefined. *)
Definition rankAt (cards : list Card) (i : nat) : result Z :=
  match nth_error cards i with
  | Some c => Ok (rk c)
  | None => Err TypeError
  end.

Definition showZ (z : Z) : string := NilZero.string_of_int (Z.to_int z).

(* ================================================================== *)
(** * Rank counts

    [countRanks] returns a [Map<string, number>] keyed by
    [rank.toString()]; a Map iterates in insertion order.  The keys are
    kept as the numbers themselves ([parseInt] of the key gives the number
    back), the map as an association list in insertion order. *)

Definition RankCounts : Type := list (Z * nat).

Fixpoint mapGet (k : Z) (m : RankCounts) : option nat :=
  match m with
  | [] => None
  | (k', v) :: m' => if k =? k' then Some v else mapGet k m'
  end.

Fixpoint mapSet (k : Z) (v : nat) (m : RankCounts) : RankCounts :=
  match m with
  | [] => [(k, v)]
  | (k', v') :: m' => if k =? k' then (k, v) :: m' else (k', v') :: mapSet k v m'
  end.

Definition countRanks (cards : list Card) : RankCounts :=
  fold_left
    (fun counts c =>
       mapSet (rk c)
         (match mapGet (rk c) counts with Some n => n | None => 0%nat end + 1)%nat
         counts)
    cards [].

Definition mapValues (m : RankCounts) : list nat := map snd m.

Definition includesNat (n : nat) (l : list nat) : bool :=
  existsb (Nat.eqb n) l.

(** [Array.from(rankCounts.entries()).find(([_, count]) => count === n)],
    then [found ? parseInt(found[0]) : 0]. *)
Definition rankWithCount (n : nat) (cards : list Card) : Z :=
  match find (fun e => Nat.eqb (snd e) n) (countRanks cards) with
  | Some e => fst e
  | None => 0
  end.

Definition getPairValue (cards : list Card) : Z := rankWithCount 2 cards.
Definition getThreeKindValue (cards : list Card) : Z := rankWithCount 3 cards.
Definition getFourKindValue (cards : list Card) : Z := rankWithCount 4 cards.

Definition getTwoPairValues (cards : list Card) : list Z :=
  sortNumsDesc
    (map fst (filter (fun e => Nat.eqb (snd e) 2) (countRanks cards))).

(** [Math.max(...cards.map(c => c.rank))].  Of no card it is -Infinity, with
    which the source would go on; the model stops there with [NotFinite],
    and a hand of five cards never gets there. *)
Definition getHighCard (cards : list Card) : result Z :=
  match map rk cards with
  | [] => Err NotFinite
  | r :: rs => Ok (fold_left Z.max rs r)
  end.

(* ================================================================== *)
(** * Hand type checkers *)

(** [new Set(cards.map(c => c.suit)).size === 1] *)
Definition isFlush (cards : list Card) : bool :=
  Nat.eqb (List.length (nodup Suit_eq_dec (map suit cards))) 1.

(** The loop [for (i = 1; i < sorted.length; i++)] of [isStraight]. *)
Fixpoint consecutiveDesc (ranks : list Z) : bool :=
  match ranks with
  | a :: ((b :: _) as tl) => if a =? b + 1 then consecutiveDesc tl else false
  | _ => true
  end.

Definition isStraight (cards : list Card) : result bool :=
  (let sortedCards := sortByRankDesc cards in
   r0 <- rankAt sortedCards 0 ;;
   wheel <-
     (if r0 =? 14 then
        r1 <- rankAt sortedCards 1 ;;
        if r1 =? 5 then
          r2 <- rankAt sortedCards 2 ;;
          if r2 =? 4 then
            r3 <- rankAt sortedCards 3 ;;
            if r3 =? 3 then
              r4 <- rankAt sortedCards 4 ;;
              Ok (r4 =? 2)
            else Ok false
          else Ok false
        else Ok false
      else Ok false) ;;
   if (wheel : bool) then Ok true
   else Ok (consecutiveDesc (map rk sortedCards)))%res.

Definition isStraightFlush (cards : list Card) : result bool :=
  if isFlush cards then isStraight cards else Ok false.

Definition isRoyalFlush (cards : list Card) : result bool :=
  (sf <- isStraightFlush cards ;;
   if (sf : bool) then
     r0 <- rankAt cards 0 ;;
     Ok (r0 =? 14)
   else Ok false)%res.

Definition isFourOfAKind (cards : list Card) : bool :=
  includesNat 4 (mapValues (countRanks cards)).

Definition isFullHouse (cards : list Card) : bool :=
  let counts := mapValues (countRanks cards) in
  includesNat 3 counts && includesNat 2 counts.

Definition isThreeOfAKind (cards : list Card) : bool :=
  includesNat 3 (mapValues (countRanks cards)).

Definition isTwoPair (cards : list Card) : bool :=
  Nat.eqb
    (List.length (filter (fun n => Nat.eqb n 2) (mapValues (countRanks cards))))
    2.

Definition isPair (cards : list Card) : bool :=
  includesNat 2 (mapValues (countRanks cards)).

(* ================================================================== *)
(** * Hand values and the best five cards *)

(** [getHandValue]: the number used to choose the best five cards.
    [pairs[0] + pairs[1] / 100] is NaN when [pairs] has fewer than two
    entries, which the [isTwoPair] test before it excludes; the model stops
    there with [NotFinite]. *)
Definition getHandValue (cards : list Card) : result Q :=
  (rf <- isRoyalFlush cards ;;
   if (rf : bool) then
     r0 <- rankAt cards 0 ;; Ok (10 * 15 + inject_Z r0)%Q
   else
   sf <- isStraightFlush cards ;;
   if (sf : bool) then
     r0 <- rankAt cards 0 ;; Ok (9 * 15 + inject_Z r0)%Q
   else
   if isFourOfAKind cards then
     let fourKindRank := getFourKindValue cards in
     let kicker := find (fun c => negb (rk c =? fourKindRank)) cards in
     Ok (8 * 15 + inject_Z fourKindRank
         + match kicker with
           | Some k => inject_Z (rk k) / 100
           | None => 0
           end)%Q
   else
   if isFullHouse cards then
     let threeKindRank := getThreeKindValue cards in
     let pairRank := getPairValue cards in
     Ok (7 * 15 + inject_Z threeKindRank + inject_Z pairRank / 100)%Q
   else
   if isFlush cards then
     h <- getHighCard cards ;; Ok (6 * 15 + inject_Z h)%Q
   else
   st <- isStraight cards ;;
   if (st : bool) then
     r0 <- rankAt cards 0 ;; Ok (5 * 15 + inject_Z r0)%Q
   else
   if isThreeOfAKind cards then
     let threeKindRank := getThreeKindValue cards in
     let kickers :=
       sortByRankDesc (filter (fun c => negb (rk c =? threeKindRank)) cards) in
     k0 <- rankAt kickers 0 ;;
     k1 <- rankAt kickers 1 ;;
     Ok (4 * 15 + inject_Z threeKindRank
         + inject_Z k0 / 100 + inject_Z k1 / 10000)%Q
   else
   if isTwoPair cards then
     match getTwoPairValues cards with
     | p0 :: p1 :: _ =>
         let kicker :=
           find (fun c => negb (rk c =? p0) && negb (rk c =? p1)) cards in
         Ok (3 * 15 + inject_Z p0 + inject_Z p1 / 100
             + match kicker with
               | Some k => inject_Z (rk k) / 10000
               | None => 0
               end)%Q
     | _ => Err NotFinite
     end
   else
   if isPair cards then
     let pairRank := getPairValue cards in
     let kickers :=
       sortByRankDesc (filter (fun c => negb (rk c =? pairRank)) cards) in
     k0 <- rankAt kickers 0 ;;
     k1 <- rankAt kickers 1 ;;
     k2 <- rankAt kickers 2 ;;
     Ok (2 * 15 + inject_Z pairRank + inject_Z k0 / 100
         + inject_Z k1 / 10000 + inject_Z k2 / 1000000)%Q
   else
   h <- getHighCard cards ;; Ok (1 * 15 + inject_Z h)%Q)%res.

Fixpoint getCombinations {T : Type} (array : list T) (k : nat)
  : list (list T) :=
  match k with
  | O => [[]]
  | S k' =>
      match array with
      | [] => []
      | first :: rest =>
          map (cons first) (getCombinations rest k') ++ getCombinations rest k
      end
  end.

(** [a > b] on numbers. *)
Definition Qgtb (a b : Q) : bool := negb (Qle_bool a b).

(** One turn of the loop of [getBestFiveCardHand] over a combination;
    the accumulator is [(bestHandValue, bestHand)]. *)
Definition bestStep (acc : Q * list Card) (combo : list Card)
  : result (Q * list Card) :=
  (let sortedCombo := sortByRankDesc combo in
   handValue <- getHandValue sortedCombo ;;
   if Qgtb handValue (fst acc) then Ok (handValue, sortedCombo)
   else Ok acc)%res.

Fixpoint bestLoop (combos : list (list Card)) (acc : Q * list Card)
  : result (Q * list Card) :=
  match combos with
  | [] => Ok acc
  | combo :: rest => (acc' <- bestStep acc combo ;; bestLoop rest acc')%res
  end.

Definition getBestFiveCardHand (cards : list Card) : result (list Card) :=
  if Nat.eqb (List.length cards) 5 then Ok (sortByRankDesc cards)
  else
    (r <- bestLoop (getCombinations cards 5) ((-1)%Q, []) ;;
     Ok (snd r))%res.

(* ================================================================== *)
(** * Names used in descriptions *)

Definition getRankName (r : Z) : string :=
  if r =? 14 then "Ace"
  else if r =? 13 then "King"
  else if r =? 12 then "Queen"
  else if r =? 11 then "Jack"
  else showZ r.

(** [suit.charAt(0).toUpperCase() + suit.slice(1)] *)
Definition getSuitName (s : Suit) : string :=
  match s with
  | hearts => "Hearts"
  | diamonds => "Diamonds"
  | clubs => "Clubs"
  | spades => "Spades"
  end.

Definition getCardName (c : Card) : string :=
  (getRankName (rk c) ++ " of " ++ getSuitName (suit c))%string.

(** [this.getCardName(cards[i])]: reading [.rank] of undefined throws. *)
Definition cardNameAt (cards : list Card) (i : nat) : result string :=
  match nth_error cards i with
  | Some c => Ok (getCardName c)
  | None => Err TypeError
  end.

(** [this.getRankName(pairs[i])]: [undefined.toString()] throws. *)
Definition rankNameAt (nums : list Z) (i : nat) : result string :=
  match nth_error nums i with
  | Some r => Ok (getRankName r)
  | None => Err TypeError
  end.

(* ================================================================== *)
(** * evaluateHand *)

(** The chain of checks of [evaluateHand], from the highest category to
    the lowest, on the best five cards. *)
Definition evaluateBest (bestHand : list Card) : result HandEvaluation :=
  (rf <- isRoyalFlush bestHand ;;
   if (rf : bool) then Ok (mkEval royal_flush bestHand "Royal Flush" 10)
   else
   sf <- isStraightFlush bestHand ;;
   if (sf : bool) then
     n <- cardNameAt bestHand 0 ;;
     Ok (mkEval straight_flush bestHand
           ("Straight Flush, " ++ n ++ " high")%string 9)
   else
   if isFourOfAKind bestHand then
     let fourKindRank := getFourKindValue bestHand in
     Ok (mkEval four_kind bestHand
           ("Four of a Kind, " ++ getRankName fourKindRank ++ "s")%string 8)
   else
   if isFullHouse bestHand then
     let threeKindRank := getThreeKindValue bestHand in
     let pairRank := getPairValue bestHand in
     Ok (mkEval full_house bestHand
           ("Full House, " ++ getRankName threeKindRank ++ "s over "
              ++ getRankName pairRank ++ "s")%string 7)
   else
   if isFlush bestHand then
     n <- cardNameAt bestHand 0 ;;
     Ok (mkEval flush bestHand ("Flush, " ++ n ++ " high")%string 6)
   else
   st <- isStraight bestHand ;;
   if (st : bool) then
     n <- cardNameAt bestHand 0 ;;
     Ok (mkEval straight bestHand ("Straight, " ++ n ++ " high")%string 5)
   else
   if isThreeOfAKind bestHand then
     let threeKindRank := getThreeKindValue bestHand in
     Ok (mkEval three_kind bestHand
           ("Three of a Kind, " ++ getRankName threeKindRank ++ "s")%string 4)
   else
   if isTwoPair bestHand then
     let pairs := getTwoPairValues bestHand in
     n0 <- rankNameAt pairs 0 ;;
     n1 <- rankNameAt pairs 1 ;;
     Ok (mkEval two_pair bestHand
           ("Two Pair, " ++ n0 ++ "s and " ++ n1 ++ "s")%string 3)
   else
   if isPair bestHand then
     let pairRank := getPairValue bestHand in
     Ok (mkEval pair bestHand
           ("Pair of " ++ getRankName pairRank ++ "s")%string 2)
   else
   n <- cardNameAt bestHand 0 ;;
   Ok (mkEval high_card bestHand ("High Card, " ++ n)%string 1))%res.

Definition evaluateHand (cards : list Card) : result HandEvaluation :=
  if (List.length cards <? 5)%nat then Err NeedFiveCards
  else (bestHand <- getBestFiveCardHand cards ;; evaluateBest bestHand)%res.

(** The ordinal of a category, 1 (high card) to 10 (royal flush). *)
Definition rankOrdinal (r : HandRank) : Z :=
  match r with
  | high_card => 1 | pair => 2 | two_pair => 3 | three_kind => 4
  | straight => 5 | flush => 6 | full_house => 7 | four_kind => 8
  | straight_flush => 9 | royal_flush => 10
  end.

(* ================================================================== *)
(** * Preflop strength of the AI

    [ranks[i]] of a missing card is undefined; arithmetic on it gives NaN,
    and a comparison with NaN is false.  The result [None] stands for NaN. *)

Definition optZ_eqb (a b : option Z) : bool :=
  match a, b with
  | Some x, Some y => x =? y
  | None, None => true
  | _, _ => false
  end.

Definition includesZ (n : Z) (l : list Z) : bool := existsb (Z.eqb n) l.

(** [Math.min(a, b)] on numbers. *)
Definition mathMin (a b : Q) : Q := if Qle_bool a b then a else b.

Definition calculatePreflopHandStrength (holeCards : list Card) : option Q :=
  let ranks := map rk holeCards in
  let suits := map suit holeCards in
  if optZ_eqb (nth_error ranks 0) (nth_error ranks 1) then
    match nth_error ranks 0 with
    | Some pairRank => Some (0.5 + ((inject_Z pairRank - 2) / 12) * 0.4)%Q
    | None => None
    end
  else
    let suited :=
      match nth_error suits 0, nth_error suits 1 with
      | Some a, Some b => suit_eqb a b
      | None, None => true
      | _, _ => false
      end in
    let hasAce := includesZ 14 ranks in
    let hasKing := includesZ 13 ranks in
    let hasQueen := includesZ 12 ranks in
    let hasJack := includesZ 11 ranks in
    let diff :=
      match nth_error ranks 0, nth_error ranks 1 with
      | Some a, Some b => Some (Z.abs (a - b))
      | _, _ => None
      end in
    let connected := match diff with Some d => d =? 1 | None => false end in
    let closelyConnected :=
      match diff with Some d => d <=? 3 | None => false end in
    let strength := 0.2%Q in
    let strength := if hasAce then (strength + 0.15)%Q else strength in
    let strength := if hasKing then (strength + 0.1)%Q else strength in
    let strength := if hasQueen then (strength + 0.05)%Q else strength in
    let strength := if hasJack then (strength + 0.03)%Q else strength in
    let strength := if suited then (strength + 0.1)%Q else strength in
    let strength :=
      if connected then (strength + 0.1)%Q
      else if closelyConnected then (strength + 0.05)%Q else strength in
    let strength :=
      if hasAce && hasKing then (strength + 0.1)%Q else strength in
    let strength :=
      if suited && connected && (hasAce || hasKing) then (strength + 0.1)%Q
      else strength in
    Some (mathMin 0.95 strength).

(* ================================================================== *)
(** * Game state *)

Record Player : Type := mkPlayer {
  pid : string;                               (* id *)
  name : string;
  chips : Z;
  bet : Z;
  folded : bool;
  isAI : bool;
  holeCards : list Card;
  handEvaluation : option HandEvaluation
}.

Record Pot : Type := mkPot {
  amount : Z;
  eligiblePlayers : list string
}.

(** [winners] holds references to objects of [players]: here, their
    indices in [players]. *)
Record GameState : Type := mkState {
  deck : list Card;
  players : list Player;
  communityCards : list Card;
  stage : GameStage;
  currentPlayerIndex : nat;
  dealerIndex : nat;
  pots : list Pot;
  mainPot : Z;
  minBet : Z;
  currentBet : Z;
  winners : list nat;
  roundOver : bool;
  log : list string
}.

Definition set_chips (v : Z) (p : Player) : Player :=
  mkPlayer (pid p) (name p) v (bet p) (folded p) (isAI p) (holeCards p)
    (handEvaluation p).
Definition set_bet (v : Z) (p : Player) : Player :=
  mkPlayer (pid p) (name p) (chips p) v (folded p) (isAI p) (holeCards p)
    (handEvaluation p).
Definition set_folded (v : bool) (p : Player) : Player :=
  mkPlayer (pid p) (name p) (chips p) (bet p) v (isAI p) (holeCards p)
    (handEvaluation p).
Definition set_holeCards (v : list Card) (p : Player) : Player :=
  mkPlayer (pid p) (name p) (chips p) (bet p) (folded p) (isAI p) v
    (handEvaluation p).
Definition set_handEvaluation (v : option HandEvaluation) (p : Player)
  : Player :=
  mkPlayer (pid p) (name p) (chips p) (bet p) (folded p) (isAI p)
    (holeCards p) v.

Definition set_deck (v : list Card) (s : GameState) : GameState :=
  mkState v (players s) (communityCards s) (stage s) (currentPlayerIndex s)
    (dealerIndex s) (pots s) (mainPot s) (minBet s) (currentBet s)
    (winners s) (roundOver s) (log s).
Definition set_players (v : list Player) (s : GameState) : GameState :=
  mkState (deck s) v (communityCards s) (stage s) (currentPlayerIndex s)
    (dealerIndex s) (pots s) (mainPot s) (minBet s) (currentBet s)
    (winners s) (roundOver s) (log s).
Definition set_communityCards (v : list Card) (s : GameState) : GameState :=
  mkState (deck s) (players s) v (stage s) (currentPlayerIndex s)
    (dealerIndex s) (pots s) (mainPot s) (minBet s) (currentBet s)
    (winners s) (roundOver s) (log s).
Definition set_stage (v : GameStage) (s : GameState) : GameState :=
  mkState (deck s) (players s) (communityCards s) v (currentPlayerIndex s)
    (dealerIndex s) (pots s) (mainPot s) (minBet s) (currentBet s)
    (winners s) (roundOver s) (log s).
Definition set_currentPlayerIndex (v : nat) (s : GameState) : GameState :=
  mkState (deck s) (players s) (communityCards s) (stage s) v
    (dealerIndex s) (pots s) (mainPot s) (minBet s) (currentBet s)
    (winners s) (roundOver s) (log s).
Definition set_dealerIndex (v : nat) (s : GameState) : GameState :=
  mkState (deck s) (players s) (communityCards s) (stage s)
    (currentPlayerIndex s) v (pots s) (mainPot s) (minBet s) (currentBet s)
    (winners s) (roundOver s) (log s).
Definition set_pots (v : list Pot) (s : GameState) : GameState :=
  mkState (deck s) (players s) (communityCards s) (stage s)
    (currentPlayerIndex s) (dealerIndex s) v (mainPot s) (minBet s)
    (currentBet s) (winners s) (roundOver s) (log s).
Definition set_mainPot (v : Z) (s : GameState) : GameState :=
  mkState (deck s) (players s) (communityCards s) (stage s)
    (currentPlayerIndex s) (dealerIndex s) (pots s) v (minBet s)
    (currentBet s) (winners s) (roundOver s) (log s).
Definition set_currentBet (v : Z) (s : GameState) : GameState :=
  mkState (deck s) (players s) (communityCards s) (stage s)
    (currentPlayerIndex s) (dealerIndex s) (pots s) (mainPot s) (minBet s)
    v (winners s) (roundOver s) (log s).
Definition set_winners (v : list nat) (s : GameState) : GameState :=
  mkState (deck s) (players s) (communityCards s) (stage s)
    (currentPlayerIndex s) (dealerIndex s) (pots s) (mainPot s) (minBet s)
    (currentBet s) v (roundOver s) (log s).
Definition set_roundOver (v : bool) (s : GameState) : GameState :=
  mkState (deck s) (players s) (communityCards s) (stage s)
    (currentPlayerIndex s) (dealerIndex s) (pots s) (mainPot s) (minBet s)
    (currentBet s) (winners s) v (log s).
Definition set_log (v : list string) (s : GameState) : GameState :=
  mkState (deck s) (players s) (communityCards s) (stage s)
    (currentPlayerIndex s) (dealerIndex s) (pots s) (mainPot s) (minBet s)
    (currentBet s) (winners s) (roundOver s) v.

(** [l[i] = f(l[i])] for an index inside the array. *)
Fixpoint updAt {A : Type} (i : nat) (f : A -> A) (l : list A) : list A :=
  match l, i with
  | [], _ => []
  | x :: xs, O => f x :: xs
  | x :: xs, S i' => x :: updAt i' f xs
  end.

(* ================================================================== *)
(** * The monad of the engine: state, and exceptions that keep the state *)

Definition M (A : Type) : Type := GameState -> result A * GameState.

Definition ret {A} (a : A) : M A := fun s => (Ok a, s).

Definition bind {A B} (m : M A) (f : A -> M B) : M B :=
  fun s =>
    match m s with
    | (Ok a, s') => f a s'
    | (Err e, s') => (Err e, s')
    end.

Definition throw {A} (e : Error) : M A := fun s => (Err e, s).
Definition get : M GameState := fun s => (Ok s, s).
Definition gets {A} (f : GameState -> A) : M A := fun s => (Ok (f s), s).
Definition modify (f : GameState -> GameState) : M unit :=
  fun s => (Ok tt, f s).
Definition liftR {A} (r : result A) : M A := fun s => (r, s).

Declare Scope engine_scope.
Delimit Scope engine_scope with M.
Notation "x <- m ;; k" := (bind m (fun x => k))
  (at level 100, m at next level, right associativity) : engine_scope.
Notation "m ;; k" := (bind m (fun _ => k))
  (at level 100, right associativity) : engine_scope.

(** [for (const x of xs) body(x)] *)
Fixpoint forEach {A} (xs : list A) (body : A -> M unit) : M unit :=
  match xs with
  | [] => ret tt
  | x :: rest => (body x ;; forEach rest body)%M
  end.

(** [this.state.players[i]] followed by a property access, which throws
    when the entry is undefined. *)
Definition getPlayer (i : nat) : M Player :=
  fun s =>
    match nth_error (players s) i with
    | Some p => (Ok p, s)
    | None => (Err TypeError, s)
    end.

(** A write to fields of the player object at index [i]. *)
Definition updPlayer (i : nat) (f : Player -> Player) : M unit :=
  modify (fun s => set_players (updAt i f (players s)) s).

Definition pushLog (msg : string) : M unit :=
  modify (fun s => set_log (log s ++ [msg]) s).

Definition playerIndices (s : GameState) : list nat :=
  seq 0 (List.length (players s)).

(* ================================================================== *)
(** * Deck *)

Definition freshDeck : list Card :=
  flat_map (fun s => map (fun r => card s r) RANKS) SUITS.

(** [[deck[i], deck[j]] = [deck[j], deck[i]]] for two indices inside the
    array.  The index [j] is [Math.floor(getSecureRandom() * (i + 1))],
    which lies in [0..i] unless the 32-bit sample is 0xFFFFFFFF; that one
    sample makes the source write past the end of the array, and is left out
    of the model ([validSwaps] below): here such a swap changes nothing. *)
Definition swapAt (i j : nat) (d : list Card) : list Card :=
  match nth_error d i, nth_error d j with
  | Some ci, Some cj => updAt j (fun _ => ci) (updAt i (fun _ => cj) d)
  | _, _ => d
  end.

(** The Fisher-Yates loop [for (i = deck.length - 1; i > 0; i--)], with the
    random indices drawn by the loop given as [js]. *)
Fixpoint shuffleLoop (i : nat) (js : list nat) (d : list Card) : list Card :=
  match i, js with
  | S i', j :: js' => shuffleLoop i' js' (swapAt i j d)
  | _, _ => d
  end.

Definition createShuffledDeck (js : list nat) : list Card :=
  shuffleLoop (List.length freshDeck - 1) js freshDeck.

(** The random indices of one shuffle: one for each [i] from 51 down to 1,
    each in [0..i]. *)
Fixpoint swapsInRange (i : nat) (js : list nat) : bool :=
  match i, js with
  | O, [] => true
  | S i', j :: js' => (j <=? i)%nat && swapsInRange i' js'
  | _, _ => false
  end.

Definition validSwaps (js : list nat) : bool := swapsInRange 51 js.

(** [deck.pop()] *)
Definition pop {A} (l : list A) : option (A * list A) :=
  match rev l with
  | [] => None
  | x :: r => Some (x, rev r)
  end.

Definition drawCard : M Card :=
  fun s =>
    match pop (deck s) with
    | None => (Err NoCardsLeft, s)
    | Some (c, rest) => (Ok c, set_deck rest s)
    end.

(* ================================================================== *)
(** * The engine *)

(** [new PokerGame(userChips, aiChips)]; [js] are the random indices of the
    constructor's shuffle. *)
Definition newGame (userChips aiChips : Z) (js : list nat) : GameState :=
  mkState (createShuffledDeck js)
    [ mkPlayer "player" "You" userChips 0 false false [] None;
      mkPlayer "ai" "Dealer" aiChips 0 false true [] None ]
    [] preflop 0%nat 1%nat [] 0 MIN_BET 0 [] false ["New game started"].

Definition postBlind (playerIndex : nat) (amount : Z) : M unit :=
  (player <- getPlayer playerIndex ;;
   let actualAmount := Z.min amount (chips player) in
   updPlayer playerIndex
     (fun p => set_chips (chips p - actualAmount) (set_bet actualAmount p)) ;;
   modify (fun s => set_mainPot (mainPot s + actualAmount) s) ;;
   pushLog (name player ++ " posts " ++ showZ actualAmount ++ " "
            ++ (if amount =? SMALL_BLIND then "small blind" else "big blind"))
  )%M.

Definition hideCard (c : Card) : Card := mkCard (suit c) (rank c) (Some true).
Definition showCard (c : Card) : Card := mkCard (suit c) (rank c) (Some false).

Definition dealHoleCards : M unit :=
  (idxs <- gets playerIndices ;;
   forEach idxs (fun i =>
     c1 <- drawCard ;;
     c2 <- drawCard ;;
     updPlayer i (fun p =>
       if isAI p then set_holeCards (map hideCard [c1; c2]) p
       else set_holeCards [c1; c2] p)) ;;
   pushLog "Hole cards dealt")%M.

Definition startHand (js : list nat) : M unit :=
  (modify (fun s =>
     set_log ["New hand started"]
       (set_winners []
          (set_roundOver false
             (set_stage preflop
                (set_currentBet 0
                   (set_pots []
                      (set_mainPot 0
                         (set_communityCards []
                            (set_deck (createShuffledDeck js) s))))))))) ;;
   idxs <- gets playerIndices ;;
   forEach idxs (fun i =>
     updPlayer i (fun p =>
       set_handEvaluation None
         (set_holeCards [] (set_folded false (set_bet 0 p))))) ;;
   modify (fun s =>
     set_dealerIndex
       ((dealerIndex s + 1) mod List.length (players s))%nat s) ;;
   s <- get ;;
   let n := List.length (players s) in
   let smallBlindPos := ((dealerIndex s + 1) mod n)%nat in
   let bigBlindPos := ((dealerIndex s + 2) mod n)%nat in
   postBlind smallBlindPos SMALL_BLIND ;;
   postBlind bigBlindPos BIG_BLIND ;;
   modify (set_currentBet BIG_BLIND) ;;
   dealHoleCards ;;
   modify (set_currentPlayerIndex ((bigBlindPos + 1) mod n)%nat) ;;
   pushLog ("Blinds posted: Small blind " ++ showZ SMALL_BLIND
            ++ ", Big blind " ++ showZ BIG_BLIND))%M.

(** [players.filter(p => !p.folded)], as indices. *)
Definition activeIndices (s : GameState) : list nat :=
  filter
    (fun i =>
       match nth_error (players s) i with
       | Some p => negb (folded p)
       | None => false
       end)
    (playerIndices s).

(** [for (const player of players) player.holeCards.forEach(c => c.hidden = false)] *)
Definition revealAll : M unit :=
  (idxs <- gets playerIndices ;;
   forEach idxs (fun i =>
     updPlayer i (fun p => set_holeCards (map showCard (holeCards p)) p)))%M.

Definition awardPot (ws : list nat) : M unit :=
  match ws with
  | [] => ret tt
  | w0 :: _ =>
      (s <- get ;;
       let n := Z.of_nat (List.length ws) in
       let amountPerWinner := mainPot s / n in
       forEach ws (fun w =>
         updPlayer w (fun p => set_chips (chips p + amountPerWinner) p)) ;;
       let remainder := Z.rem (mainPot s) n in
       (if remainder >? 0
        then updPlayer w0 (fun p => set_chips (chips p + remainder) p)
        else ret tt) ;;
       modify (set_mainPot 0))%M
  end.

Definition endHand (ws : list nat) : M unit :=
  (awardPot ws ;;
   modify (set_winners ws) ;;
   w <- match ws with
        | w0 :: _ => getPlayer w0
        | [] => throw TypeError
        end ;;
   s <- get ;;
   pushLog (name w ++ " wins " ++ showZ (mainPot s)) ;;
   revealAll ;;
   modify (set_stage showdownStage) ;;
   modify (set_roundOver true))%M.

Definition dealFlop : M unit :=
  (_ <- drawCard ;;
   c1 <- drawCard ;;
   modify (fun s => set_communityCards (communityCards s ++ [c1]) s) ;;
   c2 <- drawCard ;;
   modify (fun s => set_communityCards (communityCards s ++ [c2]) s) ;;
   c3 <- drawCard ;;
   modify (fun s => set_communityCards (communityCards s ++ [c3]) s) ;;
   modify (set_stage flop) ;;
   pushLog "Flop dealt")%M.

Definition dealTurn : M unit :=
  (_ <- drawCard ;;
   c <- drawCard ;;
   modify (fun s => set_communityCards (communityCards s ++ [c]) s) ;;
   modify (set_stage turn) ;;
   pushLog "Turn dealt")%M.

Definition dealRiver : M unit :=
  (_ <- drawCard ;;
   c <- drawCard ;;
   modify (fun s => set_communityCards (communityCards s ++ [c]) s) ;;
   modify (set_stage river) ;;
   pushLog "River dealt")%M.

Definition evaluationOf (s : GameState) (i : nat) : option HandEvaluation :=
  match nth_error (players s) i with
  | Some p => handEvaluation p
  | None => None
  end.

(** The comparator of the sort in [showdown]. *)
Definition byHandValue (s : GameState) (a b : nat) : Z :=
  match evaluationOf s a, evaluationOf s b with
  | Some ea, Some eb => value eb - value ea
  | _, _ => 0
  end.

(** The loop of [showdown] that collects the winners. *)
Fixpoint collectWinners (s : GameState) (sorted : list nat)
    (ws : list nat) (highestValue : Z) : list nat :=
  match sorted with
  | [] => ws
  | i :: rest =>
      match evaluationOf s i with
      | None => collectWinners s rest ws highestValue
      | Some e =>
          if Nat.eqb (List.length ws) 0 || (value e =? highestValue)
          then collectWinners s rest (ws ++ [i]) (value e)
          else collectWinners s rest ws highestValue
      end
  end.

Definition joinNames (names : list string) : string :=
  String.concat ", " names.

Definition showdown : M unit :=
  (modify (set_stage showdownStage) ;;
   revealAll ;;
   active <- gets activeIndices ;;
   forEach active (fun i =>
     player <- getPlayer i ;;
     s <- get ;;
     e <- liftR (evaluateHand (holeCards player ++ communityCards s)) ;;
     updPlayer i (set_handEvaluation (Some e)) ;;
     pushLog (name player ++ " has " ++ description e)) ;;
   s <- get ;;
   let sorted := jsSort (byHandValue s) active in
   let ws := collectWinners s sorted [] (-1) in
   awardPot ws ;;
   modify (set_winners ws) ;;
   s' <- get ;;
   (match ws with
    | [w] =>
        p <- getPlayer w ;;
        pushLog (name p ++ " wins " ++ showZ (mainPot s') ++ " with "
                 ++ match handEvaluation p with
                    | Some e => description e
                    | None => "undefined"
                    end)
    | _ =>
        pushLog ("Pot split between "
                 ++ joinNames
                      (map (fun w => match nth_error (players s') w with
                                     | Some p => name p
                                     | None => EmptyString
                                     end) ws))
    end) ;;
   modify (set_roundOver true))%M.

(** The [while] loop of [resetBetsForNewStage]; it leaves after at most
    [players.length] turns, and [fuel] is one more than that.  On the
    engine's table of two players the bound is never reached
    ([nextPlayer_run]). *)
Fixpoint skipSettled (fuel : nat) (first : nat) : M unit :=
  match fuel with
  | O => throw OutOfFuel
  | S fuel' =>
      (s <- get ;;
       p <- getPlayer (currentPlayerIndex s) ;;
       if folded p || (chips p =? 0) then
         let next :=
           ((currentPlayerIndex s + 1) mod List.length (players s))%nat in
         modify (set_currentPlayerIndex next) ;;
         if Nat.eqb next first then ret tt else skipSettled fuel' first
       else ret tt)%M
  end.

Definition resetBetsForNewStage : M unit :=
  (modify (set_currentBet 0) ;;
   idxs <- gets playerIndices ;;
   forEach idxs (fun i => updPlayer i (set_bet 0)) ;;
   s <- get ;;
   let first := ((dealerIndex s + 1) mod List.length (players s))%nat in
   modify (set_currentPlayerIndex first) ;;
   skipSettled (S (List.length (players s))) first)%M.

Definition moveToNextStage : M unit :=
  (s <- get ;;
   match stage s with
   | preflop => dealFlop
   | flop => dealTurn
   | turn => dealRiver
   | river => showdown
   | showdownStage => modify (set_roundOver true)
   end ;;
   resetBetsForNewStage)%M.

Definition checkBettingRoundComplete : M unit :=
  (s <- get ;;
   let activePlayers := activeIndices s in
   if Nat.eqb (List.length activePlayers) 1 then endHand (firstn 1 activePlayers)
   else
     let allBetsEqual :=
       forallb
         (fun i =>
            match nth_error (players s) i with
            | Some p => (bet p =? currentBet s) || (chips p =? 0)
            | None => true
            end)
         activePlayers in
     if allBetsEqual then moveToNextStage else ret tt)%M.

(** The [do ... while] loop of [nextPlayer]; it leaves after at most
    [players.length] turns, and [fuel] is one more than that.  On the
    engine's table of two players the bound is never reached
    ([nextPlayer_run]). *)
Fixpoint advancePlayer (fuel : nat) (startingIndex : nat) : M unit :=
  match fuel with
  | O => throw OutOfFuel
  | S fuel' =>
      (s <- get ;;
       let next :=
         ((currentPlayerIndex s + 1) mod List.length (players s))%nat in
       modify (set_currentPlayerIndex next) ;;
       if Nat.eqb next startingIndex then ret tt
       else
         p <- getPlayer next ;;
         if folded p || (chips p =? 0) then advancePlayer fuel' startingIndex
         else ret tt)%M
  end.

Definition nextPlayer : M unit :=
  (s <- get ;;
   advancePlayer (S (List.length (players s))) (currentPlayerIndex s) ;;
   checkBettingRoundComplete)%M.

(** The read of the acting player and the [switch (action)] of
    [playerAction]. *)
Definition actionSwitch (action : PlayerAction) (amount : Z) : M unit :=
  (s <- get ;;
   let idx := currentPlayerIndex s in
   player <- getPlayer idx ;;
   match action with
   | fold =>
       updPlayer idx (set_folded true) ;;
       pushLog (name player ++ " folds")
   | check =>
       if currentBet s >? bet player then throw CannotCheck
       else pushLog (name player ++ " checks")
   | call =>
       let callAmount := Z.min (currentBet s - bet player) (chips player) in
       updPlayer idx
         (fun p => set_bet (bet p + callAmount)
                     (set_chips (chips p - callAmount) p)) ;;
       modify (fun s => set_mainPot (mainPot s + callAmount) s) ;;
       pushLog (name player ++ " calls " ++ showZ callAmount)
   | raise =>
       let amount := if amount <? minBet s then minBet s else amount in
       let totalBet := currentBet s + amount in
       let raiseAmount := Z.min (totalBet - bet player) (chips player) in
       updPlayer idx
         (fun p => set_bet (bet p + raiseAmount)
                     (set_chips (chips p - raiseAmount) p)) ;;
       modify (fun s => set_mainPot (mainPot s + raiseAmount) s) ;;
       modify (set_currentBet (bet player + raiseAmount)) ;;
       pushLog (name player ++ " raises to "
                ++ showZ (bet player + raiseAmount))
   | allin =>
       let allinAmount := chips player in
       updPlayer idx
         (fun p => set_chips 0 (set_bet (bet p + allinAmount) p)) ;;
       modify (fun s => set_mainPot (mainPot s + allinAmount) s) ;;
       (if bet player + allinAmount >? currentBet s
        then modify (set_currentBet (bet player + allinAmount))
        else ret tt) ;;
       pushLog (name player ++ " goes all-in with " ++ showZ allinAmount)
   end)%M.

(** [playerAction]: the switch, then [this.nextPlayer()]. *)
Definition playerAction (action : PlayerAction) (amount : Z) : M unit :=
  (actionSwitch action amount ;; nextPlayer)%M.

(* ================================================================== *)
(** * Notions used to state the properties *)

(** Number of cards of [cards] with rank number [k]. *)
Definition occ (k : Z) (cards : list Card) : nat :=
  List.length (filter (fun c => rk c =? k) cards).

(** [s] picks some of the positions of [l], in the order of [l]. *)
Inductive subseq {A : Type} : list A -> list A -> Prop :=
| subseq_nil : subseq [] []
| subseq_skip x s l : subseq s l -> subseq s (x :: l)
| subseq_take x s l : subseq s l -> subseq (x :: s) (x :: l).

(** What the fold of [countRanks] maintains: distinct keys, and for every
    rank the number of cards seen so far. *)
Definition CountInv (m : RankCounts) (seen : list Card) : Prop :=
  NoDup (map fst m) /\
  forall k, mapGet k m =
            if Nat.eqb (occ k seen) 0 then None else Some (occ k seen).

(** The bounds are stated on [15 * category]: the value of a hand lies in
    the band of its category, and the bands do not meet. *)
Definition inBand (c : Z) (v : Q) : Prop :=
  (inject_Z (15 * c) <= v)%Q /\ (v < inject_Z (15 * c + 15))%Q.


(* ================================================================== *)
(** * Sample hands *)

(** A-2-3-4-5 in mixed suits with a nine and a king. *)
Definition wheelSeven : list Card :=
  [card spades RA; card hearts R2; card diamonds R3; card clubs R4;
   card spades R5; card hearts R9; card diamonds RK].

Definition sixToTen : list Card :=
  [card spades R6; card hearts R7; card diamonds R8; card clubs R9;
   card spades R10].

(** A pair of aces with K-Q-J, and a pair of aces with K-Q-9. *)
Definition acesKQJ : list Card :=
  [card spades RA; card hearts RA; card diamonds RK; card clubs RQ;
   card spades RJ].
Definition acesKQ9 : list Card :=
  [card diamonds RA; card clubs RA; card spades RK; card hearts RQ;
   card diamonds R9].

Definition royalHearts : list Card :=
  [card hearts RA; card hearts RK; card hearts RQ; card hearts RJ;
   card hearts R10].
(** The five-high straight flush A-2-3-4-5 of spades. *)
Definition steelWheel : list Card :=
  [card spades RA; card spades R2; card spades R3; card spades R4;
   card spades R5].

(* ================================================================== *)
(** * Notions used to state the properties of the engine *)

Definition run {A} (m : M A) (s : GameState) : GameState := snd (m s).

Definition chipsOf (s : GameState) (i : nat) : Z :=
  match nth_error (players s) i with Some p => chips p | None => 0 end.
Definition betOf (s : GameState) (i : nat) : Z :=
  match nth_error (players s) i with Some p => bet p | None => 0 end.

Definition sumZ (l : list Z) : Z := fold_right Z.add 0 l.
Definition totalChips (s : GameState) : Z := sumZ (map chips (players s)).
Definition totalBets (s : GameState) : Z := sumZ (map bet (players s)).

(** A table from which a hand can be started: two players, no negative
    stack, a minimum bet that is not negative. *)
Definition tableReady (s : GameState) : Prop :=
  List.length (players s) = 2%nat /\
  Forall (fun p => 0 <= chips p) (players s) /\
  0 <= minBet s.

(** The states of one hand: the state after [startHand], and every state
    left by a call of [playerAction], whether it returned or threw. *)
Inductive handState (s0 : GameState) (js : list nat) : GameState -> Prop :=
| hand_started s :
    startHand js s0 = (Ok tt, s) -> handState s0 js s
| hand_action s a amt r s' :
    handState s0 js s -> playerAction a amt s = (r, s') ->
    handState s0 js s'.

(** Cards left in the deck and on the board at each stage. *)
Definition StageCards (s : GameState) : Prop :=
  match stage s with
  | preflop =>
      List.length (deck s) = 48%nat /\ List.length (communityCards s) = 0%nat
  | flop =>
      List.length (deck s) = 44%nat /\ List.length (communityCards s) = 3%nat
  | turn =>
      List.length (deck s) = 42%nat /\ List.length (communityCards s) = 4%nat
  | river =>
      List.length (deck s) = 40%nat /\ List.length (communityCards s) = 5%nat
  | showdownStage =>
      (40 <= List.length (deck s) <= 48)%nat
  end.

(** The shape every state of a hand has. *)
Record Core (s : GameState) : Prop := mkCore {
  core_players : List.length (players s) = 2%nat;
  core_current : (currentPlayerIndex s < 2)%nat;
  core_dealer : (dealerIndex s < 2)%nat;
  core_holes : Forall (fun p => List.length (holeCards p) = 2%nat) (players s);
  core_cards : StageCards s
}.

Definition foldedOf (s : GameState) (i : nat) : bool :=
  match nth_error (players s) i with Some p => folded p | None => true end.

(** The accounts of a two-player hand that started with [T] chips on the
    table, between the switch of an action and the end of [nextPlayer]: the
    hand is not over, no stack or bet is negative, the bets of the stage
    are part of the pot, the chips of the table are in the stacks and the
    pot, and at least one player has not folded. *)
Record Settling (T : Z) (s : GameState) : Prop := mkSettling {
  settling_round : roundOver s = false;
  settling_stage : stage s <> showdownStage;
  settling_chips : 0 <= chipsOf s 0 /\ 0 <= chipsOf s 1;
  settling_bets : 0 <= betOf s 0 /\ 0 <= betOf s 1;
  settling_active : foldedOf s 0 && foldedOf s 1 = false;
  settling_currentBet : 0 <= currentBet s;
  settling_minBet : 0 <= minBet s;
  settling_pot : betOf s 0 + betOf s 1 <= mainPot s;
  settling_total : chipsOf s 0 + chipsOf s 1 + mainPot s = T
}.

(** The accounts of a hand in progress: as above, and nobody has folded. *)
Definition Live (T : Z) (s : GameState) : Prop :=
  Settling T s /\ foldedOf s 0 = false /\ foldedOf s 1 = false.

(** How a hand ends: the pot of [s] goes to the winners, whole to a single
    winner, and halved between two with the odd chip to seat 0. *)
Definition Paid (s s' : GameState) : Prop :=
  mainPot s' = 0 /\
  ((winners s' = [0%nat] /\
    chipsOf s' 0 = chipsOf s 0 + mainPot s /\ chipsOf s' 1 = chipsOf s 1) \/
   (winners s' = [1%nat] /\
    chipsOf s' 0 = chipsOf s 0 /\ chipsOf s' 1 = chipsOf s 1 + mainPot s) \/
   (winners s' = [0%nat; 1%nat] /\
    chipsOf s' 0 = chipsOf s 0 + mainPot s / 2 + mainPot s mod 2 /\
    chipsOf s' 1 = chipsOf s 1 + mainPot s / 2)).

(** The outcome of [nextPlayer] on the accounts. *)
Definition Settled (T : Z) (s s' : GameState) : Prop :=
  (roundOver s' = false /\ Live T s') \/ (roundOver s' = true /\ Paid s s').

(** The random indices of a shuffle that swaps nothing. *)
Definition noSwaps : list nat := rev (seq 1 51).

(** A new game with the default stacks, and its first hand. *)
Definition game0 : GameState := newGame STARTING_CHIPS STARTING_CHIPS noSwaps.
Definition hand0 : GameState := run (startHand noSwaps) game0.

(** A new game in which the AI holds 7 chips, and its first hand. *)
Definition shortGame : GameState := newGame 1000 7 noSwaps.
Definition shortHand : GameState := run (startHand noSwaps) shortGame.

(** [m], run from any state, leaves a state related to it by [R], whether
    it returns or throws. *)
Definition post {A} (m : M A) (R : GameState -> GameState -> Prop) : Prop :=
  forall s r s', m s = (r, s') -> R s s'.

(** The stage bets and the table's current bet are as they were. *)
Definition betsKept (s s' : GameState) : Prop :=
  map bet (players s') = map bet (players s) /\
  currentBet s' = currentBet s.

(** The stage bets and the table's current bet have been reset to zero. *)
Definition betsCleared (s s' : GameState) : Prop :=
  List.length (players s') = List.length (players s) /\
  Forall (fun p => bet p = 0) (players s') /\
  currentBet s' = 0.

Definition betsKeptOrCleared (s s' : GameState) : Prop :=
  betsKept s s' \/ betsCleared s s'.

(** The writes of a loop [for (i = k; i < k + m; i++) l[i] = f(l[i])]. *)
Fixpoint updRange {A} (k m : nat) (f : A -> A) (l : list A) : list A :=
  match m with
  | O => l
  | S m' => updRange (S k) m' f (updAt k f l)
  end.

(** The first hand of [game0] played by a call and two checks: each of them
    ends a betting round, so that the board is dealt up to the river. *)
Definition flop0 : GameState := run (playerAction call 0) hand0.
Definition turn0 : GameState := run (playerAction check 0) flop0.
Definition river0 : GameState := run (playerAction check 0) turn0.

(** The showdown of that hand, reached by one more check. *)
Definition showdown0 : GameState := run (playerAction check 0) river0.

(** [shortHand] after the AI, with 2 chips left behind its small blind,
    raises by the minimum. *)
Definition shortRaised : GameState := run (playerAction raise 10) shortHand.

From Stdlib Require Import Qround Relations.
(* ================================================================== *)
(** * Further notions for the properties of the evaluator *)

(** The number of ways to pick [k] positions out of [n]. *)
Fixpoint binom (n k : nat) : nat :=
  match k, n with
  | O, _ => 1
  | S _, O => 0
  | S k', S n' => binom n' k' + binom n' k
  end.

(** Ranks from the highest to the lowest, equal ranks allowed. *)
Fixpoint descending (ranks : list Z) : Prop :=
  match ranks with
  | a :: ((b :: _) as tl) => b <= a /\ descending tl
  | _ => True
  end.

(** Two flushes with an ace on top and different kickers. *)
Definition aceFlushHigh : list Card :=
  [card hearts RA; card hearts RK; card hearts R9; card hearts R8;
   card hearts R7].
Definition aceFlushLow : list Card :=
  [card spades RA; card spades R6; card spades R5; card spades R3;
   card spades R2].

(* ================================================================== *)
(** * Further notions for the properties of the deck *)

Definition Rank_eq_dec : forall a b : Rank, {a = b} + {a <> b}.
Proof. decide equality. Defined.

Definition Card_eq_dec : forall a b : Card, {a = b} + {a <> b}.
Proof.
  decide equality.
  - decide equality. apply Bool.bool_dec.
  - apply Rank_eq_dec.
  - apply Suit_eq_dec.
Defined.

(** The suit and rank of a card, without its display flag. *)
Definition Face : Type := (Suit * Rank)%type.
Definition face (c : Card) : Face := (suit c, rank c).

Definition Face_eq_dec : forall a b : Face, {a = b} + {a <> b}.
Proof. decide equality; [apply Rank_eq_dec | apply Suit_eq_dec]. Defined.

(** The cards of a state: hole cards, board and deck. *)
Definition cardsInPlay (s : GameState) : list Card :=
  flat_map holeCards (players s) ++ communityCards s ++ deck s.

(** The total of a weight over a list. *)
Definition weight {A} (w : A -> Z) (l : list A) : Z := sumZ (map w l).

(** [s'] holds no more copies of any card than [s]: whatever non-negative
    weight is given to the cards, the cards of [s'] weigh no more. *)
Definition noGain (s s' : GameState) : Prop :=
  forall w : Face -> Z, (forall x, 0 <= w x) ->
    weight w (map face (cardsInPlay s'))
    <= weight w (map face (cardsInPlay s)).

(* ================================================================== *)
(** * The random source and the AI player

    [getSecureRandom] reads 32 random bits and divides them by 0xFFFFFFFF;
    the bits are a parameter here. *)

Definition getSecureRandom (bits : Z) : Q := inject_Z bits / 4294967295.


Definition getCurrentPlayer : M Player :=
  (s <- get ;; getPlayer (currentPlayerIndex s))%M.

Definition getHighCardValue (c : Card) : Z := rk c.

Definition getHighestPairValue (cards : list Card) : Z :=
  fold_left
    (fun highestPair e =>
       if Nat.eqb (snd e) 2 && (fst e >? highestPair) then fst e
       else highestPair)
    (countRanks cards) 0.

(** [evaluation.cards[0]] handed to [getHighCardValue], which reads its
    rank. *)
Definition firstCard (cards : list Card) : result Card :=
  match cards with
  | c :: _ => Ok c
  | [] => Err TypeError
  end.

(** The [switch (evaluation.rank)] of [calculateAIHandStrength]. *)
Definition rankStrength (evaluation : HandEvaluation) : result Q :=
  let cards := he_cards evaluation in
  match he_rank evaluation with
  | high_card =>
      (c <- firstCard cards ;;
       Ok (0.1 + (inject_Z (getHighCardValue c) / 14) * 0.1)%Q)%res
  | pair => Ok (0.2 + (inject_Z (getPairValue cards) / 14) * 0.1)%Q
  | two_pair => Ok (0.3 + (inject_Z (getHighestPairValue cards) / 14) * 0.1)%Q
  | three_kind => Ok (0.4 + (inject_Z (getThreeKindValue cards) / 14) * 0.1)%Q
  | straight =>
      (c <- firstCard cards ;;
       Ok (0.5 + (inject_Z (getHighCardValue c) / 14) * 0.1)%Q)%res
  | flush =>
      (c <- firstCard cards ;;
       Ok (0.6 + (inject_Z (getHighCardValue c) / 14) * 0.1)%Q)%res
  | full_house => Ok (0.7 + (inject_Z (getThreeKindValue cards) / 14) * 0.1)%Q
  | four_kind => Ok (0.8 + (inject_Z (getFourKindValue cards) / 14) * 0.1)%Q
  | straight_flush =>
      (c <- firstCard cards ;;
       Ok (0.9 + (inject_Z (getHighCardValue c) / 14) * 0.1)%Q)%res
  | royal_flush => Ok 1.0%Q
  end.

(** The result [None] stands for NaN, as in
    [calculatePreflopHandStrength]. *)
Definition calculateAIHandStrength : M (option Q) :=
  (ai <- getCurrentPlayer ;;
   s <- get ;;
   let availableCards := holeCards ai ++ communityCards s in
   match stage s with
   | preflop => ret (calculatePreflopHandStrength (holeCards ai))
   | _ =>
       evaluation <- liftR (evaluateHand availableCards) ;;
       strength <- liftR (rankStrength evaluation) ;;
       ret (Some (match stage s with
                  | flop => strength * 0.85
                  | turn => strength * 0.95
                  | _ => strength
                  end)%Q)
   end)%M.

(** [x > c] on numbers: false when [x] is NaN. *)
Definition numGt (x : option Q) (c : Q) : bool :=
  match x with
  | Some q => Qgtb q c
  | None => false
  end.

(** [Math.floor(this.state.mainPot * k * effectiveStrength)]; it is read
    only after a comparison that is false on NaN, and the value given for
    NaN is never used. *)
Definition raiseOf (pot : Z) (k : Q) (effectiveStrength : option Q) : Z :=
  match effectiveStrength with
  | Some e => Qfloor (inject_Z pot * k * e)
  | None => 0
  end.

(** [aiAction] after its guard on [ai.isAI]; a call of [playerAction]
    without an amount passes 0, which only a raise reads. *)
Definition aiDecision (ai : Player) (bits : Z) : M unit :=
  (handStrength <- calculateAIHandStrength ;;
   s <- get ;;
   let bluffFactor := (getSecureRandom bits * 0.2)%Q in
   let effectiveStrength :=
     option_map (fun h => (h + bluffFactor)%Q) handStrength in
   let callAmount := currentBet s - bet ai in
   let isPreflop := match stage s with preflop => true | _ => false end in
   if chips ai =? 0 then playerAction check 0
   else if callAmount =? 0 then
     if numGt effectiveStrength 0.7 then
       let raiseAmount := raiseOf (mainPot s) 0.5 effectiveStrength in
       playerAction raise (Z.max (minBet s) raiseAmount)
     else if numGt effectiveStrength 0.3 then playerAction raise (minBet s)
     else playerAction check 0
   else
     if numGt effectiveStrength 0.8 then
       let raiseAmount := raiseOf (mainPot s) 0.75 effectiveStrength in
       playerAction raise (Z.max (minBet s) raiseAmount)
     else if numGt effectiveStrength 0.6 then
       let raiseAmount := raiseOf (mainPot s) 0.3 effectiveStrength in
       playerAction raise (Z.max (minBet s) raiseAmount)
     else if numGt effectiveStrength 0.4
             || (isPreflop && numGt effectiveStrength 0.3)
     then playerAction call 0
     else playerAction fold 0)%M.

(** What a call of [aiAction] does: it returns, throws its own error on a
    player who is not the AI, or throws an error of the engine. *)
Inductive AiResult : Type :=
| AiDone
| AiNotAI
| AiThrown (e : Error).

Definition aiAction (bits : Z) (s : GameState) : AiResult * GameState :=
  match getCurrentPlayer s with
  | (Err e, s1) => (AiThrown e, s1)
  | (Ok ai, s1) =>
      if negb (isAI ai) then (AiNotAI, s1)
      else
        match aiDecision ai bits s1 with
        | (Ok _, s2) => (AiDone, s2)
        | (Err e, s2) => (AiThrown e, s2)
        end
  end.

(** A new game in which the AI holds 5 chips, and its first hand. *)
Definition brokeGame : GameState := newGame 1000 5 noSwaps.
Definition brokeHand : GameState := run (startHand noSwaps) brokeGame.

(* ================================================================== *)
(** * The chips on the screen

    The chip types with their value and colour; the border and text
    colours are left out.  Amounts are whole numbers of chips, as the
    engine's are. *)

Record ChipType : Type := mkChip {
  chipValue : Z;
  color : string
}.

Definition CHIP_TYPES : list ChipType :=
  [ mkChip 1 "bg-red-600";
    mkChip 5 "bg-blue-600";
    mkChip 25 "bg-green-600";
    mkChip 100 "bg-black";
    mkChip 500 "bg-purple-600" ].

(** [CHIP_TYPES.reduce((prev, curr) => ..., CHIP_TYPES[0])] of
    [PokerChip]. *)
Definition chipType (v : Z) : ChipType :=
  fold_left
    (fun prev curr =>
       if Z.abs (chipValue curr - v) <? Z.abs (chipValue prev - v)
       then curr else prev)
    CHIP_TYPES (mkChip 1 "bg-red-600").

Definition sortedChipValues : list Z :=
  map chipValue (jsSort (fun a b => chipValue b - chipValue a) CHIP_TYPES).

(** [while (remaining >= chipValue) { chips.push(chipValue);
    remaining -= chipValue; }] *)
Fixpoint whileChips (fuel : nat) (v : Z) (chips : list Z) (remaining : Z)
  : result (list Z * Z) :=
  match fuel with
  | O => Err OutOfFuel
  | S fuel' =>
      if remaining >=? v
      then whileChips fuel' v (chips ++ [v]) (remaining - v)
      else Ok (chips, remaining)
  end.

(** [for (const chipValue of sortedChipValues)]; a chip is worth one or
    more, so that the loop for it runs at most [remaining] times. *)
Fixpoint forChips (values : list Z) (chips : list Z) (remaining : Z)
  : result (list Z * Z) :=
  match values with
  | [] => Ok (chips, remaining)
  | v :: vs =>
      match whileChips (S (Z.to_nat remaining)) v chips remaining with
      | Ok (chips', remaining') => forChips vs chips' remaining'
      | Err e => Err e
      end
  end.

(** The array [chips] of [ChipStack]. *)
Definition stackChips (amount : Z) : result (list Z) :=
  match forChips sortedChipValues [] amount with
  | Ok (chips, remaining) =>
      Ok (if remaining >? 0 then chips ++ [last sortedChipValues 0]
          else chips)
  | Err e => Err e
  end.

(** [ChipStack]: nothing for an amount of zero or less, and otherwise the
    chips shown, five at most, and the number of those left out. *)
Definition ChipStack (amount : Z) : result (option (list Z * nat)) :=
  if amount <=? 0 then Ok None
  else
    match stackChips amount with
    | Ok chips =>
        let displayChips := firstn 5 chips in
        let extraChipsCount :=
          (List.length chips - List.length displayChips)%nat in
        Ok (Some (displayChips, extraChipsCount))
    | Err e => Err e
    end.

(* ================================================================== *)
(** * Further notions for the properties of the engine *)

(** What no action touches: who sits where, the faces of the hole cards,
    the button, the minimum bet and the side pots; the board only gets
    cards at its end, the deck only loses cards from its end, and the log
    only gets lines at its end. *)
Definition seatOf (p : Player) : string * string * bool * list Face :=
  (pid p, name p, isAI p, map face (holeCards p)).

Definition tableKept (s s' : GameState) : Prop :=
  map seatOf (players s') = map seatOf (players s) /\
  dealerIndex s' = dealerIndex s /\
  minBet s' = minBet s /\
  pots s' = pots s /\
  (exists l, communityCards s' = communityCards s ++ l) /\
  (exists l, deck s = deck s' ++ l) /\
  (exists l, log s' = log s ++ l).

(** A hand is played from the table [t] to its end [s']: it is started on
    [t], and an action called while it is not over ends it. *)
Definition handPlayed (t s' : GameState) : Prop :=
  exists js s a amount r,
    validSwaps js = true /\ handState t js s /\
    roundOver s = false /\ playerAction a amount s = (r, s') /\
    roundOver s' = true.

(** The tables that a series of hands leaves, each hand started on the
    table the hand before has left when it ended. *)
Definition tableAfter : GameState -> GameState -> Prop :=
  clos_refl_trans_n1 GameState handPlayed.

(* ================================================================== *)
(** * Sorting *)

Section SortFacts.
Context {A : Type} (cmp : A -> A -> Z).

Lemma insertSorted_perm (x : A) (l : list A) :
    Permutation (insertSorted cmp x l) (x :: l).
  Proof.
    induction l as [|y ys IH]; cbn [insertSorted].
    - apply Permutation_refl.
    - destruct (cmp x y <=? 0).
      + apply Permutation_refl.
      + eapply perm_trans; [apply perm_skip, IH | apply perm_swap].
  Qed.

Lemma jsSort_perm (l : list A) : Permutation (jsSort cmp l) l.
  Proof.
    induction l as [|x xs IH]; cbn [jsSort fold_right].
    - constructor.
    - eapply perm_trans; [apply insertSorted_perm | apply perm_skip, IH].
  Qed.

Lemma jsSort_length (l : list A) :
    List.length (jsSort cmp l) = List.length l.
  Proof. apply Permutation_length, jsSort_perm. Qed.

Lemma jsSort_In (x : A) (l : list A) : In x (jsSort cmp l) <-> In x l.
  Proof.
    split; apply Permutation_in;
      [apply jsSort_perm | apply Permutation_sym, jsSort_perm].
  Qed.
End SortFacts.

Lemma sortByRankDesc_length (l : list Card) :
  List.length (sortByRankDesc l) = List.length l.
Proof. apply jsSort_length. Qed.

Lemma sortByRankDesc_perm (l : list Card) : Permutation (sortByRankDesc l) l.
Proof. apply jsSort_perm. Qed.

(* ================================================================== *)
(** * Rank counts *)

Lemma rk_bounds (c : Card) : 2 <= rk c <= 14.
Proof. unfold rk; destruct (rank c); cbn; lia. Qed.

Lemma occ_cons (k : Z) (c : Card) (l : list Card) :
  occ k (c :: l) = ((if (rk c =? k)%Z then 1 else 0) + occ k l)%nat.
Proof. unfold occ; cbn [filter]; destruct (rk c =? k); reflexivity. Qed.

Lemma occ_app (k : Z) (l1 l2 : list Card) :
  occ k (l1 ++ l2) = (occ k l1 + occ k l2)%nat.
Proof. unfold occ; rewrite filter_app, length_app; reflexivity. Qed.

Lemma occ_pos_In (k : Z) (l : list Card) :
  (0 < occ k l)%nat -> exists c, In c l /\ rk c = k.
Proof.
  unfold occ; intros H.
  destruct (filter (fun c => rk c =? k) l) as [|c r] eqn:E; [cbn in H; lia|].
  assert (Hin : In c (filter (fun c => rk c =? k) l)) by (rewrite E; left; auto).
  apply filter_In in Hin; destruct Hin as [Hin Hk].
  exists c; split; [assumption | apply Z.eqb_eq, Hk].
Qed.

Lemma filter_not_rank_length (k : Z) (l : list Card) :
  (List.length (filter (fun c => negb (rk c =? k)%Z) l) + occ k l
   = List.length l)%nat.
Proof.
  unfold occ; induction l as [|c l IH]; cbn [filter List.length]; [reflexivity|].
  destruct (rk c =? k); cbn [negb List.length]; lia.
Qed.

Lemma mapGet_mapSet (k k' : Z) (v : nat) (m : RankCounts) :
  mapGet k' (mapSet k v m) = if k' =? k then Some v else mapGet k' m.
Proof.
  induction m as [|[k0 v0] m IH]; cbn [mapSet mapGet].
  - destruct (k' =? k); reflexivity.
  - destruct (k =? k0) eqn:E; cbn [mapGet].
    + apply Z.eqb_eq in E; subst k0. destruct (k' =? k); reflexivity.
    + rewrite IH. destruct (k' =? k0) eqn:E0; [|reflexivity].
      apply Z.eqb_eq in E0; subst k0.
      destruct (k' =? k) eqn:E1; [|reflexivity].
      apply Z.eqb_eq in E1; subst k'. rewrite Z.eqb_refl in E; discriminate.
Qed.

Lemma mapSet_keys (k k' : Z) (v : nat) (m : RankCounts) :
  In k' (map fst (mapSet k v m)) <-> k' = k \/ In k' (map fst m).
Proof.
  induction m as [|[k0 v0] m IH]; cbn [mapSet map fst In].
  - intuition.
  - destruct (k =? k0) eqn:E; cbn [map fst In].
    + apply Z.eqb_eq in E; subst k0. intuition.
    + rewrite IH. intuition.
Qed.

Lemma mapSet_NoDup (k : Z) (v : nat) (m : RankCounts) :
  NoDup (map fst m) -> NoDup (map fst (mapSet k v m)).
Proof.
  induction m as [|[k0 v0] m IH]; cbn [mapSet map fst]; intros H.
  - constructor; [intros [] | constructor].
  - inversion H as [|? ? Hn Hd]; subst.
    destruct (k =? k0) eqn:E; cbn [map fst].
    + apply Z.eqb_eq in E; subst k0. constructor; assumption.
    + constructor; [|apply IH, Hd].
      rewrite mapSet_keys. intros [->|Hin]; [|contradiction].
      rewrite Z.eqb_refl in E; discriminate.
Qed.

Lemma In_mapGet (k : Z) (n : nat) (m : RankCounts) :
  NoDup (map fst m) -> In (k, n) m -> mapGet k m = Some n.
Proof.
  induction m as [|[k0 v0] m IH]; cbn [map fst In mapGet]; intros Hd Hin.
  - contradiction.
  - inversion Hd as [|? ? Hn Hd']; subst.
    destruct Hin as [Heq|Hin].
    + injection Heq as -> ->. rewrite Z.eqb_refl; reflexivity.
    + destruct (k =? k0) eqn:E; [|apply IH; assumption].
      apply Z.eqb_eq in E; subst k0. exfalso; apply Hn.
      change k with (fst (k, n)). apply in_map, Hin.
Qed.

Lemma occ_snoc (k : Z) (seen : list Card) (c : Card) :
  occ k (seen ++ [c]) = (occ k seen + (if (rk c =? k)%Z then 1 else 0))%nat.
Proof.
  rewrite occ_app, occ_cons. change (occ k []) with 0%nat.
  destruct (rk c =? k); lia.
Qed.

Lemma CountInv_step (m : RankCounts) (seen : list Card) (c : Card) :
  CountInv m seen ->
  CountInv
    (mapSet (rk c)
       (match mapGet (rk c) m with Some n => n | None => 0%nat end + 1)%nat m)
    (seen ++ [c]).
Proof.
  intros [Hd Hg]; split; [apply mapSet_NoDup, Hd|].
  intros k. rewrite mapGet_mapSet, occ_snoc.
  rewrite (Z.eqb_sym k (rk c)).
  destruct (rk c =? k) eqn:E.
  - apply Z.eqb_eq in E; subst k. rewrite Hg.
    replace (Nat.eqb (occ (rk c) seen + 1) 0) with false
      by (symmetry; apply Nat.eqb_neq; lia).
    destruct (Nat.eqb (occ (rk c) seen) 0) eqn:E0.
    + apply Nat.eqb_eq in E0; rewrite E0; reflexivity.
    + reflexivity.
  - rewrite Hg, Nat.add_0_r; reflexivity.
Qed.

Lemma countRanks_inv (l : list Card) : CountInv (countRanks l) l.
Proof.
  unfold countRanks.
  assert (G : forall l m seen, CountInv m seen ->
             CountInv
               (fold_left
                  (fun counts c =>
                     mapSet (rk c)
                       (match mapGet (rk c) counts with
                        | Some n => n | None => 0%nat end + 1)%nat counts)
                  l m)
               (seen ++ l)).
  { clear l; induction l as [|c l IH]; intros m seen H; cbn [fold_left].
    - rewrite app_nil_r; exact H.
    - replace (seen ++ c :: l) with ((seen ++ [c]) ++ l)
        by (rewrite <- app_assoc; reflexivity).
      apply IH, CountInv_step, H. }
  apply (G l [] []). split; [constructor|]. intros k; reflexivity.
Qed.

Lemma countRanks_In (k : Z) (n : nat) (l : list Card) :
  In (k, n) (countRanks l) -> n = occ k l /\ (0 < n)%nat.
Proof.
  intros Hin. destruct (countRanks_inv l) as [Hd Hg].
  pose proof (In_mapGet k n _ Hd Hin) as E. rewrite Hg in E.
  destruct (Nat.eqb (occ k l) 0) eqn:E0; [discriminate|].
  injection E as <-. apply Nat.eqb_neq in E0. split; [reflexivity | lia].
Qed.

Lemma includes_find (n : nat) (m : RankCounts) :
  includesNat n (mapValues m) = true ->
  exists k, find (fun e => Nat.eqb (snd e) n) m = Some (k, n) /\ In (k, n) m.
Proof.
  unfold includesNat, mapValues; intros H.
  apply existsb_exists in H. destruct H as [v [Hin Hv]].
  apply Nat.eqb_eq in Hv; subst v.
  apply in_map_iff in Hin. destruct Hin as [[k0 v0] [Hs Hin]].
  cbn in Hs; subst v0.
  destruct (find (fun e => Nat.eqb (snd e) n) m) as [[k1 v1]|] eqn:F.
  - apply find_some in F. destruct F as [Hin1 Hv1]. cbn in Hv1.
    apply Nat.eqb_eq in Hv1; subst v1. exists k1; split; auto.
  - exfalso. apply (find_none _ _ F) in Hin. cbn in Hin.
    rewrite Nat.eqb_refl in Hin; discriminate.
Qed.

Lemma rankWithCount_found (n : nat) (l : list Card) :
  includesNat n (mapValues (countRanks l)) = true ->
  occ (rankWithCount n l) l = n /\ (0 < n)%nat.
Proof.
  intros H. apply includes_find in H. destruct H as [k [F Hin]].
  unfold rankWithCount. rewrite F. cbn [fst].
  apply countRanks_In in Hin. destruct Hin as [-> Hpos]. auto.
Qed.

Lemma rankWithCount_bounds (n : nat) (l : list Card) :
  0 <= rankWithCount n l <= 14.
Proof.
  unfold rankWithCount.
  destruct (find (fun e => Nat.eqb (snd e) n) (countRanks l)) as [[k v]|] eqn:F;
    [|lia].
  apply find_some in F. destruct F as [Hin _].
  apply countRanks_In in Hin. destruct Hin as [-> Hpos].
  apply occ_pos_In in Hpos. destruct Hpos as [c [_ <-]].
  cbn [fst]. pose proof (rk_bounds c). lia.
Qed.

Lemma kickers_length (n : nat) (l : list Card) :
  includesNat n (mapValues (countRanks l)) = true ->
  (List.length
     (sortByRankDesc (filter (fun c => negb (rk c =? rankWithCount n l)%Z) l))
   + n = List.length l)%nat.
Proof.
  intros H. apply rankWithCount_found in H. destruct H as [H _].
  rewrite sortByRankDesc_length.
  pose proof (filter_not_rank_length (rankWithCount n l) l). lia.
Qed.

Lemma filter_snd_length (n : nat) (m : RankCounts) :
  List.length (filter (fun e => Nat.eqb (snd e) n) m)
  = List.length (filter (fun v => Nat.eqb v n) (map snd m)).
Proof.
  induction m as [|[k v] m IH]; cbn [filter map snd]; [reflexivity|].
  destruct (Nat.eqb v n); cbn [List.length]; rewrite IH; reflexivity.
Qed.

Lemma twoPair_values_length (l : list Card) :
  isTwoPair l = true -> List.length (getTwoPairValues l) = 2%nat.
Proof.
  unfold isTwoPair, getTwoPairValues, sortNumsDesc, mapValues. intros H.
  apply Nat.eqb_eq in H.
  rewrite jsSort_length, length_map, filter_snd_length. exact H.
Qed.

Lemma twoPair_values_bounds (l : list Card) (p : Z) :
  In p (getTwoPairValues l) -> 2 <= p <= 14.
Proof.
  unfold getTwoPairValues, sortNumsDesc. rewrite jsSort_In, in_map_iff.
  intros [[k v] [<- Hin]]. apply filter_In in Hin. destruct Hin as [Hin _].
  apply countRanks_In in Hin. destruct Hin as [-> Hpos].
  apply occ_pos_In in Hpos. destruct Hpos as [c [_ <-]].
  cbn [fst]. apply rk_bounds.
Qed.

(* ================================================================== *)
(** * Hands of five cards: the checks are total and the value is bounded *)

Lemma injZ_between (a z b : Z) :
  a <= z <= b -> (inject_Z a <= inject_Z z <= inject_Z b)%Q.
Proof. intros [H1 H2]; split; rewrite <- Zle_Qle; assumption. Qed.

Lemma rankAt_ok (l : list Card) (i : nat) :
  (i < List.length l)%nat ->
  exists z, rankAt l i = Ok z /\ 2 <= z <= 14.
Proof.
  intros H. unfold rankAt.
  destruct (nth_error l i) as [c|] eqn:E.
  - exists (rk c); split; [reflexivity | apply rk_bounds].
  - apply nth_error_None in E; lia.
Qed.

Lemma fold_max_bounds (rs : list Z) (r : Z) :
  2 <= r <= 14 -> Forall (fun x => 2 <= x <= 14) rs ->
  2 <= fold_left Z.max rs r <= 14.
Proof.
  revert r; induction rs as [|x rs IH]; intros r Hr Hall; cbn [fold_left].
  - exact Hr.
  - inversion Hall; subst. apply IH; [lia | assumption].
Qed.

Lemma getHighCard_ok (l : list Card) :
  l <> [] -> exists h, getHighCard l = Ok h /\ 2 <= h <= 14.
Proof.
  destruct l as [|c l]; [congruence|]. intros _.
  unfold getHighCard; cbn [map]. eexists; split; [reflexivity|].
  apply fold_max_bounds; [apply rk_bounds|].
  apply Forall_forall. intros x Hx. apply in_map_iff in Hx.
  destruct Hx as [c' [<- _]]. apply rk_bounds.
Qed.

Lemma isStraight_total (l : list Card) :
  List.length l = 5%nat -> exists b, isStraight l = Ok b.
Proof.
  intros H. unfold isStraight.
  pose proof (sortByRankDesc_length l) as Hl. rewrite H in Hl.
  destruct (sortByRankDesc l) as [|a [|b [|c [|d [|e [|f t]]]]]];
    try discriminate Hl.
  unfold rankAt; cbn [nth_error rbind].
  repeat match goal with
         | |- context [if ?c then _ else _] => destruct c; cbn [rbind]
         end; eexists; reflexivity.
Qed.

Ltac qconst :=
  repeat match goal with
         | |- context [inject_Z (15 * ?c + 15)] =>
             let x := eval cbv in (inject_Z (15 * c + 15)) in
             change (inject_Z (15 * c + 15)) with x
         | |- context [inject_Z (15 * ?c)] =>
             let x := eval cbv in (inject_Z (15 * c)) in
             change (inject_Z (15 * c)) with x
         end;
  unfold Qdiv;
  change (/ 100)%Q with (1 # 100)%Q;
  change (/ 10000)%Q with (1 # 10000)%Q;
  change (/ 1000000)%Q with (1 # 1000000)%Q.

Lemma injZ_rank (z : Z) : 2 <= z <= 14 -> (2 <= inject_Z z <= 14)%Q.
Proof. intros H. apply (injZ_between 2 z 14) in H. exact H. Qed.

Lemma injZ_rank0 (z : Z) : 0 <= z <= 14 -> (0 <= inject_Z z <= 14)%Q.
Proof. intros H. apply (injZ_between 0 z 14) in H. exact H. Qed.

Lemma five_card_hand (l : list Card) :
  List.length l = 5%nat ->
  exists v e,
    getHandValue l = Ok v /\ evaluateBest l = Ok e /\
    he_cards e = l /\ value e = rankOrdinal (he_rank e) /\
    inBand (value e) v.
Proof.
  intros H.
  destruct (isStraight_total l H) as [bs Hs].
  destruct l as [|c0 l']; [discriminate H|].
  remember (c0 :: l') as l eqn:El.
  assert (Hr0 : rankAt l 0 = Ok (rk c0)) by (subst l; reflexivity).
  assert (Hn0 : cardNameAt l 0 = Ok (getCardName c0)) by (subst l; reflexivity).
  assert (Hne : l <> []) by (subst l; discriminate).
  pose proof (injZ_rank _ (rk_bounds c0)) as Hc0.
  destruct (getHighCard_ok l Hne) as [h [Hh Hhb]].
  apply injZ_rank in Hhb.
  pose proof (injZ_rank0 _ (rankWithCount_bounds 4 l)) as Hb4.
  pose proof (injZ_rank0 _ (rankWithCount_bounds 3 l)) as Hb3.
  pose proof (injZ_rank0 _ (rankWithCount_bounds 2 l)) as Hb2.
  unfold getHandValue, evaluateBest, isRoyalFlush, isStraightFlush.
  unfold getFourKindValue, getThreeKindValue, getPairValue.
  rewrite Hs, Hr0, Hn0, Hh.
  assert (Hleaf : forall (v : Q) (e : HandEvaluation),
            he_cards e = l -> value e = rankOrdinal (he_rank e) ->
            inBand (value e) v ->
            exists v' e', Ok v = Ok v' /\ Ok e = Ok e' /\ he_cards e' = l /\
                          value e' = rankOrdinal (he_rank e') /\
                          inBand (value e') v').
  { intros v e H1 H2 H3. exists v, e. repeat split; try assumption; apply H3. }
  destruct (isFlush l) eqn:Efl; [destruct bs|]; cbn [rbind].
  - (* straight flush or royal flush *)
    destruct (rk c0 =? 14); cbn [rbind]; apply Hleaf; try reflexivity;
      unfold inBand; cbn [value]; qconst; split; lra.
  - (* flush, or four of a kind / full house in one suit *)
    destruct (isFourOfAKind l) eqn:E4.
    { destruct (find (fun c => negb (rk c =? rankWithCount 4 l)) l) as [k|];
        apply Hleaf; try reflexivity; unfold inBand; cbn [value]; qconst;
        try (pose proof (injZ_rank _ (rk_bounds k))); split; lra. }
    destruct (isFullHouse l) eqn:E32.
    { apply Hleaf; try reflexivity; unfold inBand; cbn [value]; qconst;
        split; lra. }
    cbn [rbind]. apply Hleaf; try reflexivity; unfold inBand; cbn [value];
      qconst; split; lra.
  - (* no flush *)
    destruct (isFourOfAKind l) eqn:E4.
    { destruct (find (fun c => negb (rk c =? rankWithCount 4 l)) l) as [k|];
        apply Hleaf; try reflexivity; unfold inBand; cbn [value]; qconst;
        try (pose proof (injZ_rank _ (rk_bounds k))); split; lra. }
    destruct (isFullHouse l) eqn:E32.
    { apply Hleaf; try reflexivity; unfold inBand; cbn [value]; qconst;
        split; lra. }
    destruct bs; cbn [rbind].
    { apply Hleaf; try reflexivity; unfold inBand; cbn [value]; qconst;
        split; lra. }
    destruct (isThreeOfAKind l) eqn:E3.
    { pose proof (kickers_length 3 l E3) as Hk. rewrite H in Hk.
      destruct (rankAt_ok
                  (sortByRankDesc
                     (filter (fun c => negb (rk c =? rankWithCount 3 l)) l)) 0)
        as [k0 [-> Hk0]]; [lia|].
      destruct (rankAt_ok
                  (sortByRankDesc
                     (filter (fun c => negb (rk c =? rankWithCount 3 l)) l)) 1)
        as [k1 [-> Hk1]]; [lia|].
      apply injZ_rank in Hk0, Hk1. cbn [rbind].
      apply Hleaf; try reflexivity; unfold inBand; cbn [value]; qconst;
        split; lra. }
    destruct (isTwoPair l) eqn:E22.
    { pose proof (twoPair_values_length l E22) as Hlen.
      pose proof (twoPair_values_bounds l) as Hpb.
      destruct (getTwoPairValues l) as [|p0 [|p1 [|p2 t]]]; try discriminate Hlen.
      assert (Hp0 := injZ_rank _ (Hpb p0 (or_introl eq_refl))).
      assert (Hp1 := injZ_rank _ (Hpb p1 (or_intror (or_introl eq_refl)))).
      unfold rankNameAt; cbn [nth_error rbind].
      destruct (find (fun c => negb (rk c =? p0) && negb (rk c =? p1)) l) as [k|];
        apply Hleaf; try reflexivity; unfold inBand; cbn [value]; qconst;
        try (pose proof (injZ_rank _ (rk_bounds k))); split; lra. }
    destruct (isPair l) eqn:E2.
    { pose proof (kickers_length 2 l E2) as Hk. rewrite H in Hk.
      destruct (rankAt_ok
                  (sortByRankDesc
                     (filter (fun c => negb (rk c =? rankWithCount 2 l)) l)) 0)
        as [k0 [-> Hk0]]; [lia|].
      destruct (rankAt_ok
                  (sortByRankDesc
                     (filter (fun c => negb (rk c =? rankWithCount 2 l)) l)) 1)
        as [k1 [-> Hk1]]; [lia|].
      destruct (rankAt_ok
                  (sortByRankDesc
                     (filter (fun c => negb (rk c =? rankWithCount 2 l)) l)) 2)
        as [k2 [-> Hk2]]; [lia|].
      apply injZ_rank in Hk0, Hk1, Hk2. cbn [rbind].
      apply Hleaf; try reflexivity; unfold inBand; cbn [value]; qconst;
        split; lra. }
    cbn [rbind]. apply Hleaf; try reflexivity; unfold inBand; cbn [value];
      qconst; split; lra.
Qed.

(* ================================================================== *)
(** * Combinations and the best five cards *)

Lemma subseq_length {A} (s l : list A) :
  subseq s l -> (List.length s <= List.length l)%nat.
Proof. induction 1; cbn [List.length]; lia. Qed.

Lemma subseq_refl {A} (l : list A) : subseq l l.
Proof. induction l; constructor; assumption. Qed.

Lemma subseq_full {A} (s l : list A) :
  subseq s l -> List.length s = List.length l -> s = l.
Proof.
  induction 1 as [|x s l Hs IH|x s l Hs IH]; cbn [List.length]; intros E.
  - reflexivity.
  - apply subseq_length in Hs. lia.
  - f_equal. apply IH. lia.
Qed.

Lemma subseq_nil_l {A} (l : list A) : subseq [] l.
Proof. induction l; constructor; assumption. Qed.

Lemma combinations_sound {T} (l : list T) :
  forall k c, In c (getCombinations l k) ->
              subseq c l /\ List.length c = k.
Proof.
  induction l as [|x l IH]; intros [|k] c Hin; cbn [getCombinations] in Hin.
  - destruct Hin as [<-|[]]. split; [constructor | reflexivity].
  - contradiction.
  - destruct Hin as [<-|[]]. split; [apply subseq_nil_l | reflexivity].
  - apply in_app_or in Hin. destruct Hin as [Hin|Hin].
    + apply in_map_iff in Hin. destruct Hin as [c' [<- Hin]].
      apply IH in Hin. destruct Hin as [Hs Hl].
      split; [constructor; assumption | cbn [List.length]; lia].
    + apply IH in Hin. destruct Hin as [Hs Hl].
      split; [constructor; assumption | assumption].
Qed.

Lemma combinations_complete {T} (s l : list T) :
  subseq s l -> In s (getCombinations l (List.length s)).
Proof.
  induction 1 as [|x s l Hs IH|x s l Hs IH].
  - left; reflexivity.
  - destruct s as [|y s].
    + left; reflexivity.
    + cbn [List.length getCombinations] in *. apply in_or_app. right. exact IH.
  - cbn [List.length getCombinations]. apply in_or_app. left.
    apply in_map, IH.
Qed.

Lemma combinations_nonempty {T} (l : list T) :
  forall k, (k <= List.length l)%nat -> getCombinations l k <> [].
Proof.
  induction l as [|x l IH]; intros [|k] Hk; cbn [getCombinations List.length] in *;
    try discriminate; try lia.
  intros E. apply app_eq_nil in E. destruct E as [E _].
  apply map_eq_nil in E. revert E. apply IH. lia.
Qed.

Lemma Qgtb_true (a b : Q) : Qgtb a b = true <-> (b < a)%Q.
Proof.
  unfold Qgtb. rewrite negb_true_iff. split; intros H.
  - apply Qnot_le_lt. intros Hle. apply Qle_bool_iff in Hle. congruence.
  - destruct (Qle_bool a b) eqn:E; [|reflexivity].
    apply Qle_bool_iff in E. apply Qle_not_lt in E. contradiction.
Qed.

Lemma Qgtb_false (a b : Q) : Qgtb a b = false <-> (a <= b)%Q.
Proof.
  unfold Qgtb. rewrite negb_false_iff. apply Qle_bool_iff.
Qed.

Lemma bestLoop_spec (combos : list (list Card)) :
  (forall c, In c combos -> List.length c = 5%nat) ->
  forall acc,
  exists acc',
    bestLoop combos acc = Ok acc' /\
    (fst acc <= fst acc')%Q /\
    (forall c, In c combos ->
       exists v, getHandValue (sortByRankDesc c) = Ok v /\ (v <= fst acc')%Q) /\
    (acc' = acc \/
     exists c, In c combos /\ snd acc' = sortByRankDesc c /\
               getHandValue (sortByRankDesc c) = Ok (fst acc')).
Proof.
  induction combos as [|c combos IH]; intros Hlen acc; cbn [bestLoop].
  - exists acc. split; [reflexivity|]. split; [apply Qle_refl|].
    split; [intros c []|left; reflexivity].
  - assert (Hc : List.length (sortByRankDesc c) = 5%nat).
    { rewrite sortByRankDesc_length. apply Hlen; left; reflexivity. }
    destruct (five_card_hand _ Hc) as [v [e [Hv _]]].
    unfold bestStep. rewrite Hv. cbn [rbind].
    destruct (Qgtb v (fst acc)) eqn:G; cbn [rbind].
    + apply Qgtb_true in G.
      destruct (IH (fun c' H => Hlen c' (or_intror H)) (v, sortByRankDesc c))
        as [acc' [Hrun [Hle [Hall Hsel]]]].
      cbn [fst snd] in *.
      exists acc'. split; [exact Hrun|].
      split; [apply Qlt_le_weak; eapply Qlt_le_trans; eassumption|].
      split.
      * intros c' [<-|Hin]; [exists v; split; assumption | apply Hall, Hin].
      * right. destruct Hsel as [->|[c' [Hin [Hs Hg]]]].
        -- exists c. cbn [fst snd]. split; [left; reflexivity|]. split; auto.
        -- exists c'. split; [right; assumption|]. split; assumption.
    + apply Qgtb_false in G.
      destruct (IH (fun c' H => Hlen c' (or_intror H)) acc)
        as [acc' [Hrun [Hle [Hall Hsel]]]].
      exists acc'. split; [exact Hrun|]. split; [exact Hle|].
      split.
      * intros c' [<-|Hin]; [|apply Hall, Hin].
        exists v; split; [assumption | eapply Qle_trans; eassumption].
      * destruct Hsel as [->|[c' [Hin [Hs Hg]]]]; [left; reflexivity|].
        right. exists c'. split; [right; assumption|]. split; assumption.
Qed.

Lemma band_order (c1 c2 : Z) (v1 v2 : Q) :
  inBand c1 v1 -> inBand c2 v2 -> (v1 <= v2)%Q -> c1 <= c2.
Proof.
  intros [L1 U1] [L2 U2] Hle.
  destruct (Z_le_gt_dec c1 c2) as [|Hgt]; [assumption|exfalso].
  assert (H : (inject_Z (15 * c2 + 15) <= inject_Z (15 * c1))%Q)
    by (rewrite <- Zle_Qle; lia).
  apply (Qlt_irrefl v2).
  eapply Qlt_le_trans; [exact U2|].
  eapply Qle_trans; [exact H|].
  eapply Qle_trans; [exact L1 | exact Hle].
Qed.

Lemma band_above_initial (c : Z) (v : Q) : 1 <= c -> inBand c v -> (-1 < v)%Q.
Proof.
  intros Hc [L _].
  eapply Qlt_le_trans; [|exact L].
  change (-1)%Q with (inject_Z (-1)). rewrite <- Zlt_Qlt. lia.
Qed.

Lemma rankOrdinal_bounds (r : HandRank) : 1 <= rankOrdinal r <= 10.
Proof. destruct r; cbn; lia. Qed.

(** [evaluateHand] on five cards or more: it returns, its cards are the
    sorted cards of a combination of five, its [value] is the ordinal of its
    category, and no combination of five evaluates to a larger [value]. *)
Lemma evaluateHand_spec (cards : list Card) :
  (5 <= List.length cards)%nat ->
  exists e c,
    evaluateHand cards = Ok e /\
    subseq c cards /\ List.length c = 5%nat /\
    he_cards e = sortByRankDesc c /\
    value e = rankOrdinal (he_rank e) /\
    forall s, subseq s cards -> List.length s = 5%nat ->
              exists es, evaluateHand s = Ok es /\ value es <= value e.
Proof.
  intros Hlen.
  assert (Hfive : forall s, List.length s = 5%nat ->
            evaluateHand s = evaluateBest (sortByRankDesc s)).
  { intros s Hs. unfold evaluateHand, getBestFiveCardHand. rewrite Hs.
    reflexivity. }
  destruct (Nat.eq_dec (List.length cards) 5) as [E5|N5].
  - assert (Hc : List.length (sortByRankDesc cards) = 5%nat)
      by (rewrite sortByRankDesc_length; exact E5).
    destruct (five_card_hand _ Hc) as [v [e [Hv [He [Hcs [Hval Hband]]]]]].
    exists e, cards. rewrite Hfive by exact E5.
    split; [exact He|]. split; [apply subseq_refl|]. split; [exact E5|].
    split; [exact Hcs|]. split; [exact Hval|].
    intros s Hs Hl. assert (s = cards) by (apply subseq_full; [assumption|lia]).
    subst s. exists e. rewrite Hfive by exact E5. split; [exact He | lia].
  - unfold evaluateHand at 1, getBestFiveCardHand.
    replace (List.length cards <? 5)%nat with false
      by (symmetry; apply Nat.ltb_ge; exact Hlen).
    replace (Nat.eqb (List.length cards) 5) with false
      by (symmetry; apply Nat.eqb_neq; exact N5).
    destruct (bestLoop_spec (getCombinations cards 5)
                (fun c H => proj2 (combinations_sound cards 5 c H))
                ((-1)%Q, []))
      as [acc [Hrun [_ [Hall Hsel]]]].
    rewrite Hrun. cbn [rbind].
    assert (Hex : exists c0, In c0 (getCombinations cards 5)).
    { destruct (getCombinations cards 5) as [|c0 r] eqn:E.
      - exfalso. revert E. apply combinations_nonempty. exact Hlen.
      - exists c0; left; reflexivity. }
    destruct Hex as [c0 Hc0].
    assert (Hpick : exists c, In c (getCombinations cards 5) /\
                      snd acc = sortByRankDesc c /\
                      getHandValue (sortByRankDesc c) = Ok (fst acc)).
    { destruct Hsel as [->|Hsel]; [|exact Hsel]. exfalso.
      destruct (Hall c0 Hc0) as [v0 [Hv0 Hle0]]. cbn [fst] in Hle0.
      assert (L0 : List.length (sortByRankDesc c0) = 5%nat).
      { rewrite sortByRankDesc_length.
        apply (combinations_sound cards 5 c0 Hc0). }
      destruct (five_card_hand _ L0) as [v [e [Hv [_ [_ [Hval Hband]]]]]].
      rewrite Hv0 in Hv. injection Hv as <-.
      pose proof (rankOrdinal_bounds (he_rank e)) as Hb. rewrite <- Hval in Hb.
      apply (band_above_initial _ _ (proj1 Hb)) in Hband.
      apply Qle_not_lt in Hle0. contradiction. }
    destruct Hpick as [c [Hc [Hsnd Hval]]].
    destruct (combinations_sound cards 5 c Hc) as [Hsub Hl5].
    assert (L : List.length (sortByRankDesc c) = 5%nat)
      by (rewrite sortByRankDesc_length; exact Hl5).
    destruct (five_card_hand _ L) as [v [e [Hv [He [Hcs [Hvo Hband]]]]]].
    rewrite Hval in Hv. injection Hv as <-.
    exists e, c. rewrite Hsnd.
    split; [exact He|]. split; [exact Hsub|]. split; [exact Hl5|].
    split; [exact Hcs|]. split; [exact Hvo|].
    intros s Hs Hls.
    assert (Hin : In s (getCombinations cards 5)).
    { rewrite <- Hls. apply combinations_complete, Hs. }
    destruct (Hall s Hin) as [vs [Hvs Hle]].
    assert (Ls : List.length (sortByRankDesc s) = 5%nat)
      by (rewrite sortByRankDesc_length; exact Hls).
    destruct (five_card_hand _ Ls) as [vs' [es [Hvs' [Hes [_ [_ Hbs]]]]]].
    rewrite Hvs in Hvs'. injection Hvs' as <-.
    exists es. rewrite Hfive by exact Hls. split; [exact Hes|].
    eapply band_order; eassumption.
Qed.

(** Whenever [evaluateHand] returns, its [value] is the ordinal of its
    category and nothing else. *)
Lemma evaluateHand_value (cards : list Card) (e : HandEvaluation) :
  evaluateHand cards = Ok e ->
  value e = rankOrdinal (he_rank e) /\ 1 <= value e <= 10.
Proof.
  intros H.
  destruct (Nat.ltb_spec (List.length cards) 5) as [Hlt|Hge].
  - unfold evaluateHand in H.
    replace (List.length cards <? 5)%nat with true in H
      by (symmetry; apply Nat.ltb_lt; exact Hlt).
    discriminate.
  - destruct (evaluateHand_spec cards Hge) as [e' [c [He [_ [_ [_ [Hv _]]]]]]].
    rewrite He in H. injection H as <-.
    split; [exact Hv|]. rewrite Hv. apply rankOrdinal_bounds.
Qed.

(* ================================================================== *)
(** * The hand evaluator: claims *)

(** C1 (the code departs from the claim).  The [value] that [evaluateHand]
    returns, and that [showdown] compares, is the ordinal of the category
    alone: a pair of aces with kickers K-Q-J and a pair of aces with kickers
    K-Q-9 are both pairs, differ in their last kicker, and get the same
    [value] 2.  In the first hand of a new game played to the showdown, a
    flush A-K-9-8-7 and a flush Q-J-9-8-7 both get [value] 6 and the two
    players split the pot.  Whatever the cards, the [value] returned is
    the ordinal of the category. *)
Theorem C1_value_ignores_kickers :
  (forall cards e, evaluateHand cards = Ok e ->
                   value e = rankOrdinal (he_rank e)) /\
  (exists ea eb,
     evaluateHand acesKQJ = Ok ea /\ evaluateHand acesKQ9 = Ok eb /\
     he_rank ea = pair /\ he_rank eb = pair /\
     map rk (he_cards ea) = [14; 14; 13; 12; 11] /\
     map rk (he_cards eb) = [14; 14; 13; 12; 9] /\
     value ea = 2 /\ value eb = 2) /\
  (playerAction check 0 river0 = (Ok tt, showdown0) /\
   map (fun p =>
          option_map (fun e => (he_rank e, map rk (he_cards e), value e))
            (handEvaluation p))
       (players showdown0)
   = [Some (flush, [14; 13; 9; 8; 7], 6); Some (flush, [12; 11; 9; 8; 7], 6)] /\
   winners showdown0 = [0%nat; 1%nat] /\
   map chips (players showdown0) = [1000; 1000]).
Proof.
  split; [intros cards e H; apply (evaluateHand_value cards e H)|].
  split.
  - do 2 eexists. split; [vm_compute; reflexivity|].
    split; [vm_compute; reflexivity|]. cbn. repeat split.
  - split; [vm_compute; reflexivity|].
    split; [vm_compute; reflexivity|].
    split; vm_compute; reflexivity.
Qed.

(** C2 (the code departs from the claim).  A-2-3-4-5 with a nine and a king
    is classified as a straight, but as an ace-high one: its first card is the
    ace, its [value] is 5, the same as that of the straight 6-7-8-9-10, and
    the number [getHandValue] gives it is 89, above the 85 of 6-7-8-9-10. *)
Theorem C2_wheel_valued_ace_high :
  exists e e',
    evaluateHand wheelSeven = Ok e /\ evaluateHand sixToTen = Ok e' /\
    he_rank e = straight /\ he_rank e' = straight /\
    map rk (he_cards e) = [14; 5; 4; 3; 2] /\
    description e = "Straight, Ace of Spades high" /\
    value e = value e' /\
    getHandValue (he_cards e) = Ok (89 # 1)%Q /\
    getHandValue (he_cards e') = Ok (85 # 1)%Q.
Proof.
  do 2 eexists. split; [vm_compute; reflexivity|].
  split; [vm_compute; reflexivity|]. cbn [he_rank he_cards description value].
  repeat split; vm_compute; reflexivity.
Qed.

(** C3 (the code departs from the claim).  The five-high straight flush
    A-2-3-4-5 of spades is classified as a royal flush with [value] 10, so
    the royal flush of hearts, a strictly higher category built from other
    cards, does not get a strictly greater [value]. *)
Theorem C3_steel_wheel_classified_royal :
  exists ea eb,
    evaluateHand royalHearts = Ok ea /\ evaluateHand steelWheel = Ok eb /\
    (forall c, In c royalHearts -> ~ In c steelWheel) /\
    he_rank ea = royal_flush /\ he_rank eb = royal_flush /\
    value ea = 10 /\ value eb = 10 /\ ~ (value ea > value eb).
Proof.
  do 2 eexists. split; [vm_compute; reflexivity|].
  split; [vm_compute; reflexivity|]. cbn [he_rank value].
  split.
  - intros c H1 H2. cbn in H1, H2.
    repeat match goal with
           | H : _ \/ _ |- _ => destruct H
           | H : False |- _ => contradiction
           end; subst; discriminate.
  - repeat split. lia.
Qed.

(** C4.  For seven cards [evaluateHand] returns an evaluation; its cards
    are five cards of the input (a rearrangement of a combination of five),
    and its [value] is at least the [value] [evaluateHand] gives to any
    combination of five cards of the input. *)
Theorem C4_best_of_seven (cards : list Card) :
  List.length cards = 7%nat ->
  exists e,
    evaluateHand cards = Ok e /\
    (exists c, subseq c cards /\ List.length c = 5%nat /\
               Permutation (he_cards e) c) /\
    forall s, subseq s cards -> List.length s = 5%nat ->
              exists es, evaluateHand s = Ok es /\ value es <= value e.
Proof.
  intros H.
  destruct (evaluateHand_spec cards) as [e [c [He [Hs [Hl [Hc [_ Hmax]]]]]]];
    [lia|].
  exists e. split; [exact He|]. split; [|exact Hmax].
  exists c. split; [exact Hs|]. split; [exact Hl|].
  rewrite Hc. apply sortByRankDesc_perm.
Qed.

Lemma C4_best_of_seven_witness :
  exists e,
    evaluateHand wheelSeven = Ok e /\
    (exists c, subseq c wheelSeven /\ List.length c = 5%nat /\
               Permutation (he_cards e) c) /\
    forall s, subseq s wheelSeven -> List.length s = 5%nat ->
              exists es, evaluateHand s = Ok es /\ value es <= value e.
Proof. apply (C4_best_of_seven wheelSeven). reflexivity. Defined.

(** C9.  For two hole cards that are both aces the preflop strength, which
    is computed from the hole cards alone, is 0.5 + ((14 - 2) / 12) * 0.4
    whatever the suits and the display flags, and this number is strictly
    above 0.85. *)
Theorem C9_pair_of_aces_strength (c1 c2 : Card) :
  rank c1 = RA -> rank c2 = RA ->
  calculatePreflopHandStrength [c1; c2]
    = Some (0.5 + ((inject_Z 14 - 2) / 12) * 0.4)%Q /\
  (0.85 < 0.5 + ((inject_Z 14 - 2) / 12) * 0.4)%Q.
Proof.
  intros H1 H2. split; [|reflexivity].
  unfold calculatePreflopHandStrength, rk. cbn [map nth_error].
  rewrite H1, H2. reflexivity.
Qed.

Lemma C9_pair_of_aces_strength_witness :
  calculatePreflopHandStrength [card spades RA; card hearts RA]
    = Some (0.5 + ((inject_Z 14 - 2) / 12) * 0.4)%Q /\
  (0.85 < 0.5 + ((inject_Z 14 - 2) / 12) * 0.4)%Q.
Proof.
  apply (C9_pair_of_aces_strength (card spades RA) (card hearts RA));
    reflexivity.
Defined.

(* ================================================================== *)
(** * The deck *)

Lemma updAt_length {A} (i : nat) (f : A -> A) (l : list A) :
  List.length (updAt i f l) = List.length l.
Proof.
  revert i; induction l as [|x l IH]; intros [|i]; cbn [updAt List.length];
    auto.
Qed.

Lemma swapAt_length (i j : nat) (d : list Card) :
  List.length (swapAt i j d) = List.length d.
Proof.
  unfold swapAt.
  destruct (nth_error d i), (nth_error d j); rewrite ?updAt_length; reflexivity.
Qed.

Lemma shuffleLoop_length (i : nat) :
  forall js d, List.length (shuffleLoop i js d) = List.length d.
Proof.
  induction i as [|i IH]; intros [|j js] d; cbn [shuffleLoop]; auto.
  rewrite IH. apply swapAt_length.
Qed.

Lemma createShuffledDeck_length (js : list nat) :
  List.length (createShuffledDeck js) = 52%nat.
Proof. unfold createShuffledDeck. rewrite shuffleLoop_length. reflexivity. Qed.

Lemma pop_snoc {A} (l : list A) (x : A) : pop (l ++ [x]) = Some (x, l).
Proof.
  unfold pop. rewrite rev_app_distr. cbn [rev app]. rewrite rev_involutive.
  reflexivity.
Qed.

Lemma pop_top {A} (rest top : list A) (c : A) :
  pop (rest ++ rev (c :: top)) = Some (c, rest ++ rev top).
Proof. cbn [rev]. rewrite app_assoc. apply pop_snoc. Qed.

Lemma pop_None {A} (l : list A) : pop l = None <-> l = [].
Proof.
  unfold pop. split.
  - destruct (rev l) eqn:E; [|discriminate]. intros _.
    rewrite <- (rev_involutive l), E. reflexivity.
  - intros ->. reflexivity.
Qed.

(** The last [k] entries of an array, the top entry first. *)
Lemma list_top {A} (k : nat) (l : list A) :
  (k <= List.length l)%nat ->
  exists rest top, l = rest ++ rev top /\ List.length top = k /\
                   (List.length rest + k = List.length l)%nat.
Proof.
  intros H. exists (firstn (List.length l - k) l), (rev (skipn (List.length l - k) l)).
  rewrite rev_involutive, firstn_skipn, length_rev, length_skipn, length_firstn.
  split; [reflexivity|]. split; lia.
Qed.

Lemma drawCard_empty (s : GameState) :
  deck s = [] -> drawCard s = (Err NoCardsLeft, s).
Proof. intros E. unfold drawCard. rewrite E. reflexivity. Qed.

Lemma drawCard_top (s : GameState) (rest top : list Card) (c : Card) :
  deck s = rest ++ rev (c :: top) ->
  drawCard s = (Ok c, set_deck (rest ++ rev top) s).
Proof. intros E. unfold drawCard. rewrite E, pop_top. reflexivity. Qed.

Lemma drawCard_fails_iff (s : GameState) :
  fst (drawCard s) = Err NoCardsLeft <-> deck s = [].
Proof.
  split.
  - unfold drawCard. destruct (pop (deck s)) as [[c r]|] eqn:E.
    + cbn. discriminate.
    + intros _. apply pop_None, E.
  - intros E. rewrite drawCard_empty by exact E. reflexivity.
Qed.

Lemma mod2_cases (n : nat) : (n mod 2 = 0 \/ n mod 2 = 1)%nat.
Proof. pose proof (Nat.mod_upper_bound n 2). lia. Qed.

Lemma sumZ_two (a b : Z) : sumZ [a; b] = a + b.
Proof. cbn. lia. Qed.

(* ================================================================== *)
(** * Running the engine on a table of two players *)

(** Unfolding of the monad, the records and the engine's functions that do
    not loop; [cbn] then runs the loops over the two players. *)
Ltac unf :=
  cbv beta iota zeta delta
    [bind ret get gets modify throw liftR getPlayer updPlayer pushLog
     playerIndices activeIndices evaluationOf byHandValue
     set_chips set_bet set_folded set_holeCards set_handEvaluation
     set_deck set_players set_communityCards set_stage
     set_currentPlayerIndex set_dealerIndex set_pots set_mainPot
     set_currentBet set_winners set_roundOver set_log
     pid name chips bet folded isAI holeCards handEvaluation
     deck players communityCards stage currentPlayerIndex dealerIndex pots
     mainPot minBet currentBet winners roundOver log
     postBlind dealHoleCards drawCard revealAll awardPot endHand dealFlop
     dealTurn dealRiver showdown resetBetsForNewStage moveToNextStage
     checkBettingRoundComplete nextPlayer playerAction actionSwitch startHand
     chipsOf betOf foldedOf totalChips totalBets run fst snd].
Ltac rdn0 :=
  cbn -[pop rev showZ String.append String.concat Z.min Z.add
        Z.sub Z.div Z.rem Z.modulo Z.gtb Z.ltb Z.eqb Z.mul Z.leb evaluateHand
        createShuffledDeck Nat.modulo].
Ltac rdn :=
  cbn -[pop rev showZ String.append String.concat Z.min Z.add
        Z.sub Z.div Z.rem Z.modulo Z.gtb Z.ltb Z.eqb Z.mul Z.leb evaluateHand
        createShuffledDeck].
Ltac exec0 := repeat (progress (unf; rdn0)).
Ltac exec := repeat (progress (unf; rdn)).

Ltac unf_in H :=
  cbv beta iota zeta delta
    [chipsOf betOf foldedOf totalChips totalBets
     pid name chips bet folded isAI holeCards handEvaluation
     deck players communityCards stage currentPlayerIndex dealerIndex pots
     mainPot minBet currentBet winners roundOver log nth_error] in H.

(** [evaluateHand] of five cards or more returns. *)
Ltac evalHand :=
  match goal with
  | |- context [evaluateHand ?l] =>
      let e := fresh "e" in
      let c := fresh "c" in
      let He := fresh "He" in
      destruct (evaluateHand_spec l) as [e [c [He _]]];
      [cbn [List.length app]; lia | rewrite He]
  end.

Ltac branch :=
  match goal with
  | |- context [if ?c then _ else _] => destruct c eqn:?
  end.

Ltac step := first [ rewrite pop_top | evalHand | branch ]; exec.

Ltac boolZ :=
  repeat match goal with
         | H : (_ >? _) = true |- _ => apply Z.gtb_lt in H
         | H : (_ >? _) = false |- _ =>
             rewrite Z.gtb_ltb in H; apply Z.ltb_ge in H
         | H : (_ =? _) = true |- _ => apply Z.eqb_eq in H
         | H : (_ =? _) = false |- _ => apply Z.eqb_neq in H
         | H : (_ <=? _) = true |- _ => apply Z.leb_le in H
         | H : (_ <=? _) = false |- _ => apply Z.leb_gt in H
         | H : (_ <? _) = true |- _ => apply Z.ltb_lt in H
         | H : (_ <? _) = false |- _ => apply Z.ltb_ge in H
         | H : (_ || _) = false |- _ =>
             apply orb_false_iff in H; destruct H
         | H : (_ && _) = true |- _ =>
             apply andb_true_iff in H; destruct H
         end.

Ltac divlia := Z.to_euclidean_division_equations; lia.

Lemma startHand_run (s0 : GameState) (js : list nat) :
  List.length (players s0) = 2%nat ->
  exists s,
    startHand js s0 = (Ok tt, s) /\
    dealerIndex s = ((dealerIndex s0 + 1) mod 2)%nat /\
    (let d := dealerIndex s in
     let o := ((d + 1) mod 2)%nat in
     betOf s o = Z.min SMALL_BLIND (chipsOf s0 o) /\
     chipsOf s o = chipsOf s0 o - Z.min SMALL_BLIND (chipsOf s0 o) /\
     betOf s d = Z.min BIG_BLIND (chipsOf s0 d) /\
     chipsOf s d = chipsOf s0 d - Z.min BIG_BLIND (chipsOf s0 d) /\
     currentPlayerIndex s = o) /\
    mainPot s = betOf s 0 + betOf s 1 /\
    chipsOf s 0 + chipsOf s 1 + mainPot s = chipsOf s0 0 + chipsOf s0 1 /\
    currentBet s = BIG_BLIND /\ minBet s = minBet s0 /\
    stage s = preflop /\ roundOver s = false /\
    List.length (deck s) = 48%nat /\ communityCards s = [] /\
    List.length (players s) = 2%nat /\
    Forall (fun p => List.length (holeCards p) = 2%nat /\ folded p = false)
      (players s).
Proof.
  intros H. destruct s0 as [dk ps cc st cur d0 pts pot mb cb ws ro lg].
  cbn [players] in H.
  destruct ps as [|p0 [|p1 [|p2 ps]]]; try discriminate H. clear H.
  destruct p0 as [i0 n0 ch0 b0 f0 a0 h0 e0], p1 as [i1 n1 ch1 b1 f1 a1 h1 e1].
  destruct (list_top 4 (createShuffledDeck js)) as [rest [top [E [L Lr]]]];
    [rewrite createShuffledDeck_length; lia|].
  rewrite createShuffledDeck_length in Lr.
  destruct top as [|c1 [|c2 [|c3 [|c4 [|c5 top]]]]]; try discriminate L.
  destruct a0, a1, (mod2_cases (d0 + 1)) as [Ed|Ed];
    (eexists; split;
     [ exec0; rewrite Ed, E; exec; repeat (rewrite pop_top; exec); reflexivity
     | exec0; rewrite ?Ed; exec; repeat split; try lia;
       [ rewrite length_app; cbn [List.length rev]; lia
       | repeat constructor ] ]).
Qed.
(** Leaves of the case analysis of [nextPlayer]. *)
Ltac core_leaf :=
  constructor; exec;
  [ reflexivity | lia | lia | repeat constructor
  | unfold StageCards; exec; rewrite ?length_app; cbn [List.length rev app];
    lia ].

Ltac settled_leaf :=
  let T := fresh "T" in
  let HS := fresh "HS" in
  intros T HS;
  destruct HS as [R St [C0 C1] [B0 B1] F CB MB P Tot];
  unf_in R; unf_in St; unf_in C0; unf_in C1; unf_in B0; unf_in B1;
  unf_in F; unf_in CB; unf_in MB; unf_in P; unf_in Tot;
  cbn in F; boolZ;
  try discriminate; try (exfalso; congruence); subst;
  unfold Settled, Live, Paid;
  first
    [ left; split; [reflexivity|];
      split; [constructor; exec; try reflexivity; try congruence;
              try (split; lia); try lia
             | split; reflexivity ]
    | right; split; [reflexivity|]; exec; split; [reflexivity|];
      first [ left; split; [reflexivity|]; split; divlia
            | right; left; split; [reflexivity|]; split; divlia
            | right; right; split; [reflexivity|]; split; divlia ]
    | exfalso; lia ].

Lemma nextPlayer_run (s : GameState) :
  Core s ->
  exists s',
    nextPlayer s = (Ok tt, s') /\ Core s' /\
    dealerIndex s' = dealerIndex s /\ minBet s' = minBet s /\
    (roundOver s = true -> roundOver s' = true) /\
    forall T, Settling T s -> Settled T s s'.
Proof.
  intros [Hp Hc Hd Hh Hs].
  destruct s as [dk ps cc st cur dl pts pot mb cb ws ro lg].
  cbn [players currentPlayerIndex dealerIndex] in *.
  destruct ps as [|p0 [|p1 [|p2 ps]]]; try discriminate Hp. clear Hp.
  destruct p0 as [i0 n0 ch0 b0 f0 a0 h0 e0], p1 as [i1 n1 ch1 b1 f1 a1 h1 e1].
  inversion Hh as [|? ? Hh0 Hh']; subst. inversion Hh' as [|? ? Hh1 _]; subst.
  clear Hh Hh'. cbn [holeCards] in *.
  destruct h0 as [|x0 [|y0 [|z0 h0]]]; try discriminate Hh0.
  destruct h1 as [|x1 [|y1 [|z1 h1]]]; try discriminate Hh1.
  clear Hh0 Hh1.
  unfold StageCards in Hs. cbn [stage deck communityCards] in Hs.
  assert (Hdeck :
    match st with
    | preflop => exists rest c1 c2 c3 c4,
        dk = rest ++ rev [c1; c2; c3; c4] /\ List.length rest = 44%nat
    | flop => exists rest c1 c2,
        dk = rest ++ rev [c1; c2] /\ List.length rest = 42%nat
    | turn => exists rest c1 c2,
        dk = rest ++ rev [c1; c2] /\ List.length rest = 40%nat
    | _ => True
    end).
  { destruct st; try exact I.
    - destruct (list_top 4 dk) as [rest [top [E [L Lr]]]]; [lia|].
      destruct top as [|c1 [|c2 [|c3 [|c4 [|c5 top]]]]]; try discriminate L.
      exists rest, c1, c2, c3, c4. split; [exact E | lia].
    - destruct (list_top 2 dk) as [rest [top [E [L Lr]]]]; [lia|].
      destruct top as [|c1 [|c2 [|c5 top]]]; try discriminate L.
      exists rest, c1, c2. split; [exact E | lia].
    - destruct (list_top 2 dk) as [rest [top [E [L Lr]]]]; [lia|].
      destruct top as [|c1 [|c2 [|c5 top]]]; try discriminate L.
      exists rest, c1, c2. split; [exact E | lia]. }
  destruct cur as [|[|cur]]; [| |lia];
  (destruct dl as [|[|dl]]; [| |lia]); clear Hc Hd;
  destruct st;
  repeat match goal with
         | H : exists _, _ |- _ => destruct H
         | H : _ /\ _ |- _ => destruct H
         end; subst;
  destruct f0, f1; exec; repeat step.
  all: (eexists; split; [reflexivity|]).
  all: split; [core_leaf|].
  all: split; [reflexivity|]; split; [reflexivity|].
  all: split; [exec; intros; first [assumption | reflexivity]|].
  all: settled_leaf.
Qed.

(* ================================================================== *)
(** * One action *)

(** [check] when a call is owed throws before anything is written. *)
Lemma check_owed (s : GameState) (amount : Z) (p : Player) :
  nth_error (players s) (currentPlayerIndex s) = Some p ->
  bet p < currentBet s ->
  playerAction check amount s = (Err CannotCheck, s).
Proof.
  intros Hp Hlt. unfold playerAction, actionSwitch, bind, get, getPlayer.
  rewrite Hp. replace (currentBet s >? bet p) with true by lia.
  reflexivity.
Qed.

Ltac settling_leaf :=
  let T := fresh "T" in
  let HS := fresh "HS" in
  intros T HS;
  destruct HS as [[R St [C0 C1] [B0 B1] F CB MB P Tot] [F0 F1]];
  unf_in R; unf_in St; unf_in C0; unf_in C1; unf_in B0; unf_in B1;
  unf_in F; unf_in CB; unf_in MB; unf_in P; unf_in Tot; unf_in F0; unf_in F1;
  boolZ; subst;
  constructor; exec; try assumption; try reflexivity; try (split; lia);
  try lia.

Lemma actionSwitch_run (s : GameState) (a : PlayerAction) (amount : Z) :
  Core s ->
  (a = check /\ betOf s (currentPlayerIndex s) < currentBet s /\
   actionSwitch a amount s = (Err CannotCheck, s)) \/
  (~ (a = check /\ betOf s (currentPlayerIndex s) < currentBet s) /\
   exists s1,
     actionSwitch a amount s = (Ok tt, s1) /\ Core s1 /\
     dealerIndex s1 = dealerIndex s /\ minBet s1 = minBet s /\
     roundOver s1 = roundOver s /\
     (forall T, Live T s -> Settling T s1)).
Proof.
  intros [Hp Hc Hd Hh Hs].
  destruct s as [dk ps cc st cur dl pts pot mb cb ws ro lg].
  cbn [players currentPlayerIndex dealerIndex] in *.
  destruct ps as [|p0 [|p1 [|p2 ps]]]; try discriminate Hp. clear Hp.
  destruct p0 as [i0 n0 ch0 b0 f0 a0 h0 e0], p1 as [i1 n1 ch1 b1 f1 a1 h1 e1].
  destruct cur as [|[|cur]]; [| |lia]; destruct a; exec; repeat branch.
  all: first
    [ left; split; [reflexivity|]; split; [lia | reflexivity]
    | right; split; [intros [? ?]; first [discriminate | lia]|];
      eexists; split; [reflexivity|];
      split; [constructor; exec; try assumption; try lia;
               inversion Hh as [|? ? Hh0 Hh']; subst;
               inversion Hh' as [|? ? Hh1 _]; subst;
               repeat constructor; assumption|];
      split; [reflexivity|]; split; [reflexivity|]; split; [reflexivity|];
      settling_leaf ].
Qed.

Lemma playerAction_run (s : GameState) (a : PlayerAction) (amount : Z) :
  Core s ->
  (a = check /\ betOf s (currentPlayerIndex s) < currentBet s /\
   playerAction a amount s = (Err CannotCheck, s)) \/
  (~ (a = check /\ betOf s (currentPlayerIndex s) < currentBet s) /\
   exists s',
     playerAction a amount s = (Ok tt, s') /\ Core s' /\
     dealerIndex s' = dealerIndex s /\ minBet s' = minBet s /\
     (roundOver s = true -> roundOver s' = true) /\
     (forall T, Live T s -> Settled T (run (actionSwitch a amount) s) s')).
Proof.
  intros HC.
  destruct (actionSwitch_run s a amount HC)
    as [[Ha [Hlt Hrun]]|[Hn [s1 [Hrun [HC1 [Hd1 [Hm1 [Hr1 Hset]]]]]]]].
  - left. split; [exact Ha|]. split; [exact Hlt|].
    unfold playerAction, bind. rewrite Hrun. reflexivity.
  - right. split; [exact Hn|].
    destruct (nextPlayer_run s1 HC1) as [s' [Hnext [HC' [Hd' [Hm' [Hr' Hst]]]]]].
    exists s'. unfold playerAction, bind, run. rewrite Hrun. cbn [snd].
    split; [exact Hnext|]. split; [exact HC'|].
    split; [congruence|]. split; [congruence|].
    split; [intros H; apply Hr'; congruence|].
    intros T HL. apply Hst, Hset, HL.
Qed.

Lemma twoPlayers_total (s : GameState) :
  List.length (players s) = 2%nat ->
  totalChips s = chipsOf s 0 + chipsOf s 1.
Proof.
  intros H. unfold totalChips, chipsOf.
  destruct (players s) as [|p0 [|p1 [|p2 ps]]]; try discriminate H.
  cbn. lia.
Qed.

(** The first state of a hand. *)
Lemma startHand_state (s0 : GameState) (js : list nat) :
  tableReady s0 ->
  exists s,
    startHand js s0 = (Ok tt, s) /\ Core s /\ Live (totalChips s0) s /\
    stage s = preflop.
Proof.
  intros [Hp [Hch Hmb]].
  destruct (startHand_run s0 js Hp)
    as [s [Hrun [Hd [Hbl [Hpot [Htot [Hcb [Hmin [Hst [Hro [Hdk [Hcc [Hps Hall]]]]]]]]]]]]].
  exists s. split; [exact Hrun|].
  assert (Hdlt : (dealerIndex s < 2)%nat)
    by (rewrite Hd; apply Nat.mod_upper_bound; lia).
  cbv zeta in Hbl. destruct Hbl as [Hbo [Hco [Hbd [Hcd Hcur]]]].
  assert (Hc0 : 0 <= chipsOf s0 0 /\ 0 <= chipsOf s0 1).
  { unfold chipsOf. destruct (players s0) as [|p0 [|p1 [|p2 ps]]];
      try discriminate Hp.
    inversion Hch as [|? ? H0 H']; subst. inversion H' as [|? ? H1 _]; subst.
    cbn. split; assumption. }
  assert (Hfold : foldedOf s 0 = false /\ foldedOf s 1 = false).
  { unfold foldedOf. destruct (players s) as [|p0 [|p1 [|p2 ps]]];
      try discriminate Hps.
    inversion Hall as [|? ? [_ H0] H']; subst.
    inversion H' as [|? ? [_ H1] _]; subst. cbn. split; assumption. }
  split; [|split; [|exact Hst]].
  - constructor.
    + exact Hps.
    + rewrite Hcur. apply Nat.mod_upper_bound; lia.
    + exact Hdlt.
    + eapply Forall_impl; [|exact Hall]. intros p [H _]; exact H.
    + unfold StageCards. rewrite Hst, Hdk, Hcc. split; reflexivity.
  - rewrite (twoPlayers_total s0 Hp).
    unfold SMALL_BLIND, BIG_BLIND in *.
    destruct Hfold as [F0 F1].
    split; [|split; assumption].
    destruct (dealerIndex s) as [|[|d]]; [| |lia];
      cbn [Nat.add Nat.modulo Nat.divmod fst snd Nat.sub] in *;
      constructor; try assumption; try lia; try congruence;
      try (rewrite F0, F1; reflexivity).
Qed.

(** Every state of a hand has the shape [Core]; while the hand is not over
    its accounts are [Live]. *)
Lemma handState_inv (s0 : GameState) (js : list nat) (s : GameState) :
  tableReady s0 -> handState s0 js s ->
  Core s /\ (roundOver s = false -> Live (totalChips s0) s).
Proof.
  intros Hready H. induction H as [s Hstart | s a amt r s' Hs IH Hact].
  - destruct (startHand_state s0 js Hready) as [s1 [Hrun [HC [HL _]]]].
    rewrite Hrun in Hstart. injection Hstart as <-.
    split; [exact HC | intros _; exact HL].
  - destruct IH as [HC HL].
    destruct (playerAction_run s a amt HC)
      as [[_ [_ Hrun]]|[_ [s'' [Hrun [HC' [_ [_ [Hro Hset]]]]]]]];
      rewrite Hrun in Hact; injection Hact as <- <-.
    + split; assumption.
    + split; [exact HC'|]. intros Hr'.
      destruct (roundOver s) eqn:Er.
      * rewrite Hro in Hr' by reflexivity. discriminate.
      * destruct (Hset _ (HL eq_refl)) as [[_ HL']|[Ht _]];
          [exact HL' | congruence].
Qed.

(* ================================================================== *)
(** * What an action does to the bets, on any state *)

Lemma post_ret {A} (a : A) (R : GameState -> GameState -> Prop) :
  (forall s, R s s) -> post (ret a) R.
Proof. intros H s r s' E. injection E as _ <-. apply H. Qed.

Lemma post_bind {A B} (m : M A) (f : A -> M B)
    (R1 R2 R3 : GameState -> GameState -> Prop) :
  post m R1 -> (forall a, post (f a) R2) ->
  (forall s1 s2, R1 s1 s2 -> R3 s1 s2) ->
  (forall s1 s2 s3, R1 s1 s2 -> R2 s2 s3 -> R3 s1 s3) ->
  post (bind m f) R3.
Proof.
  intros Hm Hf Hthrow Hseq s r s' E. unfold bind in E.
  destruct (m s) as [[a|e] s1] eqn:Em.
  - eapply Hseq; [eapply Hm; exact Em | eapply Hf; exact E].
  - injection E as _ <-. eapply Hthrow, Hm, Em.
Qed.

Lemma betsKept_refl (s : GameState) : betsKept s s.
Proof. split; reflexivity. Qed.

Lemma betsKept_trans (s1 s2 s3 : GameState) :
  betsKept s1 s2 -> betsKept s2 s3 -> betsKept s1 s3.
Proof. intros [H1 H2] [H3 H4]. split; congruence. Qed.

Lemma keeps_bind {A B} (m : M A) (f : A -> M B) :
  post m betsKept -> (forall a, post (f a) betsKept) ->
  post (bind m f) betsKept.
Proof.
  intros Hm Hf. eapply post_bind; eauto using betsKept_trans.
Qed.

Lemma keeps_same {A} (m : M A) :
  (forall s, snd (m s) = s) -> post m betsKept.
Proof.
  intros H s r s' E. specialize (H s). rewrite E in H. cbn in H. subst s'.
  apply betsKept_refl.
Qed.

Lemma keeps_getPlayer (i : nat) : post (getPlayer i) betsKept.
Proof.
  apply keeps_same. intros s. unfold getPlayer.
  destruct (nth_error (players s) i); reflexivity.
Qed.

Lemma keeps_modify (f : GameState -> GameState) :
  (forall s, betsKept s (f s)) -> post (modify f) betsKept.
Proof. intros H s r s' E. injection E as _ <-. apply H. Qed.

Lemma map_bet_updAt (i : nat) (f : Player -> Player) (l : list Player) :
  (forall p, bet (f p) = bet p) -> map bet (updAt i f l) = map bet l.
Proof.
  intros H. revert i; induction l as [|p l IH]; intros [|i];
    cbn [updAt map]; rewrite ?H, ?IH; reflexivity.
Qed.

Lemma keeps_updPlayer (i : nat) (f : Player -> Player) :
  (forall p, bet (f p) = bet p) -> post (updPlayer i f) betsKept.
Proof.
  intros H. apply keeps_modify. intros s. split; [|reflexivity].
  cbn [players set_players]. apply map_bet_updAt, H.
Qed.

Lemma keeps_forEach {A} (xs : list A) (body : A -> M unit) :
  (forall x, post (body x) betsKept) -> post (forEach xs body) betsKept.
Proof.
  intros H. induction xs as [|x xs IH]; cbn [forEach].
  - apply post_ret, betsKept_refl.
  - apply keeps_bind; [apply H | intros _; exact IH].
Qed.

Lemma keeps_drawCard : post drawCard betsKept.
Proof.
  intros s r s' E. unfold drawCard in E.
  destruct (pop (deck s)) as [[c d]|]; injection E as _ <-;
    split; reflexivity.
Qed.

Ltac keeps :=
  repeat first
    [ apply keeps_bind; [|intros ?]
    | apply post_ret; apply betsKept_refl
    | apply keeps_getPlayer
    | apply keeps_drawCard
    | apply keeps_same; intros ?; reflexivity
    | apply keeps_modify; intros ?; split; reflexivity
    | apply keeps_updPlayer; intros ?; reflexivity
    | apply keeps_forEach; intros ?
    | match goal with
      | |- post (match ?x with _ => _ end) betsKept => destruct x
      end ].

Lemma keeps_revealAll : post revealAll betsKept.
Proof. unfold revealAll. keeps. Qed.

Lemma keeps_awardPot (ws : list nat) : post (awardPot ws) betsKept.
Proof. unfold awardPot. keeps. Qed.

Lemma keeps_endHand (ws : list nat) : post (endHand ws) betsKept.
Proof.
  unfold endHand. keeps; try apply keeps_awardPot; try apply keeps_revealAll.
Qed.

Lemma keeps_dealFlop : post dealFlop betsKept.
Proof. unfold dealFlop. keeps. Qed.

Lemma keeps_dealTurn : post dealTurn betsKept.
Proof. unfold dealTurn. keeps. Qed.

Lemma keeps_dealRiver : post dealRiver betsKept.
Proof. unfold dealRiver. keeps. Qed.

Lemma keeps_showdown : post showdown betsKept.
Proof.
  unfold showdown, pushLog, liftR.
  keeps; try apply keeps_awardPot; try apply keeps_revealAll.
Qed.

Lemma keeps_advancePlayer (fuel start : nat) :
  post (advancePlayer fuel start) betsKept.
Proof.
  induction fuel as [|fuel IH]; cbn [advancePlayer]; keeps. exact IH.
Qed.

Lemma keeps_skipSettled (fuel first : nat) :
  post (skipSettled fuel first) betsKept.
Proof.
  induction fuel as [|fuel IH]; cbn [skipSettled]; keeps. exact IH.
Qed.

Lemma updAt_app_here {A} (f : A -> A) (l1 : list A) (x : A) (l2 : list A) :
  updAt (List.length l1) f (l1 ++ x :: l2) = l1 ++ f x :: l2.
Proof.
  induction l1 as [|y l1 IH]; cbn [List.length app updAt]; [reflexivity|].
  rewrite IH. reflexivity.
Qed.

Lemma updRange_map {A} (f : A -> A) (l2 : list A) :
  forall l1, updRange (List.length l1) (List.length l2) f (l1 ++ l2)
             = l1 ++ map f l2.
Proof.
  induction l2 as [|x l2 IH]; intros l1; cbn [List.length updRange map].
  - reflexivity.
  - rewrite updAt_app_here.
    replace (l1 ++ f x :: l2) with ((l1 ++ [f x]) ++ l2)
      by (rewrite <- app_assoc; reflexivity).
    replace (S (List.length l1)) with (List.length (l1 ++ [f x]))
      by (rewrite length_app; cbn; lia).
    rewrite IH, <- app_assoc. reflexivity.
Qed.

Lemma set_players_twice (l l' : list Player) (s : GameState) :
  set_players l' (set_players l s) = set_players l' s.
Proof. destruct s; reflexivity. Qed.

Lemma set_players_same (s : GameState) : set_players (players s) s = s.
Proof. destruct s; reflexivity. Qed.

Lemma forEach_updPlayer (f : Player -> Player) (m : nat) :
  forall k s,
    forEach (seq k m) (fun i => updPlayer i f) s
    = (Ok tt, set_players (updRange k m f (players s)) s).
Proof.
  induction m as [|m IH]; intros k s; cbn [seq forEach updRange].
  - unfold ret. rewrite set_players_same. reflexivity.
  - unfold bind, updPlayer, modify. rewrite IH.
    cbn [players set_players]. rewrite set_players_twice. reflexivity.
Qed.

Lemma forEach_all_players (f : Player -> Player) (s : GameState) :
  forEach (playerIndices s) (fun i => updPlayer i f) s
  = (Ok tt, set_players (map f (players s)) s).
Proof.
  unfold playerIndices. rewrite forEach_updPlayer.
  pose proof (updRange_map f (players s) []) as H.
  cbn [List.length app] in H. rewrite H. reflexivity.
Qed.

Lemma zero_bets (l l' : list Player) :
  map bet l' = map bet (map (set_bet 0) l) ->
  List.length l' = List.length l /\ Forall (fun p => bet p = 0) l'.
Proof.
  revert l; induction l' as [|p l' IH]; intros [|q l] E; cbn in E;
    try discriminate.
  - split; [reflexivity | constructor].
  - injection E as E0 E. destruct (IH l E) as [Hl Hall].
    split; [cbn; lia | constructor; assumption].
Qed.

Lemma clears_resetBets : post resetBetsForNewStage betsCleared.
Proof.
  intros s r s' E. unfold resetBetsForNewStage in E.
  unfold bind at 1 in E. unfold modify at 1 in E.
  unfold bind at 1 in E. unfold gets at 1 in E.
  unfold bind at 1 in E. rewrite forEach_all_players in E.
  assert (K : post
            (s0 <- get ;;
             (let first :=
                ((dealerIndex s0 + 1) mod List.length (players s0))%nat in
              modify (set_currentPlayerIndex first) ;;
              skipSettled (S (List.length (players s0))) first))%M betsKept).
  { keeps. apply keeps_skipSettled. }
  apply K in E. destruct E as [Hb Hc].
  cbn [players set_players set_currentBet currentBet] in Hb, Hc.
  apply zero_bets in Hb. destruct Hb as [Hl Hall].
  split; [exact Hl|]. split; [exact Hall | exact Hc].
Qed.

Lemma kept_then_cleared (s1 s2 s3 : GameState) :
  betsKept s1 s2 -> betsCleared s2 s3 -> betsKeptOrCleared s1 s3.
Proof.
  intros [H1 _] [H3 [H4 H5]]. right.
  split; [|split; assumption].
  rewrite H3, <- (length_map bet (players s2)), H1, length_map. reflexivity.
Qed.

Lemma keptOrCleared_after_kept (s1 s2 s3 : GameState) :
  betsKept s1 s2 -> betsKeptOrCleared s2 s3 -> betsKeptOrCleared s1 s3.
Proof.
  intros H [K|C].
  - left. eapply betsKept_trans; eassumption.
  - eapply kept_then_cleared; eassumption.
Qed.

Lemma bets_moveToNextStage : post moveToNextStage betsKeptOrCleared.
Proof.
  unfold moveToNextStage.
  eapply post_bind with (R1 := betsKept) (R2 := betsKeptOrCleared).
  - keeps.
  - intros s0.
    eapply post_bind with (R1 := betsKept) (R2 := betsCleared).
    + destruct (stage s0);
        [ apply keeps_dealFlop | apply keeps_dealTurn | apply keeps_dealRiver
        | apply keeps_showdown | keeps ].
    + intros _. apply clears_resetBets.
    + intros s1 s2 H. left. exact H.
    + apply kept_then_cleared.
  - intros s1 s2 H. left. exact H.
  - apply keptOrCleared_after_kept.
Qed.

Lemma bets_checkBettingRoundComplete :
  post checkBettingRoundComplete betsKeptOrCleared.
Proof.
  unfold checkBettingRoundComplete.
  eapply post_bind with (R1 := betsKept) (R2 := betsKeptOrCleared).
  - keeps.
  - intros s0.
    destruct (Nat.eqb (List.length (activeIndices s0)) 1).
    + intros s r s' E. left. eapply keeps_endHand, E.
    + match goal with |- post (if ?c then _ else _) _ => destruct c end.
      * apply bets_moveToNextStage.
      * intros s r s' E. left. injection E as _ <-. apply betsKept_refl.
  - intros s1 s2 H. left. exact H.
  - apply keptOrCleared_after_kept.
Qed.

Lemma bets_nextPlayer : post nextPlayer betsKeptOrCleared.
Proof.
  unfold nextPlayer.
  eapply post_bind with (R1 := betsKept) (R2 := betsKeptOrCleared).
  - keeps.
  - intros s0.
    eapply post_bind with (R1 := betsKept) (R2 := betsKeptOrCleared).
    + apply keeps_advancePlayer.
    + intros _. apply bets_checkBettingRoundComplete.
    + intros s1 s2 H. left. exact H.
    + apply keptOrCleared_after_kept.
  - intros s1 s2 H. left. exact H.
  - apply keptOrCleared_after_kept.
Qed.

Lemma nth_error_updAt_same {A} (i : nat) (f : A -> A) (l : list A) (x : A) :
  nth_error l i = Some x -> nth_error (updAt i f l) i = Some (f x).
Proof.
  revert i; induction l as [|y l IH]; intros [|i] H; cbn in *;
    try discriminate.
  - injection H as ->. reflexivity.
  - apply IH, H.
Qed.

(** The switch of a raise leaves the table's current bet equal to the new
    stage bet of the player who raised. *)
Lemma raise_switch (s : GameState) (amount : Z) (p : Player) :
  nth_error (players s) (currentPlayerIndex s) = Some p ->
  exists s1 p1,
    actionSwitch raise amount s = (Ok tt, s1) /\
    nth_error (players s1) (currentPlayerIndex s) = Some p1 /\
    bet p1 = currentBet s1.
Proof.
  intros Hp. unfold actionSwitch, bind, get, getPlayer. rewrite Hp.
  unfold updPlayer, modify, pushLog.
  do 2 eexists. split; [reflexivity|].
  cbn [players set_players set_mainPot set_currentBet set_log currentBet].
  split; [apply nth_error_updAt_same, Hp | reflexivity].
Qed.

Lemma nth_error_map_bet (l l' : list Player) (i : nat) (p : Player) :
  map bet l' = map bet l -> nth_error l i = Some p ->
  exists p', nth_error l' i = Some p' /\ bet p' = bet p.
Proof.
  intros E H.
  assert (H1 : nth_error (map bet l) i = Some (bet p))
    by (rewrite nth_error_map, H; reflexivity).
  rewrite <- E, nth_error_map in H1.
  destruct (nth_error l' i) as [p'|]; [|discriminate].
  exists p'. split; [reflexivity|]. cbn in H1. congruence.
Qed.

Lemma raise_sets_currentBet (s : GameState) (amount : Z) (p : Player)
    (r : result unit) (s' : GameState) :
  nth_error (players s) (currentPlayerIndex s) = Some p ->
  playerAction raise amount s = (r, s') ->
  exists p', nth_error (players s') (currentPlayerIndex s) = Some p' /\
             bet p' = currentBet s'.
Proof.
  intros Hp E.
  destruct (raise_switch s amount p Hp) as [s1 [p1 [Hsw [Hp1 Hb1]]]].
  unfold playerAction, bind in E. rewrite Hsw in E.
  apply bets_nextPlayer in E. destruct E as [[Hb Hc]|[Hl [Hall Hc]]].
  - destruct (nth_error_map_bet _ _ _ _ Hb Hp1) as [p' [Hp' Hbp]].
    exists p'. split; [exact Hp' | congruence].
  - destruct (nth_error (players s') (currentPlayerIndex s)) as [p'|] eqn:E'.
    + exists p'. split; [reflexivity|].
      rewrite Hc. apply nth_error_In in E'.
      rewrite Forall_forall in Hall. apply Hall, E'.
    + apply nth_error_None in E'.
      assert (currentPlayerIndex s < List.length (players s1))%nat
        by (apply nth_error_Some; congruence).
      lia.
Qed.

(* ================================================================== *)
(** * The betting state machine: claims *)

Lemma game0_ready : tableReady game0.
Proof.
  split; [reflexivity|]. split; [|cbv; discriminate].
  repeat constructor; cbv; discriminate.
Qed.

Lemma shortGame_ready : tableReady shortGame.
Proof.
  split; [reflexivity|]. split; [|cbv; discriminate].
  repeat constructor; cbv; discriminate.
Qed.

Lemma hand0_started : handState game0 noSwaps hand0.
Proof. apply hand_started. vm_compute. reflexivity. Qed.

Lemma flop0_reached : handState game0 noSwaps flop0.
Proof.
  eapply (hand_action _ _ hand0 call 0 (Ok tt)); [apply hand0_started|].
  vm_compute. reflexivity.
Qed.

Lemma turn0_reached : handState game0 noSwaps turn0.
Proof.
  eapply (hand_action _ _ flop0 check 0 (Ok tt)); [apply flop0_reached|].
  vm_compute. reflexivity.
Qed.

Lemma river0_reached : handState game0 noSwaps river0.
Proof.
  eapply (hand_action _ _ turn0 check 0 (Ok tt)); [apply turn0_reached|].
  vm_compute. reflexivity.
Qed.

Lemma shortHand_started : handState shortGame noSwaps shortHand.
Proof. apply hand_started. vm_compute. reflexivity. Qed.

(** C5, as the claim states it, fails: in the first hand of a new game the
    dealer is seat 0 and seat 0 has posted the big blind, not the small
    blind, which the other seat has posted. *)
Lemma C5_dealer_posts_big_blind :
  startHand noSwaps game0 = (Ok tt, hand0) /\
  List.length (players hand0) = 2%nat /\
  betOf hand0 (dealerIndex hand0) = BIG_BLIND /\
  betOf hand0 (dealerIndex hand0) <> SMALL_BLIND /\
  betOf hand0 ((dealerIndex hand0 + 1) mod 2) = SMALL_BLIND.
Proof.
  split; [vm_compute; reflexivity|].
  split; [reflexivity|]. split; [reflexivity|].
  split; [vm_compute; discriminate | reflexivity].
Qed.

(** C5, amended.  On a table of two players [startHand] returns; the button
    moves to the next seat; the small blind is posted by the player after
    the dealer, that is the other player, and the big blind by the player
    after that one, that is the dealer; each blind is the smaller of its
    amount and the chips of the player who posts it, and is taken from these
    chips; the first to act is the player after the big blind, that is the
    player who is not the dealer. *)
Theorem C5_blinds_posted (s0 : GameState) (js : list nat) :
  List.length (players s0) = 2%nat -> validSwaps js = true ->
  exists s,
    startHand js s0 = (Ok tt, s) /\
    dealerIndex s = ((dealerIndex s0 + 1) mod 2)%nat /\
    let dealer := dealerIndex s in
    let smallBlindPos := ((dealer + 1) mod 2)%nat in
    let bigBlindPos := ((dealer + 2) mod 2)%nat in
    smallBlindPos <> dealer /\ bigBlindPos = dealer /\
    betOf s smallBlindPos = Z.min SMALL_BLIND (chipsOf s0 smallBlindPos) /\
    chipsOf s smallBlindPos
      = chipsOf s0 smallBlindPos - betOf s smallBlindPos /\
    betOf s bigBlindPos = Z.min BIG_BLIND (chipsOf s0 bigBlindPos) /\
    chipsOf s bigBlindPos = chipsOf s0 bigBlindPos - betOf s bigBlindPos /\
    mainPot s = betOf s smallBlindPos + betOf s bigBlindPos /\
    currentBet s = BIG_BLIND /\
    currentPlayerIndex s = ((bigBlindPos + 1) mod 2)%nat.
Proof.
  intros Hp _.
  destruct (startHand_run s0 js Hp)
    as [s [Hrun [Hd [Hbl [Hpot [_ [Hcb _]]]]]]].
  exists s. split; [exact Hrun|]. split; [exact Hd|].
  cbv zeta in *. destruct Hbl as [Hbo [Hco [Hbd [Hcd Hcur]]]].
  assert (Hlt : (dealerIndex s < 2)%nat)
    by (rewrite Hd; apply Nat.mod_upper_bound; lia).
  destruct (dealerIndex s) as [|[|d]]; [| |lia];
    cbn [Nat.add Nat.modulo Nat.divmod fst snd Nat.sub] in *;
    repeat split; try congruence; try lia.
Qed.

Lemma C5_blinds_posted_witness :
  exists s,
    startHand noSwaps game0 = (Ok tt, s) /\
    dealerIndex s = ((dealerIndex game0 + 1) mod 2)%nat /\
    let dealer := dealerIndex s in
    let smallBlindPos := ((dealer + 1) mod 2)%nat in
    let bigBlindPos := ((dealer + 2) mod 2)%nat in
    smallBlindPos <> dealer /\ bigBlindPos = dealer /\
    betOf s smallBlindPos = Z.min SMALL_BLIND (chipsOf game0 smallBlindPos) /\
    chipsOf s smallBlindPos
      = chipsOf game0 smallBlindPos - betOf s smallBlindPos /\
    betOf s bigBlindPos = Z.min BIG_BLIND (chipsOf game0 bigBlindPos) /\
    chipsOf s bigBlindPos = chipsOf game0 bigBlindPos - betOf s bigBlindPos /\
    mainPot s = betOf s smallBlindPos + betOf s bigBlindPos /\
    currentBet s = BIG_BLIND /\
    currentPlayerIndex s = ((bigBlindPos + 1) mod 2)%nat.
Proof. apply (C5_blinds_posted game0 noSwaps); reflexivity. Defined.

(** C6.  In a hand started on a table of two players with no negative
    stack: while the hand is not over the pot is the chips that have left
    the stacks since the hand began and is not negative; and the action that
    ends the hand returns, leaves the pot empty and the chips of the table in
    the stacks, the pot built by that action having gone either whole to a
    single winner or in two halves to both, the odd chip to seat 0, the
    first winner in seat order. *)
Theorem C6_pot_conservation (s0 : GameState) (js : list nat) :
  tableReady s0 -> validSwaps js = true ->
  (forall s, handState s0 js s -> roundOver s = false ->
     mainPot s = totalChips s0 - totalChips s /\ 0 <= mainPot s) /\
  (forall s a amount r s',
     handState s0 js s -> roundOver s = false ->
     playerAction a amount s = (r, s') -> roundOver s' = true ->
     r = Ok tt /\ mainPot s' = 0 /\ totalChips s' = totalChips s0 /\
     Paid (run (actionSwitch a amount) s) s').
Proof.
  intros Hready _. split.
  - intros s Hs Hro.
    destruct (handState_inv s0 js s Hready Hs) as [HC HL].
    destruct (HL Hro) as [[_ _ _ [B0 B1] _ _ _ P Tot] _].
    rewrite (twoPlayers_total s (core_players s HC)). lia.
  - intros s a amount r s' Hs Hro Hact Hro'.
    destruct (handState_inv s0 js s Hready Hs) as [HC HL].
    specialize (HL Hro).
    destruct (playerAction_run s a amount HC)
      as [[_ [_ Hrun]]|[_ [s'' [Hrun [HC' [_ [_ [_ Hset]]]]]]]];
      rewrite Hrun in Hact; injection Hact as <- <-.
    + congruence.
    + split; [reflexivity|].
      destruct (Hset _ HL) as [[Hf _]|[_ HP]]; [congruence|].
      split; [apply HP|]. split; [|exact HP].
      destruct (actionSwitch_run s a amount HC)
        as [[_ [_ Hsw]]|[_ [s1 [Hsw [HC1 [_ [_ [_ Hs1]]]]]]]].
      * unfold playerAction, bind in Hrun. rewrite Hsw in Hrun. discriminate.
      * unfold run in HP. rewrite Hsw in HP. cbn [snd] in HP.
        destruct (Hs1 _ HL) as [_ _ _ _ _ _ _ P Tot].
        rewrite (twoPlayers_total s'' (core_players s'' HC')).
        destruct HP as [_ [[_ [E0 E1]]|[[_ [E0 E1]]|[_ [E0 E1]]]]];
          rewrite E0, E1; try lia.
        assert (mainPot s1 = 2 * (mainPot s1 / 2) + mainPot s1 mod 2)
          by (apply Z.div_mod; lia).
        lia.
Qed.

Lemma C6_pot_conservation_witness :
  (forall s, handState game0 noSwaps s -> roundOver s = false ->
     mainPot s = totalChips game0 - totalChips s /\ 0 <= mainPot s) /\
  (forall s a amount r s',
     handState game0 noSwaps s -> roundOver s = false ->
     playerAction a amount s = (r, s') -> roundOver s' = true ->
     r = Ok tt /\ mainPot s' = 0 /\ totalChips s' = totalChips game0 /\
     Paid (run (actionSwitch a amount) s) s').
Proof.
  apply (C6_pot_conservation game0 noSwaps); [|reflexivity].
  split; [reflexivity|]. split; [|cbv; discriminate].
  repeat constructor; cbv; discriminate.
Defined.

(** C7.  When the acting player's stage bet is below the table's current
    bet, [check] throws and the state is the one before the call, whatever
    the state; when the two bets are equal, in every state of a hand,
    [check] returns. *)
Theorem C7_check (s : GameState) (amount : Z) (p : Player) :
  nth_error (players s) (currentPlayerIndex s) = Some p ->
  (bet p < currentBet s ->
   playerAction check amount s = (Err CannotCheck, s)) /\
  (bet p = currentBet s ->
   forall s0 js, tableReady s0 -> validSwaps js = true ->
                 handState s0 js s ->
                 exists s', playerAction check amount s = (Ok tt, s')).
Proof.
  intros Hp. split.
  - apply check_owed, Hp.
  - intros Heq s0 js Hready _ Hs.
    destruct (handState_inv s0 js s Hready Hs) as [HC _].
    destruct (playerAction_run s check amount HC)
      as [[_ [Hlt _]]|[_ [s' [Hrun _]]]].
    + unfold betOf in Hlt. rewrite Hp in Hlt. lia.
    + exists s'. exact Hrun.
Qed.

Lemma C7_check_witness :
  playerAction check 0 hand0 = (Err CannotCheck, hand0) /\
  exists s', playerAction check 0 flop0 = (Ok tt, s').
Proof.
  split.
  - eapply (fun p H => proj1 (C7_check hand0 0 p H)).
    + vm_compute. reflexivity.
    + cbv. reflexivity.
  - eapply (fun p H => proj2 (C7_check flop0 0 p H)) with (s0 := game0)
                                                          (js := noSwaps).
    + vm_compute. reflexivity.
    + cbv. reflexivity.
    + split; [reflexivity|]. split; [|cbv; discriminate].
      repeat constructor; cbv; discriminate.
    + reflexivity.
    + eapply (hand_action _ _ hand0 call 0 (Ok tt)).
      * apply hand_started. vm_compute. reflexivity.
      * vm_compute. reflexivity.
Defined.

(** C8, as the claim states it, fails on the number of cards: in the first
    hand of a new game, after a call and two checks, the hand is on the river
    and twelve cards have left the deck of 52, one more than eleven. *)
Lemma C8_twelve_cards_drawn :
  handState game0 noSwaps river0 /\ stage river0 = river /\
  roundOver river0 = false /\
  List.length (createShuffledDeck noSwaps) = 52%nat /\
  List.length (deck river0) = 40%nat /\
  ~ (52 - List.length (deck river0) <= 11)%nat.
Proof.
  split; [apply river0_reached|].
  split; [vm_compute; reflexivity|]. split; [vm_compute; reflexivity|].
  split; [apply createShuffledDeck_length|].
  assert (E : List.length (deck river0) = 40%nat) by (vm_compute; reflexivity).
  split; [exact E | rewrite E; lia].
Qed.

(** C8, amended.  [drawCard] throws the deck error exactly when the deck is
    empty.  In a hand started on a table of two players the deck is shuffled
    from 52 cards, [startHand] returns, every state of the hand has between 40
    and 48 cards left in the deck, that is at most 2 x 2 + 5 + 3 burns = 12
    cards drawn, and no action throws the deck error. *)
Theorem C8_deck_never_exhausted (s0 : GameState) (js : list nat) :
  tableReady s0 -> validSwaps js = true ->
  (forall s, fst (drawCard s) = Err NoCardsLeft <-> deck s = []) /\
  List.length (createShuffledDeck js) = 52%nat /\
  (exists s, startHand js s0 = (Ok tt, s)) /\
  (forall s, handState s0 js s ->
     (40 <= List.length (deck s) <= 48)%nat /\
     (52 - List.length (deck s) <= 2 * 2 + 5 + 3)%nat /\
     forall a amount r s',
       playerAction a amount s = (r, s') -> r <> Err NoCardsLeft).
Proof.
  intros Hready _.
  split; [apply drawCard_fails_iff|].
  split; [apply createShuffledDeck_length|].
  split.
  - destruct (startHand_state s0 js Hready) as [s [Hrun _]].
    exists s. exact Hrun.
  - intros s Hs.
    destruct (handState_inv s0 js s Hready Hs) as [HC _].
    assert (Hdk : (40 <= List.length (deck s) <= 48)%nat).
    { pose proof (core_cards s HC) as H. unfold StageCards in H.
      destruct (stage s); lia. }
    split; [exact Hdk|]. split; [lia|].
    intros a amount r s' Hact.
    destruct (playerAction_run s a amount HC)
      as [[_ [_ Hrun]]|[_ [s'' [Hrun _]]]];
      rewrite Hrun in Hact; injection Hact as <- _; discriminate.
Qed.

Lemma C8_deck_never_exhausted_witness :
  (forall s, fst (drawCard s) = Err NoCardsLeft <-> deck s = []) /\
  List.length (createShuffledDeck noSwaps) = 52%nat /\
  (exists s, startHand noSwaps game0 = (Ok tt, s)) /\
  (forall s, handState game0 noSwaps s ->
     (40 <= List.length (deck s) <= 48)%nat /\
     (52 - List.length (deck s) <= 2 * 2 + 5 + 3)%nat /\
     forall a amount r s',
       playerAction a amount s = (r, s') -> r <> Err NoCardsLeft).
Proof.
  apply (C8_deck_never_exhausted game0 noSwaps); [|reflexivity].
  split; [reflexivity|]. split; [|cbv; discriminate].
  repeat constructor; cbv; discriminate.
Defined.

(** C10.  After a raise by the acting player, whether [playerAction]
    returned or threw, the table's current bet is the stage bet of the
    player who raised.  It can be below what it was, and below the stage bet
    the other player has posted: with 2 chips behind a small blind of 5
    against a big blind of 10, a minimum raise makes the current bet 7. *)
Theorem C10_raise_sets_current_bet :
  (forall s amount p r s',
     nth_error (players s) (currentPlayerIndex s) = Some p ->
     playerAction raise amount s = (r, s') ->
     exists p', nth_error (players s') (currentPlayerIndex s) = Some p' /\
                currentBet s' = bet p') /\
  (handState shortGame noSwaps shortHand /\
   playerAction raise 10 shortHand = (Ok tt, shortRaised) /\
   currentPlayerIndex shortHand = 1%nat /\
   chipsOf shortHand 1 = 2 /\ chipsOf shortRaised 1 = 0 /\
   currentBet shortHand = 10 /\ currentBet shortRaised = 7 /\
   betOf shortRaised 1 = 7 /\ betOf shortRaised 0 = 10 /\
   stage shortRaised = preflop).
Proof.
  split.
  - intros s amount p r s' Hp Hact.
    destruct (raise_sets_currentBet s amount p r s' Hp Hact) as [p' [H1 H2]].
    exists p'. split; [exact H1 | congruence].
  - split; [apply shortHand_started|].
    split; [vm_compute; reflexivity|].
    repeat split; vm_compute; reflexivity.
Qed.

Lemma C10_raise_sets_current_bet_witness :
  exists p', nth_error (players shortRaised) (currentPlayerIndex shortHand)
             = Some p' /\
             currentBet shortRaised = bet p'.
Proof.
  eapply (fun p H => proj1 C10_raise_sets_current_bet shortHand 10 p (Ok tt)
                       shortRaised H).
  - vm_compute. reflexivity.
  - vm_compute. reflexivity.
Defined.

(* ================================================================== *)
(** * Further properties of the hand evaluator *)

Lemma combinations_length {T} (l : list T) :
  forall k, List.length (getCombinations l k) = binom (List.length l) k.
Proof.
  induction l as [|x l IH]; intros [|k]; cbn [getCombinations binom List.length];
    try reflexivity.
  rewrite length_app, length_map, !IH. reflexivity.
Qed.

(** X1.  [getCombinations array k] lists exactly the ways to keep [k]
    entries of [array] in their order, one entry per choice of positions:
    its length is the binomial coefficient, 21 for 5 out of 7; for [k = 0]
    it is the single empty combination, and it is empty when [k] exceeds
    the length of the array. *)
Theorem X1_combinations {T : Type} (array : list T) (k : nat) :
  (forall c, In c (getCombinations array k)
             <-> subseq c array /\ List.length c = k) /\
  List.length (getCombinations array k) = binom (List.length array) k /\
  getCombinations array 0 = [[]] /\
  ((List.length array < k)%nat -> getCombinations array k = []) /\
  binom 7 5 = 21%nat.
Proof.
  split.
  { intros c. split.
    - apply combinations_sound.
    - intros [Hs <-]. apply combinations_complete, Hs. }
  split; [apply combinations_length|].
  split; [destruct array; reflexivity|].
  split; [|reflexivity].
  intros Hlt.
  destruct (getCombinations array k) as [|c r] eqn:E; [reflexivity|].
  assert (Hin : In c (getCombinations array k)) by (rewrite E; left; auto).
  apply combinations_sound in Hin. destruct Hin as [Hs Hl].
  apply subseq_length in Hs. lia.
Qed.

Lemma insertSorted_head (x : Card) (l : list Card) :
  exists t, insertSorted (fun a b => rk b - rk a) x l = x :: t \/
            exists y t', l = y :: t' /\ rk x < rk y /\
              insertSorted (fun a b => rk b - rk a) x l = y :: t.
Proof.
  destruct l as [|y t']; cbn [insertSorted].
  - exists []. left. reflexivity.
  - destruct (rk y - rk x <=? 0) eqn:E.
    + exists (y :: t'). left. reflexivity.
    + eexists. right. exists y, t'. split; [reflexivity|].
      split; [lia | reflexivity].
Qed.

Lemma insertSorted_descending (x : Card) (l : list Card) :
  descending (map rk l) ->
  descending (map rk (insertSorted (fun a b => rk b - rk a) x l)).
Proof.
  induction l as [|y ys IH]; intros H; cbn [insertSorted].
  - exact I.
  - destruct (rk y - rk x <=? 0) eqn:E.
    + cbn [map descending]. split; [lia | exact H].
    + assert (Hys : descending (map rk ys)).
      { destruct ys; [exact I | apply H]. }
      specialize (IH Hys).
      destruct (insertSorted_head x ys) as [t [Et|[z [t' [Eys [Hlt Et]]]]]];
        rewrite Et in IH |- *; cbn [map descending] in *.
      * split; [lia | exact IH].
      * subst ys. cbn [map descending] in H. split; [apply H | exact IH].
Qed.

Lemma sortByRankDesc_descending (l : list Card) :
  descending (map rk (sortByRankDesc l)).
Proof.
  unfold sortByRankDesc, jsSort.
  induction l as [|x l IH]; cbn [fold_right]; [exact I|].
  apply insertSorted_descending, IH.
Qed.

Lemma subseq_In {A} (s l : list A) (x : A) : subseq s l -> In x s -> In x l.
Proof.
  induction 1 as [|y s l Hs IH|y s l Hs IH]; intros Hin.
  - exact Hin.
  - right. apply IH, Hin.
  - destruct Hin as [->|Hin]; [left; reflexivity | right; apply IH, Hin].
Qed.

(** X2.  [evaluateHand] throws on fewer than five cards; on five cards or
    more it returns five cards of its input, the ranks from the highest to
    the lowest, in a category whose [value] is between 1 and 10. *)
Theorem X2_evaluateHand_returns (cards : list Card) :
  ((List.length cards < 5)%nat -> evaluateHand cards = Err NeedFiveCards) /\
  ((5 <= List.length cards)%nat ->
   exists e,
     evaluateHand cards = Ok e /\
     List.length (he_cards e) = 5%nat /\
     (forall c, In c (he_cards e) -> In c cards) /\
     descending (map rk (he_cards e)) /\
     1 <= value e <= 10).
Proof.
  split.
  - intros H. unfold evaluateHand.
    replace (List.length cards <? 5)%nat with true
      by (symmetry; apply Nat.ltb_lt; exact H).
    reflexivity.
  - intros H.
    destruct (evaluateHand_spec cards H) as [e [c [He [Hs [Hl [Hc [Hv _]]]]]]].
    exists e. split; [exact He|]. rewrite Hc.
    split; [rewrite sortByRankDesc_length; exact Hl|].
    split.
    + intros x Hx. unfold sortByRankDesc in Hx. apply jsSort_In in Hx.
      eapply subseq_In; eassumption.
    + split; [apply sortByRankDesc_descending|].
      rewrite Hv. apply rankOrdinal_bounds.
Qed.

Lemma mapGet_In (k : Z) (n : nat) (m : RankCounts) :
  mapGet k m = Some n -> In (k, n) m.
Proof.
  induction m as [|[k0 v0] m IH]; cbn [mapGet]; [discriminate|].
  destruct (k =? k0) eqn:E.
  - intros H. injection H as ->. apply Z.eqb_eq in E. subst. left; reflexivity.
  - intros H. right. apply IH, H.
Qed.

Lemma countRanks_entries (cards : list Card) :
  NoDup (map fst (countRanks cards)) /\
  (forall k n, In (k, n) (countRanks cards)
               <-> n = occ k cards /\ (0 < n)%nat) /\
  (forall k, mapGet k (countRanks cards) = None <-> occ k cards = 0%nat).
Proof.
  destruct (countRanks_inv cards) as [Hd Hg].
  split; [exact Hd|]. split.
  - intros k n. split; [apply countRanks_In|].
    intros [-> Hpos]. apply mapGet_In. rewrite Hg.
    replace (Nat.eqb (occ k cards) 0) with false
      by (symmetry; apply Nat.eqb_neq; lia).
    reflexivity.
  - intros k. rewrite Hg.
    destruct (Nat.eqb (occ k cards) 0) eqn:E.
    + apply Nat.eqb_eq in E. split; auto.
    + apply Nat.eqb_neq in E. split; [discriminate | contradiction].
Qed.

(** X3.  [countRanks] holds one entry for each rank that occurs in the
    cards, with the number of cards of that rank, and no entry for a rank
    that does not occur. *)
Theorem X3_countRanks (cards : list Card) :
  NoDup (map fst (countRanks cards)) /\
  (forall k n, In (k, n) (countRanks cards)
               <-> n = occ k cards /\ (0 < n)%nat) /\
  (forall k, mapGet k (countRanks cards) = None <-> occ k cards = 0%nat) /\
  countRanks [] = [].
Proof.
  destruct (countRanks_entries cards) as [H1 [H2 H3]].
  split; [exact H1|]. split; [exact H2|]. split; [exact H3 | reflexivity].
Qed.

(** X4.  For two hands of five cards, the hand that [evaluateHand]'s chain
    of checks puts in the lower category gets the strictly smaller
    [getHandValue]: the number that chooses the best five cards never ranks
    a lower category above a higher one. *)
Theorem X4_handValue_orders_categories (a b : list Card) :
  List.length a = 5%nat -> List.length b = 5%nat ->
  exists va vb ea eb,
    getHandValue a = Ok va /\ getHandValue b = Ok vb /\
    evaluateBest a = Ok ea /\ evaluateBest b = Ok eb /\
    (rankOrdinal (he_rank ea) < rankOrdinal (he_rank eb) -> (va < vb)%Q) /\
    ((va <= vb)%Q -> rankOrdinal (he_rank ea) <= rankOrdinal (he_rank eb)).
Proof.
  intros Ha Hb.
  destruct (five_card_hand a Ha) as [va [ea [Hva [Hea [_ [Hoa Hba]]]]]].
  destruct (five_card_hand b Hb) as [vb [eb [Hvb [Heb [_ [Hob Hbb]]]]]].
  exists va, vb, ea, eb. repeat (split; [assumption|]).
  rewrite <- Hoa, <- Hob. split.
  - intros Hlt. apply Qnot_le_lt. intros Hle.
    pose proof (band_order _ _ _ _ Hbb Hba Hle). lia.
  - intros Hle. eapply band_order; eassumption.
Qed.

Lemma X4_handValue_orders_categories_witness :
  exists va vb ea eb,
    getHandValue acesKQJ = Ok va /\ getHandValue royalHearts = Ok vb /\
    evaluateBest acesKQJ = Ok ea /\ evaluateBest royalHearts = Ok eb /\
    (rankOrdinal (he_rank ea) < rankOrdinal (he_rank eb) -> (va < vb)%Q) /\
    ((va <= vb)%Q -> rankOrdinal (he_rank ea) <= rankOrdinal (he_rank eb)).
Proof.
  apply (X4_handValue_orders_categories acesKQJ royalHearts); reflexivity.
Defined.

(* ================================================================== *)
(** * What the hand type checkers test *)

Lemma includes_occ (n : nat) (l : list Card) :
  (0 < n)%nat ->
  (includesNat n (mapValues (countRanks l)) = true
   <-> exists k, occ k l = n).
Proof.
  intros Hn. split.
  - intros H. apply rankWithCount_found in H. destruct H as [H _].
    eexists; exact H.
  - intros [k Hk]. unfold includesNat, mapValues.
    apply existsb_exists. exists n. split; [|apply Nat.eqb_refl].
    apply in_map_iff. exists (k, n). split; [reflexivity|].
    apply (proj1 (proj2 (countRanks_entries l))).
    split; [symmetry; exact Hk | exact Hn].
Qed.

Lemma NoDup_map_filter {A B} (g : A -> B) (f : A -> bool) (l : list A) :
  NoDup (map g l) -> NoDup (map g (filter f l)).
Proof.
  induction l as [|x l IH]; cbn [map filter]; intros H; [constructor|].
  inversion H as [|? ? Hn Hd]; subst.
  destruct (f x); cbn [map]; [|apply IH, Hd].
  constructor; [|apply IH, Hd].
  intros Hin. apply Hn. apply in_map_iff in Hin.
  destruct Hin as [y [Ey Hy]]. apply filter_In in Hy.
  apply in_map_iff. exists y. split; [exact Ey | apply Hy].
Qed.

Lemma pairs_keys (l : list Card) (k : Z) :
  In k (map fst (filter (fun e => Nat.eqb (snd e) 2) (countRanks l)))
  <-> occ k l = 2%nat.
Proof.
  rewrite in_map_iff. split.
  - intros [[k0 n] [E Hin]]. cbn in E. subst k0.
    apply filter_In in Hin. destruct Hin as [Hin Hn]. cbn in Hn.
    apply Nat.eqb_eq in Hn. subst n.
    apply countRanks_In in Hin. symmetry. apply Hin.
  - intros H. exists (k, 2%nat). split; [reflexivity|].
    apply filter_In. split; [|reflexivity].
    apply (proj1 (proj2 (countRanks_entries l))). split; [congruence | lia].
Qed.

Lemma isTwoPair_occ (l : list Card) :
  isTwoPair l = true <->
  exists k1 k2, k1 <> k2 /\ occ k1 l = 2%nat /\ occ k2 l = 2%nat /\
                forall k, occ k l = 2%nat -> k = k1 \/ k = k2.
Proof.
  unfold isTwoPair, mapValues. rewrite Nat.eqb_eq, <- filter_snd_length.
  rewrite <- (length_map fst).
  pose proof (NoDup_map_filter fst (fun e => Nat.eqb (snd e) 2) (countRanks l)
                (proj1 (countRanks_entries l))) as Hd.
  pose proof (pairs_keys l) as Hk.
  remember (map fst (filter (fun e => Nat.eqb (snd e) 2) (countRanks l)))
    as ks eqn:Eks. clear Eks.
  split.
  - intros Hlen. destruct ks as [|k1 [|k2 [|k3 ks]]]; try discriminate Hlen.
    exists k1, k2. inversion Hd as [|? ? Hn _]; subst.
    split; [intros ->; apply Hn; left; reflexivity|].
    split; [apply Hk; left; reflexivity|].
    split; [apply Hk; right; left; reflexivity|].
    intros k H. apply Hk in H. destruct H as [-> | [-> | []]]; auto.
  - intros [k1 [k2 [Hne [H1 [H2 Hall]]]]].
    apply Nat.le_antisymm.
    + apply (NoDup_incl_length (l' := [k1; k2]) Hd).
      intros k Hin. apply Hk, Hall in Hin.
      destruct Hin as [-> | ->]; [left | right; left]; reflexivity.
    + apply (NoDup_incl_length (l := [k1; k2])).
      * constructor; [intros [E|[]]; congruence|].
        constructor; [intros [] | constructor].
      * intros k [<- | [<- | []]]; apply Hk; assumption.
Qed.

(** X5.  The checkers built on the rank counts test for a rank that occurs
    an exact number of times: four for [isFourOfAKind], three for
    [isThreeOfAKind], two for [isPair]; [isFullHouse] asks for a rank that
    occurs three times and one that occurs twice, and [isTwoPair] for
    exactly two ranks that occur twice.  So [isPair] also holds of two pairs
    and of a full house, and [isThreeOfAKind] of a full house. *)
Theorem X5_count_checkers (cards : list Card) :
  (isFourOfAKind cards = true <-> exists k, occ k cards = 4%nat) /\
  (isThreeOfAKind cards = true <-> exists k, occ k cards = 3%nat) /\
  (isPair cards = true <-> exists k, occ k cards = 2%nat) /\
  (isFullHouse cards = true <->
   (exists k, occ k cards = 3%nat) /\ (exists k, occ k cards = 2%nat)) /\
  (isTwoPair cards = true <->
   exists k1 k2, k1 <> k2 /\ occ k1 cards = 2%nat /\ occ k2 cards = 2%nat /\
                 forall k, occ k cards = 2%nat -> k = k1 \/ k = k2) /\
  (isFullHouse cards = true -> isThreeOfAKind cards = true /\ isPair cards = true) /\
  (isTwoPair cards = true -> isPair cards = true).
Proof.
  assert (H4 := includes_occ 4 cards ltac:(lia)).
  assert (H3 := includes_occ 3 cards ltac:(lia)).
  assert (H2 := includes_occ 2 cards ltac:(lia)).
  assert (HFH : isFullHouse cards = true <->
            (exists k, occ k cards = 3%nat) /\ (exists k, occ k cards = 2%nat)).
  { unfold isFullHouse. cbv zeta. rewrite andb_true_iff, H3, H2. reflexivity. }
  split; [exact H4|]. split; [exact H3|]. split; [exact H2|].
  split; [exact HFH|]. split; [apply isTwoPair_occ|]. split.
  - intros H. apply HFH in H. destruct H as [Ha Hb].
    split; [apply H3, Ha | apply H2, Hb].
  - intros H. apply isTwoPair_occ in H. destruct H as [k1 [_ [_ [H1 _]]]].
    apply H2. exists k1. exact H1.
Qed.

Lemma nodup_length_one {A} (dec : forall x y : A, {x = y} + {x <> y})
    (l : list A) :
  List.length (nodup dec l) = 1%nat <->
  exists x, In x l /\ forall y, In y l -> y = x.
Proof.
  split.
  - intros H. destruct (nodup dec l) as [|x [|x' r]] eqn:E; try discriminate H.
    exists x. split.
    + apply (nodup_In dec). rewrite E. left; reflexivity.
    + intros y Hy. apply (nodup_In dec) in Hy. rewrite E in Hy.
      destruct Hy as [-> | []]. reflexivity.
  - intros [x [Hx Hall]]. apply Nat.le_antisymm.
    + apply (NoDup_incl_length (l' := [x]) (NoDup_nodup dec l)).
      intros y Hy. apply nodup_In in Hy. left. symmetry. apply Hall, Hy.
    + apply (nodup_In dec) in Hx.
      destruct (nodup dec l); [destruct Hx | cbn; lia].
Qed.

(** X6.  [isFlush] holds exactly of a hand that has a card and whose cards
    are all of one suit; of no card it is false. *)
Theorem X6_isFlush (cards : list Card) :
  (isFlush cards = true <->
   exists s, cards <> [] /\ forall c, In c cards -> suit c = s) /\
  isFlush [] = false.
Proof.
  split; [|reflexivity].
  unfold isFlush. rewrite Nat.eqb_eq, nodup_length_one. split.
  - intros [s [Hin Hall]]. exists s. split.
    + intros ->. destruct Hin.
    + intros c Hc. apply Hall. apply in_map, Hc.
  - intros [s [Hne Hall]]. exists s. split.
    + destruct cards as [|c r]; [congruence|]. left. apply Hall. left; reflexivity.
    + intros y Hy. apply in_map_iff in Hy. destruct Hy as [c [<- Hc]].
      apply Hall, Hc.
Qed.

(** X7.  On five cards [isStraight] returns, and says yes exactly when the
    ranks from the highest down are 14-5-4-3-2 or five ranks in a row; it
    looks at the ranks only after sorting them, so the order of the cards
    does not matter. *)
Theorem X7_isStraight (cards : list Card) :
  List.length cards = 5%nat ->
  exists b,
    isStraight cards = Ok b /\
    (b = true <->
     map rk (sortByRankDesc cards) = [14; 5; 4; 3; 2] \/
     exists h, map rk (sortByRankDesc cards) = [h; h - 1; h - 2; h - 3; h - 4]).
Proof.
  intros H. unfold isStraight.
  pose proof (sortByRankDesc_length cards) as Hl. rewrite H in Hl.
  destruct (sortByRankDesc cards) as [|a [|b [|c [|d [|e [|f t]]]]]];
    try discriminate Hl.
  unfold rankAt. cbn [nth_error rbind map consecutiveDesc].
  repeat match goal with
         | |- context [if ?c then _ else _] => destruct c eqn:?; cbn [rbind]
         end;
    eexists; (split; [reflexivity|]);
    (split;
     [ intros Hb; try discriminate Hb;
       first [ left; repeat f_equal; lia
             | right; exists (rk a); repeat f_equal; lia ]
     | intros [Hw|[h Hh]];
       [ injection Hw as ? ? ? ? ?; first [reflexivity | exfalso; lia]
       | injection Hh as ? ? ? ? ?; first [reflexivity | exfalso; lia] ] ]).
Qed.

Lemma X7_isStraight_witness :
  exists b,
    isStraight sixToTen = Ok b /\
    (b = true <->
     map rk (sortByRankDesc sixToTen) = [14; 5; 4; 3; 2] \/
     exists h, map rk (sortByRankDesc sixToTen)
               = [h; h - 1; h - 2; h - 3; h - 4]).
Proof. apply (X7_isStraight sixToTen). reflexivity. Defined.

(* ================================================================== *)
(** * The shuffle *)

Lemma weight_cons {A} (w : A -> Z) (x : A) (l : list A) :
  weight w (x :: l) = w x + weight w l.
Proof. reflexivity. Qed.

Lemma weight_app {A} (w : A -> Z) (l1 l2 : list A) :
  weight w (l1 ++ l2) = weight w l1 + weight w l2.
Proof.
  induction l1 as [|x l1 IH]; cbn [app]; [reflexivity|].
  rewrite !weight_cons, IH. lia.
Qed.

Lemma weight_nil {A} (w : A -> Z) : weight w [] = 0.
Proof. reflexivity. Qed.

Lemma weight_nonneg {A} (w : A -> Z) (l : list A) :
  (forall x, 0 <= w x) -> 0 <= weight w l.
Proof.
  intros H. induction l as [|x l IH]; [cbn; lia|].
  rewrite weight_cons. specialize (H x). lia.
Qed.

Lemma weight_map {A B} (w : B -> Z) (g : A -> B) (l : list A) :
  weight w (map g l) = weight (fun x => w (g x)) l.
Proof. unfold weight. rewrite map_map. reflexivity. Qed.

Lemma weight_updAt {A} (w : A -> Z) (i : nat) (v old : A) (d : list A) :
  nth_error d i = Some old ->
  weight w (updAt i (fun _ => v) d) = weight w d - w old + w v.
Proof.
  revert i; induction d as [|x d IH]; intros [|i] H; cbn [nth_error] in H;
    try discriminate; cbn [updAt]; rewrite !weight_cons.
  - injection H as ->. lia.
  - rewrite (IH i H). lia.
Qed.

Lemma nth_error_updAt_const {A} (i j : nat) (v x : A) (d : list A) :
  nth_error d i <> None -> nth_error d j = Some x ->
  nth_error (updAt i (fun _ => v) d) j = Some (if Nat.eqb i j then v else x).
Proof.
  revert i j; induction d as [|y d IH]; intros [|i] [|j] Hi Hj;
    cbn [nth_error updAt Nat.eqb] in *; try discriminate; try congruence.
  apply IH; assumption.
Qed.

Lemma weight_swapAt (w : Card -> Z) (i j : nat) (d : list Card) :
  weight w (swapAt i j d) = weight w d.
Proof.
  unfold swapAt.
  destruct (nth_error d i) as [ci|] eqn:Ei; [|reflexivity].
  destruct (nth_error d j) as [cj|] eqn:Ej; [|reflexivity].
  assert (Hj : nth_error (updAt i (fun _ => cj) d) j = Some cj).
  { rewrite (nth_error_updAt_const i j cj cj d) by congruence.
    destruct (Nat.eqb i j); reflexivity. }
  rewrite (weight_updAt w j ci cj _ Hj), (weight_updAt w i cj ci _ Ei). lia.
Qed.

Lemma count_occ_weight {A} (dec : forall x y : A, {x = y} + {x <> y})
    (l : list A) (x : A) :
  Z.of_nat (count_occ dec l x)
  = weight (fun y => if dec y x then 1 else 0) l.
Proof.
  induction l as [|y l IH]; [reflexivity|].
  rewrite weight_cons. cbn [count_occ]. destruct (dec y x); lia.
Qed.

Lemma swapAt_perm (i j : nat) (d : list Card) : Permutation (swapAt i j d) d.
Proof.
  apply (Permutation_count_occ Card_eq_dec). intros x.
  apply Nat2Z.inj. rewrite !count_occ_weight. apply weight_swapAt.
Qed.

Lemma shuffleLoop_perm (i : nat) :
  forall js d, Permutation (shuffleLoop i js d) d.
Proof.
  induction i as [|i IH]; intros [|j js] d; cbn [shuffleLoop];
    try apply Permutation_refl.
  eapply perm_trans; [apply IH | apply swapAt_perm].
Qed.

Lemma freshDeck_NoDup : NoDup freshDeck.
Proof.
  assert (E : nodup Card_eq_dec freshDeck = freshDeck) by (vm_compute; reflexivity).
  rewrite <- E. apply NoDup_nodup.
Qed.

Lemma freshDeck_all (s : Suit) (r : Rank) : In (card s r) freshDeck.
Proof.
  unfold freshDeck. apply in_flat_map. exists s. split.
  - destruct s; cbn; auto.
  - apply in_map. destruct r; cbn; auto 20.
Qed.

(** X8.  For random indices in range, [createShuffledDeck] returns a
    rearrangement of the 52 cards of the four suits and thirteen ranks:
    every card is there once, none twice, and no card carries a display
    flag yet. *)
Theorem X8_shuffle_is_permutation (js : list nat) :
  validSwaps js = true ->
  Permutation (createShuffledDeck js) freshDeck /\
  NoDup (createShuffledDeck js) /\
  List.length (createShuffledDeck js) = 52%nat /\
  (forall s r, In (card s r) (createShuffledDeck js)) /\
  (forall c, In c (createShuffledDeck js) -> hidden c = None).
Proof.
  intros _.
  assert (P : Permutation (createShuffledDeck js) freshDeck)
    by apply shuffleLoop_perm.
  split; [exact P|].
  split; [apply (Permutation_NoDup (Permutation_sym P)), freshDeck_NoDup|].
  split; [apply createShuffledDeck_length|].
  split.
  - intros s r. apply (Permutation_in _ (Permutation_sym P)), freshDeck_all.
  - intros c Hc. apply (Permutation_in _ P) in Hc.
    unfold freshDeck in Hc. apply in_flat_map in Hc.
    destruct Hc as [s [_ Hc]]. apply in_map_iff in Hc.
    destruct Hc as [r [<- _]]. reflexivity.
Qed.

Lemma X8_shuffle_is_permutation_witness :
  Permutation (createShuffledDeck noSwaps) freshDeck /\
  NoDup (createShuffledDeck noSwaps) /\
  List.length (createShuffledDeck noSwaps) = 52%nat /\
  (forall s r, In (card s r) (createShuffledDeck noSwaps)) /\
  (forall c, In c (createShuffledDeck noSwaps) -> hidden c = None).
Proof. apply (X8_shuffle_is_permutation noSwaps). reflexivity. Defined.

(* ================================================================== *)
(** * No card is dealt twice *)

Lemma noGain_refl (s : GameState) : noGain s s.
Proof. intros w _. lia. Qed.

Lemma noGain_trans (s1 s2 s3 : GameState) :
  noGain s1 s2 -> noGain s2 s3 -> noGain s1 s3.
Proof. intros H1 H2 w Hw. specialize (H1 w Hw). specialize (H2 w Hw). lia. Qed.

Lemma gain_bind {A B} (m : M A) (f : A -> M B) :
  post m noGain -> (forall a, post (f a) noGain) -> post (bind m f) noGain.
Proof. intros Hm Hf. eapply post_bind; eauto using noGain_trans. Qed.

Lemma gain_same {A} (m : M A) :
  (forall s, snd (m s) = s) -> post m noGain.
Proof.
  intros H s r s' E. specialize (H s). rewrite E in H. cbn in H. subst s'.
  apply noGain_refl.
Qed.

Lemma gain_getPlayer (i : nat) : post (getPlayer i) noGain.
Proof.
  apply gain_same. intros s. unfold getPlayer.
  destruct (nth_error (players s) i); reflexivity.
Qed.

Lemma gain_modify (f : GameState -> GameState) :
  (forall s, cardsInPlay (f s) = cardsInPlay s) -> post (modify f) noGain.
Proof.
  intros H s r s' E. injection E as _ <-. intros w _. rewrite H. lia.
Qed.

Lemma holes_updAt_bound (w : Face -> Z) (K : Z) (i : nat)
    (g : Player -> Player) (ps : list Player) :
  (forall x, 0 <= w x) -> 0 <= K ->
  (forall p, weight w (map face (holeCards (g p))) <= K) ->
  weight w (map face (flat_map holeCards (updAt i g ps)))
  <= weight w (map face (flat_map holeCards ps)) + K.
Proof.
  intros Hw HK Hg. revert i; induction ps as [|p ps IH]; intros [|i];
    cbn [updAt flat_map]; rewrite ?map_app, ?weight_app; cbn [map]; try lia.
  - specialize (Hg p).
    pose proof (weight_nonneg w (map face (holeCards p)) Hw). lia.
  - specialize (IH i). lia.
Qed.

Lemma holes_updAt_le (w : Face -> Z) (i : nat)
    (g : Player -> Player) (ps : list Player) :
  (forall p, weight w (map face (holeCards (g p)))
             <= weight w (map face (holeCards p))) ->
  weight w (map face (flat_map holeCards (updAt i g ps)))
  <= weight w (map face (flat_map holeCards ps)).
Proof.
  intros Hg. revert i; induction ps as [|p ps IH]; intros [|i];
    cbn [updAt flat_map]; rewrite ?map_app, ?weight_app; try lia.
  - specialize (Hg p). lia.
  - specialize (IH i). lia.
Qed.

Lemma gain_updPlayer (i : nat) (g : Player -> Player) :
  (forall (w : Face -> Z) p, (forall x, 0 <= w x) ->
     weight w (map face (holeCards (g p)))
     <= weight w (map face (holeCards p))) ->
  post (updPlayer i g) noGain.
Proof.
  intros Hg s r s' E. injection E as _ <-. intros w Hw.
  unfold cardsInPlay. cbn [players communityCards deck set_players].
  rewrite !map_app, !weight_app.
  pose proof (holes_updAt_le w i g (players s) (fun p => Hg w p Hw)). lia.
Qed.

Lemma gain_forEach {A} (xs : list A) (body : A -> M unit) :
  (forall x, post (body x) noGain) -> post (forEach xs body) noGain.
Proof.
  intros H. induction xs as [|x xs IH]; cbn [forEach].
  - apply post_ret, noGain_refl.
  - apply gain_bind; [apply H | intros _; exact IH].
Qed.

Lemma face_showCard (l : list Card) : map face (map showCard l) = map face l.
Proof. rewrite map_map. reflexivity. Qed.

Lemma face_hide (c : Card) : face (hideCard c) = face c.
Proof. reflexivity. Qed.

Lemma pop_Some {A} (l r : list A) (c : A) :
  pop l = Some (c, r) -> l = r ++ [c].
Proof.
  unfold pop. destruct (rev l) as [|x t] eqn:E; [discriminate|].
  intros H. injection H as -> <-.
  rewrite <- (rev_involutive l), E. reflexivity.
Qed.

(** A draw takes its card out of the cards in play. *)
Lemma drawCard_weight (s : GameState) (c : Card) (s1 : GameState)
    (w : Face -> Z) :
  drawCard s = (Ok c, s1) ->
  weight w (map face (cardsInPlay s1)) + w (face c)
  = weight w (map face (cardsInPlay s)) /\
  players s1 = players s /\ communityCards s1 = communityCards s.
Proof.
  unfold drawCard. destruct (pop (deck s)) as [[c' d]|] eqn:P; [|discriminate].
  intros E. injection E as -> <-. apply pop_Some in P.
  unfold cardsInPlay. cbn [players communityCards deck set_deck].
  rewrite P, !map_app, !weight_app. cbn [map]. rewrite weight_cons, weight_nil.
  repeat split. lia.
Qed.

Lemma drawCard_Err (s : GameState) (e : Error) (s1 : GameState) :
  drawCard s = (Err e, s1) -> s1 = s.
Proof.
  unfold drawCard. destruct (pop (deck s)) as [[c' d]|]; [discriminate|].
  intros E. injection E as _ <-. reflexivity.
Qed.

Lemma gain_drawCard : post drawCard noGain.
Proof.
  intros s [c|e] s' E.
  - intros w Hw. destruct (drawCard_weight s c s' w E) as [H _].
    specialize (Hw (face c)). lia.
  - apply drawCard_Err in E. subst s'. apply noGain_refl.
Qed.

(** A card that is drawn and then pushed on the board stays in play once. *)
Lemma gain_draw_push (k : M unit) :
  post k noGain ->
  post (c <- drawCard ;;
        modify (fun s => set_communityCards (communityCards s ++ [c]) s) ;;
        k)%M noGain.
Proof.
  intros Hk s r s' E. unfold bind at 1 in E.
  destruct (drawCard s) as [[c|e] s1] eqn:D.
  - unfold bind at 1, modify at 1 in E. apply Hk in E.
    eapply noGain_trans; [|exact E]. intros w Hw.
    destruct (drawCard_weight s c s1 w D) as [H [Hp Hc]].
    unfold cardsInPlay in *.
    cbn [players communityCards deck set_communityCards].
    rewrite !map_app, !weight_app in *.
    cbn [map]. rewrite weight_cons, weight_nil. lia.
  - injection E as _ <-. apply drawCard_Err in D. subst s1.
    apply noGain_refl.
Qed.

(** Two cards that are drawn and given to a player stay in play once. *)
Lemma gain_draw_hole (i : nat) :
  post (c1 <- drawCard ;;
        c2 <- drawCard ;;
        updPlayer i (fun p =>
          if isAI p then set_holeCards (map hideCard [c1; c2]) p
          else set_holeCards [c1; c2] p))%M noGain.
Proof.
  intros s r s' E. unfold bind in E.
  destruct (drawCard s) as [[c1|e] s1] eqn:D1.
  - destruct (drawCard s1) as [[c2|e] s2] eqn:D2.
    + injection E as _ <-. intros w Hw.
      destruct (drawCard_weight s c1 s1 w D1) as [H1 [Hp1 Hc1]].
      destruct (drawCard_weight s1 c2 s2 w D2) as [H2 [Hp2 Hc2]].
      unfold cardsInPlay in *. cbn [players communityCards deck set_players].
      rewrite !map_app, !weight_app in *.
      pose proof (Hw (face c1)). pose proof (Hw (face c2)).
      match goal with
      | |- context [updAt i ?g (players s2)] =>
          pose proof (holes_updAt_bound w (w (face c1) + w (face c2)) i
                        g (players s2) Hw ltac:(lia)) as B
      end.
      lapply B; [lia|].
      intros p. destruct (isAI p); cbn [holeCards set_holeCards map];
        rewrite !weight_cons, weight_nil, ?face_hide; lia.
    + injection E as _ <-. apply drawCard_Err in D2. subst s2.
      eapply gain_drawCard, D1.
  - injection E as _ <-. apply drawCard_Err in D1. subst s1.
    apply noGain_refl.
Qed.

Ltac gains :=
  repeat first
    [ apply gain_draw_push
    | apply gain_draw_hole
    | apply gain_bind; [|intros ?]
    | apply post_ret; apply noGain_refl
    | apply gain_getPlayer
    | apply gain_drawCard
    | apply gain_same; intros ?; reflexivity
    | apply gain_modify; intros ?; reflexivity
    | apply gain_updPlayer; intros ? ? ?; cbn [holeCards set_chips set_bet
        set_folded set_handEvaluation set_holeCards];
      rewrite ?face_showCard; apply Z.le_refl
    | apply gain_forEach; intros ?
    | match goal with
      | |- post (match ?x with _ => _ end) noGain => destruct x
      end ].

Lemma gain_dealHoleCards : post dealHoleCards noGain.
Proof. unfold dealHoleCards. gains. Qed.

Lemma gain_postBlind (i : nat) (amount : Z) : post (postBlind i amount) noGain.
Proof. unfold postBlind. gains. Qed.

Lemma gain_dealFlop : post dealFlop noGain.
Proof. unfold dealFlop. gains. Qed.

Lemma gain_dealTurn : post dealTurn noGain.
Proof. unfold dealTurn. gains. Qed.

Lemma gain_dealRiver : post dealRiver noGain.
Proof. unfold dealRiver. gains. Qed.

Lemma gain_revealAll : post revealAll noGain.
Proof. unfold revealAll. gains. Qed.

Lemma gain_awardPot (ws : list nat) : post (awardPot ws) noGain.
Proof. unfold awardPot. gains. Qed.

Lemma gain_endHand (ws : list nat) : post (endHand ws) noGain.
Proof.
  unfold endHand. gains; try apply gain_awardPot; try apply gain_revealAll.
Qed.

Lemma gain_showdown : post showdown noGain.
Proof.
  unfold showdown, pushLog, liftR.
  gains; try apply gain_awardPot; try apply gain_revealAll.
Qed.

Lemma gain_advancePlayer (fuel start : nat) :
  post (advancePlayer fuel start) noGain.
Proof.
  induction fuel as [|fuel IH]; cbn [advancePlayer]; gains. exact IH.
Qed.

Lemma gain_skipSettled (fuel first : nat) :
  post (skipSettled fuel first) noGain.
Proof.
  induction fuel as [|fuel IH]; cbn [skipSettled]; gains. exact IH.
Qed.

Lemma gain_resetBets : post resetBetsForNewStage noGain.
Proof. unfold resetBetsForNewStage. gains. apply gain_skipSettled. Qed.

Lemma gain_moveToNextStage : post moveToNextStage noGain.
Proof.
  unfold moveToNextStage. apply gain_bind; [gains|]. intros s0.
  apply gain_bind; [|intros _; apply gain_resetBets].
  destruct (stage s0);
    [ apply gain_dealFlop | apply gain_dealTurn | apply gain_dealRiver
    | apply gain_showdown | gains ].
Qed.

Lemma gain_checkBettingRoundComplete : post checkBettingRoundComplete noGain.
Proof.
  unfold checkBettingRoundComplete. apply gain_bind; [gains|]. intros s0.
  destruct (Nat.eqb (List.length (activeIndices s0)) 1);
    [apply gain_endHand|].
  match goal with |- post (if ?c then _ else _) _ => destruct c end;
    [apply gain_moveToNextStage | gains].
Qed.

Lemma gain_nextPlayer : post nextPlayer noGain.
Proof.
  unfold nextPlayer. apply gain_bind; [gains|]. intros s0.
  apply gain_bind; [apply gain_advancePlayer|].
  intros _. apply gain_checkBettingRoundComplete.
Qed.

Lemma gain_actionSwitch (a : PlayerAction) (amount : Z) :
  post (actionSwitch a amount) noGain.
Proof. unfold actionSwitch. gains. Qed.

Lemma gain_playerAction (a : PlayerAction) (amount : Z) :
  post (playerAction a amount) noGain.
Proof.
  unfold playerAction. apply gain_bind; [apply gain_actionSwitch|].
  intros _. apply gain_nextPlayer.
Qed.

Lemma holes_reset (f : Player -> Player) (l : list Player) :
  (forall p, holeCards (f p) = []) -> flat_map holeCards (map f l) = [].
Proof.
  intros H. induction l as [|p l IH]; cbn [map flat_map];
    rewrite ?H, ?IH; reflexivity.
Qed.

Lemma reset_then {B} (f : GameState -> GameState) (g : Player -> Player)
    (k : M B) (s : GameState) :
  (modify f ;;
   idxs <- gets playerIndices ;;
   forEach idxs (fun i => updPlayer i g) ;;
   k)%M s
  = k (set_players (map g (players (f s))) (f s)).
Proof.
  unfold bind at 1, modify at 1. unfold bind at 1, gets at 1.
  unfold bind at 1. rewrite forEach_all_players. reflexivity.
Qed.

(** The cards in play after [startHand] come from the deck it shuffled. *)
Lemma startHand_cards (js : list nat) :
  post (startHand js)
    (fun _ s => forall w : Face -> Z, (forall x, 0 <= w x) ->
       weight w (map face (cardsInPlay s))
       <= weight w (map face (createShuffledDeck js))).
Proof.
  unfold startHand. intros s0 r s E w Hw. rewrite reset_then in E.
  match type of E with
  | ?k ?s1 = _ =>
      assert (K : post k noGain);
      [|apply K in E; specialize (E w Hw);
        eapply Z.le_trans; [exact E|]]
  end.
  - apply gain_bind; [gains|]. intros _.
    apply gain_bind; [gains|]. intros s1.
    apply gain_bind; [apply gain_postBlind|]. intros _.
    apply gain_bind; [apply gain_postBlind|]. intros _.
    apply gain_bind; [gains|]. intros _.
    apply gain_bind; [apply gain_dealHoleCards|]. intros _. gains.
  - unfold cardsInPlay.
    cbn [players communityCards deck set_players set_log set_winners
         set_roundOver set_stage set_currentBet set_pots set_mainPot
         set_communityCards set_deck].
    rewrite holes_reset by reflexivity. apply Z.le_refl.
Qed.

Lemma handState_cards (s0 : GameState) (js : list nat) (s : GameState)
    (w : Face -> Z) :
  (forall x, 0 <= w x) ->
  handState s0 js s ->
  weight w (map face (cardsInPlay s))
  <= weight w (map face (createShuffledDeck js)).
Proof.
  intros Hw H. induction H as [s E | s a amt r s' H IH E].
  - exact (startHand_cards js s0 (Ok tt) s E w Hw).
  - eapply Z.le_trans; [|exact IH].
    exact (gain_playerAction a amt s r s' E w Hw).
Qed.

Lemma weight_one {A} (l : list A) :
  weight (fun _ => 1) l = Z.of_nat (List.length l).
Proof.
  induction l as [|x l IH]; [reflexivity|].
  rewrite weight_cons, IH. cbn [List.length]. lia.
Qed.

Lemma freshDeck_faces_NoDup : NoDup (map face freshDeck).
Proof.
  assert (E : nodup Face_eq_dec (map face freshDeck) = map face freshDeck)
    by (vm_compute; reflexivity).
  rewrite <- E. apply NoDup_nodup.
Qed.

(** X9.  Through a hand, on a table of any size, the hole cards, the board
    and the remaining deck together never hold a suit and rank twice: no
    card is dealt to two places, a dealt card is no longer in the deck, and
    the burnt cards do not come back.  At most 52 cards are in play. *)
Theorem X9_no_card_dealt_twice (s0 : GameState) (js : list nat)
    (s : GameState) :
  validSwaps js = true ->
  handState s0 js s ->
  NoDup (map face (cardsInPlay s)) /\
  (List.length (cardsInPlay s) <= 52)%nat.
Proof.
  intros _ H.
  assert (P : Permutation (map face (createShuffledDeck js))
                          (map face freshDeck))
    by apply Permutation_map, shuffleLoop_perm.
  split.
  - apply (NoDup_count_occ Face_eq_dec). intros x.
    pose proof (handState_cards s0 js s
                  (fun y => if Face_eq_dec y x then 1 else 0)) as B.
    rewrite <- !count_occ_weight in B.
    assert (D : NoDup (map face (createShuffledDeck js)))
      by (apply (Permutation_NoDup (Permutation_sym P)), freshDeck_faces_NoDup).
    rewrite (NoDup_count_occ Face_eq_dec) in D. specialize (D x).
    assert (0 <= 1) by lia.
    lapply B; [intros B'; specialize (B' H); lia|].
    intros y. destruct (Face_eq_dec y x); lia.
  - pose proof (handState_cards s0 js s (fun _ => 1)) as B.
    rewrite !weight_one, !length_map in B.
    rewrite createShuffledDeck_length in B.
    lapply B; [intros B'; specialize (B' H); lia | intros _; lia].
Qed.

Lemma X9_no_card_dealt_twice_witness :
  NoDup (map face (cardsInPlay river0)) /\
  (List.length (cardsInPlay river0) <= 52)%nat.
Proof.
  apply (X9_no_card_dealt_twice game0 noSwaps river0).
  - reflexivity.
  - apply river0_reached.
Defined.

(* ================================================================== *)
(** * More on the hands of a two-player table *)

Lemma handState_frame (s0 : GameState) (js : list nat) (s : GameState) :
  tableReady s0 -> handState s0 js s ->
  dealerIndex s = ((dealerIndex s0 + 1) mod 2)%nat /\ minBet s = minBet s0.
Proof.
  intros Hready H. induction H as [s Hstart | s a amt r s' Hs IH Hact].
  - destruct (startHand_run s0 js (proj1 Hready))
      as [s1 [Hrun [Hd [_ [_ [_ [_ [Hmin _]]]]]]]].
    rewrite Hrun in Hstart. injection Hstart as <-.
    split; assumption.
  - destruct (handState_inv s0 js s Hready Hs) as [HC _].
    destruct (playerAction_run s a amt HC)
      as [[_ [_ Hrun]]|[_ [s'' [Hrun [_ [Hd [Hm _]]]]]]];
      rewrite Hrun in Hact; injection Hact as <- <-.
    + exact IH.
    + destruct IH as [IHd IHm]. split; congruence.
Qed.

(** X10.  Every state of a hand on a two-player table has two players with
    two hole cards each, an acting seat on the table, the button one seat
    after where it was before the hand, the minimum bet of the table, and
    the deck and board of its stage: 48 and 0 cards before the flop, 44 and
    3 on the flop, 42 and 4 on the turn, 40 and 5 on the river. *)
Theorem X10_hand_shape (s0 : GameState) (js : list nat) (s : GameState) :
  tableReady s0 -> validSwaps js = true -> handState s0 js s ->
  List.length (players s) = 2%nat /\
  Forall (fun p => List.length (holeCards p) = 2%nat) (players s) /\
  (currentPlayerIndex s < 2)%nat /\
  dealerIndex s = ((dealerIndex s0 + 1) mod 2)%nat /\
  minBet s = minBet s0 /\
  StageCards s.
Proof.
  intros Hready _ Hs.
  destruct (handState_inv s0 js s Hready Hs) as [[Hp Hc _ Hh Hst] _].
  destruct (handState_frame s0 js s Hready Hs) as [Hd Hm].
  repeat (split; [assumption|]). assumption.
Qed.

Lemma X10_hand_shape_witness :
  List.length (players turn0) = 2%nat /\
  Forall (fun p => List.length (holeCards p) = 2%nat) (players turn0) /\
  (currentPlayerIndex turn0 < 2)%nat /\
  dealerIndex turn0 = ((dealerIndex game0 + 1) mod 2)%nat /\
  minBet turn0 = minBet game0 /\
  StageCards turn0.
Proof.
  apply (X10_hand_shape game0 noSwaps turn0).
  - apply game0_ready.
  - reflexivity.
  - apply turn0_reached.
Defined.

(** X11.  While a hand on a two-player table is not over, it is not at the
    showdown, no stack and no stage bet is negative, nobody has folded, the
    current bet is not negative, and the stage bets are part of the pot. *)
Theorem X11_live_accounts (s0 : GameState) (js : list nat) (s : GameState) :
  tableReady s0 -> validSwaps js = true -> handState s0 js s ->
  roundOver s = false ->
  stage s <> showdownStage /\
  0 <= chipsOf s 0 /\ 0 <= chipsOf s 1 /\
  0 <= betOf s 0 /\ 0 <= betOf s 1 /\
  foldedOf s 0 = false /\ foldedOf s 1 = false /\
  0 <= currentBet s /\
  betOf s 0 + betOf s 1 <= mainPot s.
Proof.
  intros Hready _ Hs Hro.
  destruct (handState_inv s0 js s Hready Hs) as [_ HL].
  destruct (HL Hro) as [[_ St [C0 C1] [B0 B1] _ CB _ P _] [F0 F1]].
  repeat (split; [assumption|]). assumption.
Qed.

Lemma X11_live_accounts_witness :
  stage flop0 <> showdownStage /\
  0 <= chipsOf flop0 0 /\ 0 <= chipsOf flop0 1 /\
  0 <= betOf flop0 0 /\ 0 <= betOf flop0 1 /\
  foldedOf flop0 0 = false /\ foldedOf flop0 1 = false /\
  0 <= currentBet flop0 /\
  betOf flop0 0 + betOf flop0 1 <= mainPot flop0.
Proof.
  apply (X11_live_accounts game0 noSwaps flop0).
  - apply game0_ready.
  - reflexivity.
  - apply flop0_reached.
  - vm_compute. reflexivity.
Defined.

(** X12.  In a hand on a two-player table [playerAction] throws on one
    occasion only, a check by a player who owes chips, and then the state is
    as before; every other action returns: the loops that look for the next
    player end, the showdown has its seven cards and the deck its cards.  A
    hand that is over stays over when further actions are called. *)
Theorem X12_actions_return (s0 : GameState) (js : list nat) (s : GameState)
    (a : PlayerAction) (amount : Z) :
  tableReady s0 -> validSwaps js = true -> handState s0 js s ->
  (a = check /\ betOf s (currentPlayerIndex s) < currentBet s /\
   playerAction a amount s = (Err CannotCheck, s)) \/
  (~ (a = check /\ betOf s (currentPlayerIndex s) < currentBet s) /\
   exists s', playerAction a amount s = (Ok tt, s') /\
              (roundOver s = true -> roundOver s' = true)).
Proof.
  intros Hready _ Hs.
  destruct (handState_inv s0 js s Hready Hs) as [HC _].
  destruct (playerAction_run s a amount HC)
    as [H|[Hn [s' [Hrun [_ [_ [_ [Hro _]]]]]]]].
  - left. exact H.
  - right. split; [exact Hn|]. exists s'. split; assumption.
Qed.

Lemma X12_actions_return_witness :
  (raise = check /\ betOf river0 (currentPlayerIndex river0) < currentBet river0 /\
   playerAction raise 25 river0 = (Err CannotCheck, river0)) \/
  (~ (raise = check /\
      betOf river0 (currentPlayerIndex river0) < currentBet river0) /\
   exists s', playerAction raise 25 river0 = (Ok tt, s') /\
              (roundOver river0 = true -> roundOver s' = true)).
Proof.
  apply (X12_actions_return game0 noSwaps river0 raise 25).
  - apply game0_ready.
  - reflexivity.
  - apply river0_reached.
Defined.

(** X13.  On a table of two players a fold, whenever the other player has
    not folded, ends the hand at once: the action returns, the other player
    is the only winner and takes the whole pot, the folder's stack is as it
    was, the stage is the showdown, and no card is drawn. *)
Theorem X13_fold_ends_hand (s : GameState) (amount : Z) :
  let i := currentPlayerIndex s in
  let o := ((i + 1) mod 2)%nat in
  List.length (players s) = 2%nat -> (i < 2)%nat -> foldedOf s o = false ->
  exists s',
    playerAction fold amount s = (Ok tt, s') /\
    roundOver s' = true /\ stage s' = showdownStage /\
    winners s' = [o] /\ mainPot s' = 0 /\
    chipsOf s' o = chipsOf s o + mainPot s /\
    chipsOf s' i = chipsOf s i /\
    foldedOf s' i = true /\
    communityCards s' = communityCards s /\ deck s' = deck s.
Proof.
  destruct s as [dk ps cc st cur d0 pts pot mb cb ws ro lg].
  cbv zeta. cbn [players currentPlayerIndex]. intros Hp Hi Ho.
  destruct ps as [|p0 [|p1 [|p2 ps]]]; try discriminate Hp. clear Hp.
  destruct p0 as [i0 n0 ch0 b0 f0 a0 h0 e0], p1 as [i1 n1 ch1 b1 f1 a1 h1 e1].
  destruct cur as [|[|cur]]; [| |lia]; cbn in Ho; subst;
    [destruct (ch1 =? 0) eqn:E | destruct (ch0 =? 0) eqn:E];
    eexists;
    (split;
     [ exec; rewrite E; exec; rewrite Z.div_1_r, Z.rem_1_r;
       change (0 >? 0) with false; exec; reflexivity
     | exec; repeat split ]).
Qed.

Lemma X13_fold_ends_hand_witness :
  exists s',
    playerAction fold 0 hand0 = (Ok tt, s') /\
    roundOver s' = true /\ stage s' = showdownStage /\
    winners s' = [((currentPlayerIndex hand0 + 1) mod 2)%nat] /\
    mainPot s' = 0 /\
    chipsOf s' ((currentPlayerIndex hand0 + 1) mod 2)
    = chipsOf hand0 ((currentPlayerIndex hand0 + 1) mod 2) + mainPot hand0 /\
    chipsOf s' (currentPlayerIndex hand0)
    = chipsOf hand0 (currentPlayerIndex hand0) /\
    foldedOf s' (currentPlayerIndex hand0) = true /\
    communityCards s' = communityCards hand0 /\ deck s' = deck hand0.
Proof.
  apply (X13_fold_ends_hand hand0 0).
  - reflexivity.
  - vm_compute. lia.
  - vm_compute. reflexivity.
Defined.

(* ================================================================== *)
(** * The strength the AI gives a hand, and what the AI does *)

Lemma preflop_range (c1 c2 : Card) :
  exists q,
    calculatePreflopHandStrength [c1; c2] = Some q /\
    (0.2 <= q)%Q /\ (q <= 0.9)%Q /\
    (rank c1 = rank c2 -> (0.5 <= q)%Q) /\
    (rank c1 <> rank c2 -> (q <= 0.85)%Q) /\
    ((q == 0.9)%Q -> rank c1 = RA /\ rank c2 = RA).
Proof.
  destruct c1 as [s1 r1 h1], c2 as [s2 r2 h2]. cbn [rank].
  destruct r1, r2, s1, s2;
    (eexists; split; [vm_compute; reflexivity|]);
    vm_compute; repeat split; congruence.
Qed.

(** X14.  The preflop strength of two hole cards is a number between 0.2
    and 0.9: at least 0.5 for a pair, at most 0.85 for two different ranks,
    so that the cap of 0.95 is never reached, and 0.9 for a pair of aces
    alone. *)
Theorem X14_preflop_strength_range (c1 c2 : Card) :
  exists q,
    calculatePreflopHandStrength [c1; c2] = Some q /\
    (0.2 <= q)%Q /\ (q <= 0.9)%Q /\
    (rank c1 = rank c2 -> (0.5 <= q)%Q) /\
    (rank c1 <> rank c2 -> (q <= 0.85)%Q) /\
    ((q == 0.9)%Q -> rank c1 = RA /\ rank c2 = RA).
Proof. apply preflop_range. Qed.




Lemma highestPair_fold (m : RankCounts) :
  (forall k n, In (k, n) m -> 0 <= k <= 14) ->
  forall acc, 0 <= acc <= 14 ->
    0 <= fold_left
           (fun highestPair e =>
              if Nat.eqb (snd e) 2 && (fst e >? highestPair) then fst e
              else highestPair) m acc <= 14.
Proof.
  induction m as [|[k n] m IH]; intros Hm acc Hacc; cbn [fold_left];
    [exact Hacc|].
  apply IH; [intros k' n' H; apply (Hm k' n'); right; exact H|].
  cbn [fst snd].
  destruct (Nat.eqb n 2 && (k >? acc)); [|exact Hacc].
  apply (Hm k n). left. reflexivity.
Qed.

Lemma getHighestPairValue_bounds (cards : list Card) :
  0 <= getHighestPairValue cards <= 14.
Proof.
  unfold getHighestPairValue. apply highestPair_fold; [|lia].
  intros k n Hin. apply countRanks_In in Hin. destruct Hin as [-> Hpos].
  apply occ_pos_In in Hpos. destruct Hpos as [c [_ <-]].
  pose proof (rk_bounds c). lia.
Qed.

Ltac qtenth :=
  unfold Qdiv; change (/ 14)%Q with (1 # 14)%Q.

(** The strength of a category is in the tenth of the scale that belongs to
    it. *)
Lemma rankStrength_range (e : HandEvaluation) :
  he_cards e <> [] ->
  exists q, rankStrength e = Ok q /\
            (inject_Z (rankOrdinal (he_rank e)) / 10 <= q)%Q /\ (q <= 1)%Q.
Proof.
  intros Hne. unfold rankStrength.
  destruct (he_cards e) as [|c cs] eqn:Ec; [congruence|]. clear Hne.
  pose proof (injZ_rank _ (rk_bounds c)) as Hc.
  pose proof (injZ_rank0 _ (rankWithCount_bounds 2 (c :: cs))) as H2.
  pose proof (injZ_rank0 _ (rankWithCount_bounds 3 (c :: cs))) as H3.
  pose proof (injZ_rank0 _ (rankWithCount_bounds 4 (c :: cs))) as H4.
  pose proof (injZ_rank0 _ (getHighestPairValue_bounds (c :: cs))) as Hh.
  unfold getPairValue, getThreeKindValue, getFourKindValue, getHighCardValue.
  destruct (he_rank e); cbn [firstCard rbind rankOrdinal];
    eexists; (split; [reflexivity|]);
    match goal with
    | |- context [(inject_Z ?z / 10)%Q] =>
        let x := eval cbv in (inject_Z z / 10)%Q in
        change (inject_Z z / 10)%Q with x
    end;
    qtenth; split; lra.
Qed.

Lemma acting_player (s : GameState) :
  Core s ->
  exists ai c1 c2,
    nth_error (players s) (currentPlayerIndex s) = Some ai /\
    holeCards ai = [c1; c2].
Proof.
  intros [Hp Hc _ Hh _].
  destruct (nth_error (players s) (currentPlayerIndex s)) as [ai|] eqn:E;
    [|apply nth_error_None in E; lia].
  rewrite Forall_forall in Hh. specialize (Hh ai (nth_error_In _ _ E)).
  destruct (holeCards ai) as [|c1 [|c2 [|c3 t]]] eqn:Eh; try discriminate Hh.
  exists ai, c1, c2. split; [reflexivity | exact Eh].
Qed.

(** In a hand that is not at the showdown [calculateAIHandStrength] returns
    a number, and leaves the state as it is. *)
Lemma strength_run (s : GameState) :
  Core s -> stage s <> showdownStage ->
  exists q, calculateAIHandStrength s = (Ok (Some q), s) /\
            (0.085 <= q)%Q /\ (q <= 1)%Q.
Proof.
  intros HC Hst. destruct (acting_player s HC) as [ai [c1 [c2 [Hp Hh]]]].
  pose proof (core_cards s HC) as Hcards. unfold StageCards in Hcards.
  unfold calculateAIHandStrength, getCurrentPlayer, bind, get, getPlayer.
  rewrite Hp.
  assert (Hpost : (5 <= List.length (communityCards s))%nat \/
                  (3 <= List.length (communityCards s))%nat ->
          exists e q0,
            evaluateHand (holeCards ai ++ communityCards s) = Ok e /\
            rankStrength e = Ok q0 /\ (0.1 <= q0)%Q /\ (q0 <= 1)%Q).
  { intros Hlen.
    destruct (evaluateHand_spec (holeCards ai ++ communityCards s))
      as [e [c [He [_ [Hl [Hc _]]]]]].
    { rewrite length_app, Hh. cbn [List.length]. lia. }
    destruct (rankStrength_range e) as [q0 [Hq [Hlo Hhi]]].
    { rewrite Hc. intros E. apply (f_equal (@List.length Card)) in E.
      rewrite sortByRankDesc_length, Hl in E. discriminate E. }
    exists e, q0. split; [exact He|]. split; [exact Hq|].
    split; [|exact Hhi].
    pose proof (injZ_between 1 _ 10 (rankOrdinal_bounds (he_rank e))) as B.
    revert Hlo. unfold Qdiv. change (/ 10)%Q with (1 # 10)%Q.
    destruct B as [B _]. change (inject_Z 1) with 1%Q in B. lra. }
  destruct (stage s) eqn:Es; try congruence.
  - destruct (preflop_range c1 c2) as [q [Hq [Hlo [Hhi _]]]].
    exists q. rewrite Hh, Hq. split; [reflexivity|]. split; lra.
  - destruct Hpost as [e [q0 [He [Hq [Hlo Hhi]]]]]; [right; lia|].
    unfold liftR. rewrite He, Hq. eexists. split; [reflexivity|]. split; lra.
  - destruct Hpost as [e [q0 [He [Hq [Hlo Hhi]]]]]; [right; lia|].
    unfold liftR. rewrite He, Hq. eexists. split; [reflexivity|]. split; lra.
  - destruct Hpost as [e [q0 [He [Hq [Hlo Hhi]]]]]; [right; lia|].
    unfold liftR. rewrite He, Hq. eexists. split; [reflexivity|]. split; lra.
Qed.

(** X16.  While a hand on a two-player table is not over, the strength the
    AI computes for the acting player is a number between 0.085 and 1, and
    computing it throws nothing and changes nothing. *)
Theorem X16_ai_strength (s0 : GameState) (js : list nat) (s : GameState) :
  tableReady s0 -> validSwaps js = true -> handState s0 js s ->
  roundOver s = false ->
  exists q, calculateAIHandStrength s = (Ok (Some q), s) /\
            (0.085 <= q)%Q /\ (q <= 1)%Q.
Proof.
  intros Hready _ Hs Hro.
  destruct (handState_inv s0 js s Hready Hs) as [HC HL].
  apply strength_run; [exact HC|].
  apply (settling_stage _ _ (proj1 (HL Hro))).
Qed.

Lemma X16_ai_strength_witness :
  exists q, calculateAIHandStrength turn0 = (Ok (Some q), turn0) /\
            (0.085 <= q)%Q /\ (q <= 1)%Q.
Proof.
  apply (X16_ai_strength game0 noSwaps turn0).
  - apply game0_ready.
  - reflexivity.
  - apply turn0_reached.
  - vm_compute. reflexivity.
Defined.

Lemma betOf_acting (s : GameState) (ai : Player) :
  nth_error (players s) (currentPlayerIndex s) = Some ai ->
  betOf s (currentPlayerIndex s) = bet ai.
Proof. intros H. unfold betOf. rewrite H. reflexivity. Qed.

(** What [aiAction] does on a state where the strength is computed: one
    call of [playerAction], chosen as follows. *)
Lemma aiAction_run (s : GameState) (ai : Player) (bits : Z) :
  Core s -> stage s <> showdownStage ->
  nth_error (players s) (currentPlayerIndex s) = Some ai ->
  isAI ai = true ->
  exists a amt r s',
    playerAction a amt s = (r, s') /\
    aiAction bits s
    = (match r with Ok _ => AiDone | Err e => AiThrown e end, s') /\
    a <> allin /\
    (a = raise -> minBet s <= amt) /\
    (chips ai = 0 -> a = check) /\
    (chips ai <> 0 -> bet ai = currentBet s -> a = check \/ a = raise) /\
    (chips ai <> 0 -> bet ai <> currentBet s ->
     a = raise \/ a = call \/ a = fold) /\
    (chips ai <> 0 -> r = Ok tt).
Proof.
  intros HC Hst Hp Hai.
  destruct (strength_run s HC Hst) as [q [Hq _]].
  pose proof (betOf_acting s ai Hp) as Hbet.
  assert (Hwrap : forall a amt, exists r s',
            playerAction a amt s = (r, s') /\
            match playerAction a amt s with
            | (Ok _, s2) => (AiDone, s2)
            | (Err e, s2) => (AiThrown e, s2)
            end
            = (match r with Ok _ => AiDone | Err e => AiThrown e end, s')).
  { intros a amt. destruct (playerAction a amt s) as [[[]|e] s2];
      do 2 eexists; split; reflexivity. }
  unfold aiAction, getCurrentPlayer, bind, get, getPlayer.
  rewrite Hp, Hai. cbn [negb].
  unfold aiDecision, bind. rewrite Hq. unfold get.
  repeat match goal with
         | |- context [if ?c then _ else _] => destruct c eqn:?
         end;
    match goal with
    | |- context [playerAction ?A ?AMT s] =>
        destruct (Hwrap A AMT) as [r [s' [H1 H2]]];
        exists A, AMT, r, s';
        split; [exact H1|]; split; [exact H2|];
        destruct (playerAction_run s A AMT HC)
          as [[Ea [Hlt Hrun]]|[_ [s'' [Hrun _]]]];
        rewrite Hrun in H1; injection H1 as <- <-
    end;
    boolZ; rewrite ?Hbet in *;
    repeat split; intros; try discriminate; try reflexivity; try lia;
    try (left; reflexivity); try (right; left; reflexivity);
    try (right; reflexivity); try (right; right; reflexivity).
Qed.

(** X17.  While a hand on a two-player table is not over, a turn of the AI
    is one call of [playerAction], with its outcome: never an all-in; a
    raise by no less than the minimum bet; a check when the AI has no
    chips; with chips, a check or a raise when nothing is owed, and a
    raise, a call or a fold otherwise; and with chips the turn returns. *)
Theorem X17_ai_turn (s0 : GameState) (js : list nat) (s : GameState)
    (ai : Player) (bits : Z) :
  tableReady s0 -> validSwaps js = true -> handState s0 js s ->
  roundOver s = false ->
  nth_error (players s) (currentPlayerIndex s) = Some ai ->
  isAI ai = true ->
  exists a amt r s',
    playerAction a amt s = (r, s') /\
    aiAction bits s
    = (match r with Ok _ => AiDone | Err e => AiThrown e end, s') /\
    a <> allin /\
    (a = raise -> minBet s <= amt) /\
    (chips ai = 0 -> a = check) /\
    (chips ai <> 0 -> bet ai = currentBet s -> a = check \/ a = raise) /\
    (chips ai <> 0 -> bet ai <> currentBet s ->
     a = raise \/ a = call \/ a = fold) /\
    (chips ai <> 0 -> r = Ok tt).
Proof.
  intros Hready _ Hs Hro Hp Hai.
  destruct (handState_inv s0 js s Hready Hs) as [HC HL].
  apply aiAction_run; try assumption.
  apply (settling_stage _ _ (proj1 (HL Hro))).
Qed.

Lemma X17_ai_turn_witness :
  exists a amt r s',
    playerAction a amt hand0 = (r, s') /\
    aiAction 0 hand0
    = (match r with Ok _ => AiDone | Err e => AiThrown e end, s') /\
    a <> allin.
Proof.
  assert (H : exists ai,
            nth_error (players hand0) (currentPlayerIndex hand0) = Some ai /\
            isAI ai = true)
    by (eexists; split; [vm_compute; reflexivity | reflexivity]).
  destruct H as [ai [Hp Hai]].
  destruct (X17_ai_turn game0 noSwaps hand0 ai 0)
    as [a [amt [r [s' [H1 [H2 [H3 _]]]]]]].
  - apply game0_ready.
  - reflexivity.
  - apply hand0_started.
  - vm_compute. reflexivity.
  - exact Hp.
  - exact Hai.
  - exists a, amt, r, s'. split; [exact H1|]. split; [exact H2 | exact H3].
Defined.

(** X18.  While a hand on a two-player table is not over, the turn of an AI
    that has no chips is a check: when the AI owes chips to the current bet
    [aiAction] throws the error of the check and the state is as before;
    when it owes nothing the turn returns. *)
Theorem X18_ai_without_chips (s0 : GameState) (js : list nat)
    (s : GameState) (ai : Player) (bits : Z) :
  tableReady s0 -> validSwaps js = true -> handState s0 js s ->
  roundOver s = false ->
  nth_error (players s) (currentPlayerIndex s) = Some ai ->
  isAI ai = true -> chips ai = 0 ->
  (bet ai < currentBet s -> aiAction bits s = (AiThrown CannotCheck, s)) /\
  (currentBet s <= bet ai ->
   exists amt s', playerAction check amt s = (Ok tt, s') /\
                  aiAction bits s = (AiDone, s')).
Proof.
  intros Hready _ Hs Hro Hp Hai Hch.
  destruct (handState_inv s0 js s Hready Hs) as [HC HL].
  destruct (aiAction_run s ai bits HC
              (settling_stage _ _ (proj1 (HL Hro))) Hp Hai)
    as [a [amt [r [s' [H1 [H2 [_ [_ [Hc _]]]]]]]]].
  specialize (Hc Hch). subst a. split.
  - intros Hlt. rewrite (check_owed s amt ai Hp Hlt) in H1.
    injection H1 as <- <-. exact H2.
  - intros Hge.
    destruct (playerAction_run s check amt HC)
      as [[_ [Hlt _]]|[_ [s'' [Hrun _]]]].
    + rewrite (betOf_acting s ai Hp) in Hlt. lia.
    + rewrite Hrun in H1. injection H1 as <- <-.
      exists amt, s''. split; [exact Hrun | exact H2].
Qed.

Lemma X18_ai_without_chips_witness :
  aiAction 0 brokeHand = (AiThrown CannotCheck, brokeHand).
Proof.
  eapply (fun ai H1 H2 H3 H4 H5 H6 H7 =>
            proj1 (X18_ai_without_chips brokeGame noSwaps brokeHand ai 0
                     H1 H2 H3 H4 H5 H6 H7)).
  - split; [reflexivity|]. split; [|cbv; discriminate].
    repeat constructor; cbv; discriminate.
  - reflexivity.
  - apply hand_started. vm_compute. reflexivity.
  - vm_compute. reflexivity.
  - vm_compute. reflexivity.
  - reflexivity.
  - reflexivity.
  - vm_compute. reflexivity.
Defined.

(* ================================================================== *)
(** * The showdown between two players *)

Ltac run_showdown :=
  repeat (progress
            (exec;
             repeat match goal with
                    | H : evaluateHand _ = _ |- _ => rewrite H
                    | H : (_ <=? _) = _ |- _ => rewrite H
                    | H : (_ =? _) = _ |- _ => rewrite H
                    | H : (Z.rem _ _ >? _) = _ |- _ => rewrite H
                    end;
             rewrite ?Z.div_1_r, ?Z.rem_1_r;
             change (0 >? 0) with false)).

(** X19.  The showdown of two players who have not folded and hold five
    cards or more each with the board returns; it turns the hole cards face
    up, gives each player the evaluation of the hole cards with the board,
    and names the winners by the [value] of the evaluations alone: the
    player with the larger one, and both, seat 0 first, when the two are
    equal.  The pot is paid to the winners, the hand is over, and neither
    the board nor the deck changes. *)
Theorem X19_showdown_awards (s : GameState) (p0 p1 : Player) :
  players s = [p0; p1] ->
  folded p0 = false -> folded p1 = false ->
  (5 <= List.length (holeCards p0 ++ communityCards s))%nat ->
  (5 <= List.length (holeCards p1 ++ communityCards s))%nat ->
  0 <= mainPot s ->
  exists s' e0 e1,
    showdown s = (Ok tt, s') /\
    evaluateHand (map showCard (holeCards p0) ++ communityCards s) = Ok e0 /\
    evaluateHand (map showCard (holeCards p1) ++ communityCards s) = Ok e1 /\
    map handEvaluation (players s') = [Some e0; Some e1] /\
    winners s' = (if value e0 >? value e1 then [0%nat]
                  else if value e1 >? value e0 then [1%nat]
                  else [0%nat; 1%nat]) /\
    Paid s s' /\
    roundOver s' = true /\ stage s' = showdownStage /\
    map holeCards (players s')
    = [map showCard (holeCards p0); map showCard (holeCards p1)] /\
    communityCards s' = communityCards s /\ deck s' = deck s.
Proof.
  destruct s as [dk ps cc st cur dl pts pot mb cb ws ro lg].
  cbn [players communityCards mainPot deck]. intros -> F0 F1 L0 L1 Hpot.
  destruct p0 as [i0 n0 ch0 b0 f0 a0 h0 v0], p1 as [i1 n1 ch1 b1 f1 a1 h1 v1].
  cbn [folded holeCards] in *. subst f0 f1.
  destruct (evaluateHand_spec (map showCard h0 ++ cc)) as [e0 [c0 [He0 _]]];
    [rewrite length_app, length_map in *; exact L0|].
  destruct (evaluateHand_spec (map showCard h1 ++ cc)) as [e1 [c1 [He1 _]]];
    [rewrite length_app, length_map in *; exact L1|].
  destruct (value e1 - value e0 <=? 0) eqn:E1;
    [destruct (value e1 =? value e0) eqn:E2
    |destruct (value e0 =? value e1) eqn:E2];
    destruct (Z.rem pot 2 >? 0) eqn:E3;
    exists (run showdown
              (mkState dk
                 [mkPlayer i0 n0 ch0 b0 false a0 h0 v0;
                  mkPlayer i1 n1 ch1 b1 false a1 h1 v1]
                 cc st cur dl pts pot mb cb ws ro lg)), e0, e1;
    (split; [run_showdown; reflexivity|]);
    (split; [exact He0|]); (split; [exact He1|]);
    run_showdown; boolZ;
    (split; [reflexivity|]);
    (split; [repeat branch; boolZ; first [reflexivity | exfalso; lia]|]);
    (split; [|repeat split]);
    unfold Paid; exec; (split; [reflexivity|]);
    first [ left; repeat split; (reflexivity || divlia)
          | right; left; repeat split; (reflexivity || divlia)
          | right; right; repeat split; (reflexivity || divlia) ].
Qed.

Lemma X19_showdown_awards_witness :
  exists s', showdown river0 = (Ok tt, s') /\ roundOver s' = true.
Proof.
  assert (H : exists p0 p1,
            players river0 = [p0; p1] /\
            folded p0 = false /\ folded p1 = false /\
            (5 <= List.length (holeCards p0 ++ communityCards river0))%nat /\
            (5 <= List.length (holeCards p1 ++ communityCards river0))%nat).
  { do 2 eexists. split; [vm_compute; reflexivity|].
    split; [reflexivity|]. split; [reflexivity|].
    split; vm_compute; lia. }
  destruct H as [p0 [p1 [Hp [F0 [F1 [L0 L1]]]]]].
  destruct (X19_showdown_awards river0 p0 p1 Hp F0 F1 L0 L1)
    as [s' [e0 [e1 [H1 [_ [_ [_ [_ [_ [Hro _]]]]]]]]]].
  - vm_compute. discriminate.
  - exists s'. split; [exact H1 | exact Hro].
Defined.

(* ================================================================== *)
(** * The chips on the screen *)

Lemma whileChips_run (v : Z) :
  0 < v ->
  forall fuel chips r,
    0 <= r -> (Z.to_nat (r / v) < fuel)%nat ->
    whileChips fuel v chips r
    = Ok (chips ++ repeat v (Z.to_nat (r / v)), r mod v).
Proof.
  intros Hv. induction fuel as [|fuel IH]; intros chips r Hr Hf; [lia|].
  cbn [whileChips]. destruct (r >=? v) eqn:E.
  - apply Z.geb_le in E.
    assert (Hd : (r - v) / v = r / v - 1 /\ (r - v) mod v = r mod v).
    { replace (r - v) with (r + (-1) * v) by lia.
      rewrite Z.div_add, Z_mod_plus_full by lia. split; lia. }
    destruct Hd as [Hd Hm].
    assert (Hq : 1 <= r / v) by (apply Z.div_le_lower_bound; lia).
    rewrite IH by lia. rewrite Hd, Hm.
    replace (Z.to_nat (r / v)) with (S (Z.to_nat (r / v - 1))) by lia.
    cbn [repeat]. rewrite <- app_assoc. reflexivity.
  - rewrite Z.geb_leb in E. apply Z.leb_gt in E.
    rewrite Z.div_small, Z.mod_small by lia.
    cbn [Z.to_nat repeat]. rewrite app_nil_r. reflexivity.
Qed.

Lemma fuel_enough (v r : Z) :
  0 < v -> 0 <= r -> (Z.to_nat (r / v) < S (Z.to_nat r))%nat.
Proof.
  intros Hv Hr.
  assert (r / v <= r) by (apply Z.div_le_upper_bound; nia).
  assert (0 <= r / v) by (apply Z.div_pos; lia).
  lia.
Qed.

Lemma sumZ_app (l1 l2 : list Z) : sumZ (l1 ++ l2) = sumZ l1 + sumZ l2.
Proof.
  induction l1 as [|x l1 IH]; cbn [app sumZ fold_right]; [reflexivity|].
  unfold sumZ in *. cbn [fold_right]. rewrite IH. lia.
Qed.

Lemma sumZ_repeat (v : Z) (n : nat) : sumZ (repeat v n) = v * Z.of_nat n.
Proof.
  induction n as [|n IH]; [cbn; lia|].
  cbn [repeat]. change (v :: repeat v n) with ([v] ++ repeat v n).
  rewrite sumZ_app, IH. cbn. lia.
Qed.

Lemma sortedChipValues_eq : sortedChipValues = [500; 100; 25; 5; 1].
Proof. reflexivity. Qed.

(** The chips of an amount: as many of each value as fit, from the highest
    value down. *)
Lemma forChips_run (amount : Z) :
  0 <= amount ->
  forChips sortedChipValues [] amount
  = Ok (repeat 500 (Z.to_nat (amount / 500))
        ++ repeat 100 (Z.to_nat (amount mod 500 / 100))
        ++ repeat 25 (Z.to_nat (amount mod 100 / 25))
        ++ repeat 5 (Z.to_nat (amount mod 25 / 5))
        ++ repeat 1 (Z.to_nat (amount mod 5)), 0).
Proof.
  intros Ha. rewrite sortedChipValues_eq. cbn [forChips].
  pose proof (Z.mod_pos_bound amount 500 ltac:(lia)) as B1.
  pose proof (Z.mod_pos_bound (amount mod 500) 100 ltac:(lia)) as B2.
  pose proof (Z.mod_pos_bound ((amount mod 500) mod 100) 25 ltac:(lia)) as B3.
  pose proof (Z.mod_pos_bound (((amount mod 500) mod 100) mod 25) 5
                ltac:(lia)) as B4.
  rewrite (whileChips_run 500) by (try apply fuel_enough; lia).
  rewrite (whileChips_run 100) by (try apply fuel_enough; lia).
  rewrite (whileChips_run 25) by (try apply fuel_enough; lia).
  rewrite (whileChips_run 5) by (try apply fuel_enough; lia).
  rewrite (whileChips_run 1) by (try apply fuel_enough; lia).
  rewrite Z.mod_1_r, Z.div_1_r.
  replace ((amount mod 500) mod 100) with (amount mod 100)
    by (Z.to_euclidean_division_equations; lia).
  replace ((amount mod 100) mod 25) with (amount mod 25)
    by (Z.to_euclidean_division_equations; lia).
  replace ((amount mod 25) mod 5) with (amount mod 5)
    by (Z.to_euclidean_division_equations; lia).
  rewrite <- !app_assoc. reflexivity.
Qed.

(** X20.  For an amount above zero [ChipStack] breaks the amount down into
    chips that add up to it: as many chips of 500 as fit, then of 100, of
    25, of 5 and of 1; the remainder that the code would round up to one
    more chip is always zero.  It shows the first five chips and counts the
    others.  For an amount of zero or less it shows nothing. *)
Theorem X20_chip_stack (amount : Z) :
  (amount <= 0 -> ChipStack amount = Ok None) /\
  (0 < amount ->
   exists chips,
     stackChips amount = Ok chips /\
     chips = repeat 500 (Z.to_nat (amount / 500))
             ++ repeat 100 (Z.to_nat (amount mod 500 / 100))
             ++ repeat 25 (Z.to_nat (amount mod 100 / 25))
             ++ repeat 5 (Z.to_nat (amount mod 25 / 5))
             ++ repeat 1 (Z.to_nat (amount mod 5)) /\
     sumZ chips = amount /\
     ChipStack amount
     = Ok (Some (firstn 5 chips, (List.length chips - 5)%nat))).
Proof.
  split.
  - intros H. unfold ChipStack.
    replace (amount <=? 0) with true by lia. reflexivity.
  - intros H. eexists. split; [|split; [reflexivity|split]].
    + unfold stackChips. rewrite forChips_run by lia. reflexivity.
    + rewrite !sumZ_app, !sumZ_repeat.
      pose proof (Z.mod_pos_bound amount 5 ltac:(lia)).
      assert (0 <= amount / 500) by (apply Z.div_pos; lia).
      assert (0 <= amount mod 500 / 100)
        by (apply Z.div_pos; [apply Z.mod_pos_bound|]; lia).
      assert (0 <= amount mod 100 / 25)
        by (apply Z.div_pos; [apply Z.mod_pos_bound|]; lia).
      assert (0 <= amount mod 25 / 5)
        by (apply Z.div_pos; [apply Z.mod_pos_bound|]; lia).
      rewrite !Z2Nat.id by lia.
      Z.to_euclidean_division_equations; lia.
    + unfold ChipStack, stackChips.
      replace (amount <=? 0) with false by lia.
      rewrite forChips_run by lia. cbv zeta.
      change (0 >? 0) with false. cbv iota.
      rewrite length_firstn.
      do 3 f_equal. lia.
Qed.

Lemma X20_chip_stack_witness :
  exists chips,
    stackChips 1337 = Ok chips /\
    chips = repeat 500 (Z.to_nat (1337 / 500))
            ++ repeat 100 (Z.to_nat (1337 mod 500 / 100))
            ++ repeat 25 (Z.to_nat (1337 mod 100 / 25))
            ++ repeat 5 (Z.to_nat (1337 mod 25 / 5))
            ++ repeat 1 (Z.to_nat (1337 mod 5)) /\
    sumZ chips = 1337 /\
    ChipStack 1337
    = Ok (Some (firstn 5 chips, (List.length chips - 5)%nat)).
Proof. apply (proj2 (X20_chip_stack 1337)). lia. Defined.

(** X21.  The chip that [PokerChip] draws for a value is the chip type
    whose value is nearest to it, and of two chip types equally near the
    one of lower value. *)
Theorem X21_nearest_chip (v : Z) :
  In (chipType v) CHIP_TYPES /\
  forall c, In c CHIP_TYPES ->
    Z.abs (chipValue (chipType v) - v) <= Z.abs (chipValue c - v) /\
    (Z.abs (chipValue (chipType v) - v) = Z.abs (chipValue c - v) ->
     chipValue (chipType v) <= chipValue c).
Proof.
  unfold chipType, CHIP_TYPES. cbn [fold_left chipValue].
  repeat match goal with
         | |- context [if ?c then _ else _] =>
             lazymatch c with
             | context [if _ then _ else _] => fail
             | _ => destruct c eqn:?; cbn [chipValue]
             end
         end;
    boolZ;
    (split; [cbn; tauto|]);
    intros c [<-|[<-|[<-|[<-|[<-|[]]]]]]; cbn [chipValue]; lia.
Qed.

(* ================================================================== *)
(** * From one hand to the next *)

Lemma twoPlayers_chips (s : GameState) :
  List.length (players s) = 2%nat ->
  0 <= chipsOf s 0 -> 0 <= chipsOf s 1 ->
  Forall (fun p => 0 <= chips p) (players s).
Proof.
  intros H. unfold chipsOf.
  destruct (players s) as [|p0 [|p1 [|p2 ps]]]; try discriminate H.
  cbn [nth_error]. intros H0 H1. repeat constructor; assumption.
Qed.

(** The table a hand leaves when it ends. *)
Lemma hand_end (t s' : GameState) :
  tableReady t -> handPlayed t s' ->
  tableReady s' /\ totalChips s' = totalChips t /\
  minBet s' = minBet t /\ mainPot s' = 0 /\
  dealerIndex s' = ((dealerIndex t + 1) mod 2)%nat.
Proof.
  intros Hready [js [s [a [amount [r [_ [Hs [Hro [Hact Hro']]]]]]]]].
  destruct (handState_inv t js s Hready Hs) as [HC HL].
  destruct (handState_frame t js s Hready Hs) as [Hd Hm].
  specialize (HL Hro).
  destruct (playerAction_run s a amount HC)
    as [[_ [_ Hrun]]|[_ [s'' [Hrun [HC' [Hd' [Hm' [_ Hset]]]]]]]];
    rewrite Hrun in Hact; injection Hact as <- <-; [congruence|].
  destruct (Hset _ HL) as [[Hf _]|[_ HP]]; [congruence|].
  destruct (actionSwitch_run s a amount HC)
    as [[_ [_ Hsw]]|[_ [s1 [Hsw [HC1 [_ [_ [_ Hs1]]]]]]]].
  { unfold playerAction, bind in Hrun. rewrite Hsw in Hrun. discriminate. }
  unfold run in HP. rewrite Hsw in HP. cbn [snd] in HP.
  destruct (Hs1 _ HL) as [_ _ [C0 C1] [B0 B1] _ _ _ P Tot].
  assert (Hpot : 0 <= mainPot s1) by lia.
  assert (Hdiv : mainPot s1 = 2 * (mainPot s1 / 2) + mainPot s1 mod 2)
    by (apply Z.div_mod; lia).
  pose proof (Z.mod_pos_bound (mainPot s1) 2 ltac:(lia)) as Hmod.
  assert (Hhalf : 0 <= mainPot s1 / 2) by (apply Z.div_pos; lia).
  destruct HP as [Hz HP].
  assert (Hch : 0 <= chipsOf s'' 0 /\ 0 <= chipsOf s'' 1 /\
                chipsOf s'' 0 + chipsOf s'' 1 = totalChips t).
  { destruct HP as [[_ [E0 E1]]|[[_ [E0 E1]]|[_ [E0 E1]]]];
      rewrite E0, E1; repeat split; lia. }
  destruct Hch as [H0 [H1 Htot]].
  pose proof (core_players s'' HC') as Hp.
  split; [|split; [|split; [|split]]].
  - split; [exact Hp|]. split; [apply twoPlayers_chips; assumption|].
    destruct Hready as [_ [_ Hmb]]. lia.
  - rewrite (twoPlayers_total s'' Hp). exact Htot.
  - congruence.
  - exact Hz.
  - congruence.
Qed.

(** X22.  Through any number of hands played one after the other on a
    two-player table, each started when the one before has ended, the
    table is ready for the next hand when a hand ends: two players, no
    negative stack, an empty pot, and in the stacks all the chips the table
    began with; the minimum bet is the one it began with. *)
Theorem X22_chips_kept_between_hands (s0 t : GameState) :
  tableReady s0 -> tableAfter s0 t ->
  tableReady t /\ totalChips t = totalChips s0 /\ minBet t = minBet s0 /\
  (t <> s0 -> mainPot t = 0).
Proof.
  intros Hready H. induction H as [|t t' Hplayed Hafter IH].
  - repeat split; try apply Hready. congruence.
  - destruct IH as [Hr [Ht [Hm _]]].
    destruct (hand_end t t' Hr Hplayed) as [Hr' [Ht' [Hm' [Hz _]]]].
    split; [exact Hr'|]. split; [congruence|]. split; [congruence|].
    intros _. exact Hz.
Qed.

Lemma X22_chips_kept_between_hands_witness :
  tableReady showdown0 /\ totalChips showdown0 = totalChips game0 /\
  minBet showdown0 = minBet game0 /\
  (showdown0 <> game0 -> mainPot showdown0 = 0).
Proof.
  apply (X22_chips_kept_between_hands game0 showdown0).
  - apply game0_ready.
  - apply (Relation_Operators.rtn1_trans _ _ _ game0);
      [|apply Relation_Operators.rtn1_refl].
    exists noSwaps, river0, check, 0, (Ok tt).
    split; [reflexivity|]. split; [apply river0_reached|].
    split; [vm_compute; reflexivity|].
    split; vm_compute; reflexivity.
Defined.

(* ================================================================== *)
(** * What no action touches, on a table of any size *)

Section Frame.
Variable R : GameState -> GameState -> Prop.
Hypothesis R_refl : forall s, R s s.
Hypothesis R_trans : forall s1 s2 s3, R s1 s2 -> R s2 s3 -> R s1 s3.

Lemma frame_bind {A B} (m : M A) (f : A -> M B) :
  post m R -> (forall a, post (f a) R) -> post (bind m f) R.
Proof. intros Hm Hf. eapply post_bind; eauto. Qed.

Lemma frame_same {A} (m : M A) : (forall s, snd (m s) = s) -> post m R.
Proof.
  intros H s r s' E. specialize (H s). rewrite E in H. cbn in H. subst s'.
  apply R_refl.
Qed.

Lemma frame_getPlayer (i : nat) : post (getPlayer i) R.
Proof.
  apply frame_same. intros s. unfold getPlayer.
  destruct (nth_error (players s) i); reflexivity.
Qed.

Lemma frame_modify (f : GameState -> GameState) :
  (forall s, R s (f s)) -> post (modify f) R.
Proof. intros H s r s' E. injection E as _ <-. apply H. Qed.

Lemma frame_forEach {A} (xs : list A) (body : A -> M unit) :
  (forall x, post (body x) R) -> post (forEach xs body) R.
Proof.
  intros H. induction xs as [|x xs IH]; cbn [forEach].
  - apply post_ret, R_refl.
  - apply frame_bind; [apply H | intros _; exact IH].
Qed.
End Frame.

Lemma tableKept_refl (s : GameState) : tableKept s s.
Proof.
  repeat split; exists []; rewrite app_nil_r; reflexivity.
Qed.

Lemma tableKept_trans (s1 s2 s3 : GameState) :
  tableKept s1 s2 -> tableKept s2 s3 -> tableKept s1 s3.
Proof.
  intros [P1 [D1 [M1 [S1 [[c1 C1] [[d1 K1] [l1 L1]]]]]]]
         [P2 [D2 [M2 [S2 [[c2 C2] [[d2 K2] [l2 L2]]]]]]].
  split; [congruence|]. split; [congruence|]. split; [congruence|].
  split; [congruence|]. split; [|split].
  - exists (c1 ++ c2). rewrite C2, C1, app_assoc. reflexivity.
  - exists (d2 ++ d1). rewrite K1, K2, app_assoc. reflexivity.
  - exists (l1 ++ l2). rewrite L2, L1, app_assoc. reflexivity.
Qed.

Ltac kept_state :=
  intros ?; unfold tableKept;
  cbn [players communityCards deck dealerIndex minBet pots log
       set_deck set_players set_communityCards set_stage
       set_currentPlayerIndex set_dealerIndex set_pots set_mainPot
       set_currentBet set_winners set_roundOver set_log];
  repeat split;
  first [ eexists; reflexivity
        | exists []; rewrite app_nil_r; reflexivity ].

Lemma seats_updAt (i : nat) (g : Player -> Player) (ps : list Player) :
  (forall p, seatOf (g p) = seatOf p) ->
  map seatOf (updAt i g ps) = map seatOf ps.
Proof.
  intros H. revert i; induction ps as [|p ps IH]; intros [|i];
    cbn [updAt map]; rewrite ?H, ?IH; reflexivity.
Qed.

Lemma kept_updPlayer (i : nat) (g : Player -> Player) :
  (forall p, seatOf (g p) = seatOf p) -> post (updPlayer i g) tableKept.
Proof.
  intros H. apply frame_modify. intros s. unfold tableKept.
  cbn [players communityCards deck dealerIndex minBet pots log set_players].
  split; [apply seats_updAt, H|].
  repeat split; exists []; rewrite app_nil_r; reflexivity.
Qed.

Lemma kept_drawCard : post drawCard tableKept.
Proof.
  intros s r s' E. unfold drawCard in E.
  destruct (pop (deck s)) as [[c d]|] eqn:P; injection E as _ <-;
    [|apply tableKept_refl].
  apply pop_Some in P. unfold tableKept.
  cbn [players communityCards deck dealerIndex minBet pots log set_deck].
  repeat split; try (exists []; rewrite app_nil_r; reflexivity).
  exists [c]. exact P.
Qed.

Lemma seatOf_show (p : Player) :
  seatOf (set_holeCards (map showCard (holeCards p)) p) = seatOf p.
Proof.
  unfold seatOf. cbn [pid name isAI holeCards set_holeCards].
  rewrite face_showCard. reflexivity.
Qed.

Ltac kept :=
  repeat first
    [ apply (frame_bind tableKept tableKept_trans); [|intros ?]
    | apply post_ret; apply tableKept_refl
    | apply (frame_getPlayer tableKept tableKept_refl)
    | apply kept_drawCard
    | apply (frame_same tableKept tableKept_refl); intros ?; reflexivity
    | apply (frame_modify tableKept); kept_state
    | apply kept_updPlayer; intros ?; first [apply seatOf_show | reflexivity]
    | apply (frame_forEach tableKept tableKept_refl tableKept_trans);
      intros ?
    | match goal with
      | |- post (match ?x with _ => _ end) tableKept => destruct x
      end ].

Lemma kept_revealAll : post revealAll tableKept.
Proof. unfold revealAll. kept. Qed.

Lemma kept_awardPot (ws : list nat) : post (awardPot ws) tableKept.
Proof. unfold awardPot. kept. Qed.

Lemma kept_endHand (ws : list nat) : post (endHand ws) tableKept.
Proof.
  unfold endHand. kept; try apply kept_awardPot; try apply kept_revealAll.
Qed.

Lemma kept_dealFlop : post dealFlop tableKept.
Proof. unfold dealFlop. kept. Qed.

Lemma kept_dealTurn : post dealTurn tableKept.
Proof. unfold dealTurn. kept. Qed.

Lemma kept_dealRiver : post dealRiver tableKept.
Proof. unfold dealRiver. kept. Qed.

Lemma kept_showdown : post showdown tableKept.
Proof.
  unfold showdown, pushLog, liftR.
  kept; try apply kept_awardPot; try apply kept_revealAll.
Qed.

Lemma kept_advancePlayer (fuel start : nat) :
  post (advancePlayer fuel start) tableKept.
Proof.
  induction fuel as [|fuel IH]; cbn [advancePlayer]; kept. exact IH.
Qed.

Lemma kept_skipSettled (fuel first : nat) :
  post (skipSettled fuel first) tableKept.
Proof.
  induction fuel as [|fuel IH]; cbn [skipSettled]; kept. exact IH.
Qed.

Lemma kept_resetBets : post resetBetsForNewStage tableKept.
Proof. unfold resetBetsForNewStage. kept. apply kept_skipSettled. Qed.

Lemma kept_moveToNextStage : post moveToNextStage tableKept.
Proof.
  unfold moveToNextStage.
  apply (frame_bind tableKept tableKept_trans); [kept|]. intros s0.
  apply (frame_bind tableKept tableKept_trans);
    [|intros _; apply kept_resetBets].
  destruct (stage s0);
    [ apply kept_dealFlop | apply kept_dealTurn | apply kept_dealRiver
    | apply kept_showdown | kept ].
Qed.

Lemma kept_checkBettingRoundComplete :
  post checkBettingRoundComplete tableKept.
Proof.
  unfold checkBettingRoundComplete.
  apply (frame_bind tableKept tableKept_trans); [kept|]. intros s0.
  destruct (Nat.eqb (List.length (activeIndices s0)) 1);
    [apply kept_endHand|].
  match goal with |- post (if ?c then _ else _) _ => destruct c end;
    [apply kept_moveToNextStage | kept].
Qed.

Lemma kept_nextPlayer : post nextPlayer tableKept.
Proof.
  unfold nextPlayer.
  apply (frame_bind tableKept tableKept_trans); [kept|]. intros s0.
  apply (frame_bind tableKept tableKept_trans);
    [apply kept_advancePlayer|].
  intros _. apply kept_checkBettingRoundComplete.
Qed.

Lemma kept_actionSwitch (a : PlayerAction) (amount : Z) :
  post (actionSwitch a amount) tableKept.
Proof. unfold actionSwitch. kept. Qed.

Lemma kept_playerAction (a : PlayerAction) (amount : Z) :
  post (playerAction a amount) tableKept.
Proof.
  unfold playerAction.
  apply (frame_bind tableKept tableKept_trans);
    [apply kept_actionSwitch|].
  intros _. apply kept_nextPlayer.
Qed.

(** X23.  Whatever the state, the table size and the action, and whether
    [playerAction] returns or throws, it leaves every player at their seat
    with their identifier, name, kind and hole cards, face up or down; it
    leaves the button, the minimum bet and the side pots; the board is the
    old board with cards added at its end, the deck is the old deck with
    cards taken from its end, and the log is the old log with lines
    added. *)
Theorem X23_action_frame (s : GameState) (a : PlayerAction) (amount : Z) :
  tableKept s (run (playerAction a amount) s).
Proof.
  unfold run. destruct (playerAction a amount s) as [r s'] eqn:E.
  apply (kept_playerAction a amount s r s' E).
Qed.

(* ================================================================== *)
(** * What the number that chooses the best five cards leaves out *)

(** For a flush and for a high-card hand [getHandValue] is made of the
    category and the highest rank. *)
Lemma topCard_value (l : list Card) (e : HandEvaluation) :
  List.length l = 5%nat ->
  evaluateBest l = Ok e ->
  he_rank e = flush \/ he_rank e = high_card ->
  exists h, getHighCard l = Ok h /\
            getHandValue l = Ok (inject_Z (value e) * 15 + inject_Z h)%Q.
Proof.
  intros H.
  destruct (isStraight_total l H) as [bs Hs].
  destruct l as [|c0 l']; [discriminate H|].
  remember (c0 :: l') as l eqn:El.
  assert (Hr0 : rankAt l 0 = Ok (rk c0)) by (subst l; reflexivity).
  assert (Hn0 : cardNameAt l 0 = Ok (getCardName c0)) by (subst l; reflexivity).
  assert (Hne : l <> []) by (subst l; discriminate).
  destruct (getHighCard_ok l Hne) as [h [Hh _]].
  unfold getHandValue, evaluateBest, isRoyalFlush, isStraightFlush.
  rewrite Hs, Hr0, Hn0, Hh.
  intros He Hcat. exists h. split; [reflexivity|]. revert He Hcat.
  destruct (isFlush l), bs; cbn [rbind];
    repeat match goal with
           | |- context [if ?c then _ else _] =>
               lazymatch c with
               | context [if _ then _ else _] => fail
               | _ => destruct c; cbn [rbind]
               end
           end;
    repeat match goal with
           | |- context [rankNameAt ?p ?i] =>
               destruct (rankNameAt p i); cbn [rbind]
           end;
    intros He [Hc|Hc]; try discriminate He;
    injection He as <-; try discriminate Hc; reflexivity.
Qed.

(** X24.  Two flushes, or two high-card hands, of five cards whose highest
    ranks are equal get the same [getHandValue], whatever their other four
    cards: among such hands the choice of the best five cards does not look
    at the kickers. *)
Theorem X24_handValue_ignores_kickers (a b : list Card)
    (ea eb : HandEvaluation) :
  List.length a = 5%nat -> List.length b = 5%nat ->
  evaluateBest a = Ok ea -> evaluateBest b = Ok eb ->
  he_rank ea = he_rank eb ->
  he_rank ea = flush \/ he_rank ea = high_card ->
  getHighCard a = getHighCard b ->
  value ea = value eb /\ getHandValue a = getHandValue b.
Proof.
  intros La Lb Ha Hb Hr Hcat Hh.
  assert (Hv : value ea = value eb).
  { destruct (five_card_hand a La) as [va [ea' [_ [Ha' [_ [Hva _]]]]]].
    destruct (five_card_hand b Lb) as [vb [eb' [_ [Hb' [_ [Hvb _]]]]]].
    rewrite Ha in Ha'. rewrite Hb in Hb'.
    injection Ha' as <-. injection Hb' as <-. congruence. }
  split; [exact Hv|].
  destruct (topCard_value a ea La Ha Hcat) as [ha [Hha ->]].
  destruct (topCard_value b eb Lb Hb) as [hb [Hhb ->]];
    [rewrite <- Hr; exact Hcat|].
  rewrite Hha, Hhb in Hh. injection Hh as ->. rewrite Hv. reflexivity.
Qed.

Lemma X24_handValue_ignores_kickers_witness :
  getHandValue aceFlushHigh = getHandValue aceFlushLow.
Proof.
  eapply (fun ea eb H1 H2 H3 H4 H5 =>
            proj2 (X24_handValue_ignores_kickers aceFlushHigh aceFlushLow
                     ea eb eq_refl eq_refl H1 H2 H3 H4 H5)).
  - vm_compute. reflexivity.
  - vm_compute. reflexivity.
  - reflexivity.
  - left. reflexivity.
  - reflexivity.
Defined.

(* ================================================================== *)
(** * The highest pair *)

Lemma highestPair_max (m : RankCounts) :
  forall acc,
    let v := fold_left
               (fun highestPair e =>
                  if Nat.eqb (snd e) 2 && (fst e >? highestPair) then fst e
                  else highestPair) m acc in
    (v = acc \/ In (v, 2%nat) m) /\ acc <= v /\
    forall k, In (k, 2%nat) m -> k <= v.
Proof.
  induction m as [|[k n] m IH]; intros acc; cbn [fold_left fst snd].
  - split; [left; reflexivity|]. split; [lia|]. intros k [].
  - cbv zeta in IH.
    destruct (Nat.eqb n 2 && (k >? acc)) eqn:E.
    + apply andb_true_iff in E. destruct E as [En Ek].
      apply Nat.eqb_eq in En. subst n.
      destruct (IH k) as [Hv [Hle Hmax]].
      split; [|split].
      * destruct Hv as [->|Hin]; [right; left; reflexivity | right; right; exact Hin].
      * lia.
      * intros k' [Hk'|Hk']; [injection Hk' as ->; exact Hle | apply Hmax, Hk'].
    + destruct (IH acc) as [Hv [Hle Hmax]].
      split; [|split].
      * destruct Hv as [->|Hin]; [left; reflexivity | right; right; exact Hin].
      * exact Hle.
      * intros k' [Hk'|Hk']; [|apply Hmax, Hk'].
        injection Hk' as -> ->. cbn [Nat.eqb andb] in E. lia.
Qed.

(** X25.  [getHighestPairValue] is 0 when no rank occurs exactly twice in
    the cards, and otherwise the highest of the ranks that occur exactly
    twice. *)
Theorem X25_highest_pair (cards : list Card) :
  (getHighestPairValue cards = 0 /\ forall k, occ k cards <> 2%nat) \/
  (occ (getHighestPairValue cards) cards = 2%nat /\
   forall k, occ k cards = 2%nat -> k <= getHighestPairValue cards).
Proof.
  destruct (countRanks_entries cards) as [_ [Hin _]].
  destruct (highestPair_max (countRanks cards) 0) as [Hv [Hle Hmax]].
  fold (getHighestPairValue cards) in Hv, Hle, Hmax.
  assert (Hpos : forall k, occ k cards = 2%nat -> 2 <= k).
  { intros k Hk. destruct (occ_pos_In k cards) as [c [_ <-]]; [lia|].
    apply rk_bounds. }
  assert (Hall : forall k, occ k cards = 2%nat ->
                           k <= getHighestPairValue cards).
  { intros k Hk. apply Hmax, Hin. split; [congruence | lia]. }
  destruct Hv as [Hz|Hi].
  - left. split; [exact Hz|]. intros k Hk.
    specialize (Hall k Hk). specialize (Hpos k Hk). lia.
  - right. apply Hin in Hi. destruct Hi as [Hi _]. split; [congruence | exact Hall].
Qed.
